(** * pwdgen: pattern validator and password generator

    A shallow embedding of the two C sources of the repository:
    - [V1] follows [src/pwdgen.c], the variant without escapes;
    - [V2] follows [src/unnamed/part_000], the variant with the backslash
      escape and the entropy-device seed.

    Characters are C [char] values written as [Z] (a validated pattern only
    holds codes 33..126).  A pattern is the list of the bytes that precede
    the terminating NUL of the C string.  The counters [level] and [len]
    stay below the length of the pattern, which the command line bounds far
    below 2^31, and [t] never passes the count [time]: they are kept as
    unbounded integers.  The counts read by [strtol] are converted to [int]
    as the code does. *)

From Stdlib Require Import ZArith List Bool Lia String Ascii.
Import ListNotations.
Open Scope Z_scope.

(** ** Characters *)

Module Ch.
Definition bang      : Z := 33.   (* '!' *)
Definition lparen    : Z := 40.   (* '(' *)
Definition rparen    : Z := 41.   (* ')' *)
Definition star      : Z := 42.   (* '*' *)
Definition dash      : Z := 45.   (* '-' *)
Definition zero      : Z := 48.   (* '0' *)
Definition nine      : Z := 57.   (* '9' *)
Definition lbrack    : Z := 91.   (* '[' *)
Definition backslash : Z := 92.   (* '\\' *)
Definition rbrack    : Z := 93.   (* ']' *)
Definition tilde     : Z := 126.  (* '~' *)
Definition newline   : Z := 10.   (* '\n' *)
End Ch.

(** A byte of the command line seen as a (signed) C [char]. *)
Definition char_of_ascii (a : ascii) : Z :=
  let n := Z.of_nat (nat_of_ascii a) in
  if n <? 128 then n else n - 256.

Fixpoint chars_of (s : string) : list Z :=
  match s with
  | EmptyString => []
  | String a s' => char_of_ascii a :: chars_of s'
  end.

(** ** Reads through a pointer

    Where a pointer only moves forward it is kept as a pair: the bytes
    behind it (nearest first) and the bytes from it up to the terminator.
    [ahead k rest] is [ipt[k]]: the terminator reads as 0.  [behind k before]
    is [ipt[-1-k]]; there is nothing to read in front of the first byte of
    the pattern, and such a read gives [None]. *)

Definition ahead (k : nat) (rest : list Z) : Z := nth k rest 0.
Definition behind (k : nat) (before : list Z) : option Z := nth_error before k.

(** ** check, as in src/pwdgen.c *)

Module V1.

Fixpoint check_loop (before rest : list Z) (in_ level : Z) : option bool :=
  match rest with
  | [] => Some ((in_ =? 0) && (level =? 0))
  | c :: rest' =>
    if (c <? Ch.bang) || (c >? Ch.tilde) then Some false
    else if c =? Ch.lbrack then
      if negb (in_ =? 0) then Some false
      else check_loop (c :: before) rest' 1 level
    else if c =? Ch.rbrack then
      if negb (in_ =? 1) then Some false
      else match behind 0 before with
           | None => None
           | Some p =>
             if p =? Ch.rbrack then Some false
             else check_loop (c :: before) rest' 0 level
           end
    else if c =? Ch.lparen then
      if in_ =? 1 then Some false
      else check_loop (c :: before) rest' in_ (level + 1)
    else if c =? Ch.rparen then
      if negb (in_ =? 0) || (level <=? 0) then Some false
      else check_loop (c :: before) rest' in_ (level - 1)
    else if c =? Ch.dash then
      if negb (in_ =? 0) then
        match behind 0 before with
        | None => None
        | Some p =>
          if (p =? Ch.lbrack) || (ahead 1 rest =? Ch.rbrack)
             || (ahead 1 rest <? p)
          then Some false
          else check_loop (c :: before) rest' in_ level
        end
      else check_loop (c :: before) rest' in_ level
    else check_loop (c :: before) rest' in_ level
  end.

Definition check (ipt : list Z) : option bool := check_loop [] ipt 0 0.

End V1.

(** ** check, as in src/unnamed/part_000 *)

Module V2.

(** [ipt[-1] == '[' && ipt - ipt_origin >= 2 && ipt[-2] != '\\'], evaluated
    left to right with the short circuits of [&&]. *)
Definition opens_here (before : list Z) : option bool :=
  match behind 0 before with
  | None => None
  | Some p =>
    if negb (p =? Ch.lbrack) then Some false
    else if negb (2 <=? Z.of_nat (List.length before)) then Some false
    else match behind 1 before with
         | None => None
         | Some q => Some (negb (q =? Ch.backslash))
         end
  end.

Fixpoint check_loop (before rest : list Z) (in_ level : Z) : option bool :=
  match rest with
  | [] => Some ((in_ =? 0) && (level =? 0))
  | c :: rest' =>
    if (c <? Ch.bang) || (c >? Ch.tilde) then Some false
    else if c =? Ch.lbrack then
      if negb (in_ =? 0) then Some false
      else check_loop (c :: before) rest' 1 level
    else if c =? Ch.rbrack then
      if in_ =? 0 then Some false
      else match opens_here before with
           | None => None
           | Some true => Some false
           | Some false => check_loop (c :: before) rest' 0 level
           end
    else if c =? Ch.lparen then
      if negb (in_ =? 0) then Some false
      else check_loop (c :: before) rest' in_ (level + 1)
    else if c =? Ch.rparen then
      if negb (in_ =? 0) || (level <=? 0) then Some false
      else check_loop (c :: before) rest' in_ (level - 1)
    else if c =? Ch.dash then
      let first :=
        if in_ =? 0 then Some false
        else match opens_here before with
             | None => None
             | Some true => Some true
             | Some false => Some (ahead 1 rest =? Ch.rbrack)
             end in
      match first with
      | None => None
      | Some true => Some false
      | Some false =>
        match behind 0 before with
        | None => None
        | Some p =>
          let e := if ahead 1 rest =? Ch.backslash
                   then ahead 2 rest else ahead 1 rest in
          if e <? p then Some false
          else check_loop (c :: before) rest' in_ level
        end
      end
    else if c =? Ch.backslash then
      match rest' with
      | [] => Some false
      | n :: rest'' =>
        if (n <? Ch.bang) || (n >? Ch.tilde) then Some false
        else check_loop (n :: c :: before) rest'' in_ level
      end
    else check_loop (c :: before) rest' in_ level
  end.

Definition check (ipt : list Z) : option bool := check_loop [] ipt 0 0.

End V2.

(** ** The generator, as in src/unnamed/part_000

    [randchar] and [generate] move their pointer back and forth over the
    pattern, so here a pointer is an offset into the buffer.  [rd s i] reads
    the byte at offset [i]: the bytes of the pattern, then the terminator;
    any other offset lies outside the string and the read fails. *)

Definition rd (s : list Z) (i : Z) : option Z :=
  if i <? 0 then None
  else if i <? Z.of_nat (List.length s) then nth_error s (Z.to_nat i)
  else if i =? Z.of_nat (List.length s) then Some 0
  else None.

(** What the program has done so far: the bytes given to [putchar], oldest
    first, and how many times [rand] has been called. *)
Record world : Type := mkWorld { out : list Z; draws : nat }.

Definition putchar (c : Z) (w : world) : world :=
  mkWorld (out w ++ [c]) (draws w).

Notation "x <- e ;; k" :=
  (match e with Some x => k | None => None end)
  (at level 61, e at next level, right associativity).
Notation "' pat <- e ;; k" :=
  (match e with Some pat => k | None => None end)
  (at level 61, pat pattern, e at next level, right associativity).

(** [long] is 64 bits and [int] 32 bits wide (the program opens
    /dev/urandom: Linux, LP64). *)
Definition LONG_MAX : Z := 9223372036854775807.
Definition INT_MAX : Z := 2147483647.
Definition to_int (v : Z) : Z := (v + 2147483648) mod 4294967296 - 2147483648.

(** [strtol(p, &end, 10)] at a digit: the value of the run of decimal digits
    (LONG_MAX when it does not fit) and the number of digits read. *)
Fixpoint digits_run (l : list Z) (acc : Z) (n : Z) : Z * Z :=
  match l with
  | [] => (acc, n)
  | d :: l' =>
    if (Ch.zero <=? d) && (d <=? Ch.nine)
    then digits_run l' (10 * acc + (d - Ch.zero)) (n + 1)
    else (acc, n)
  end.

Definition strtol (s : list Z) (i : Z) : Z * Z :=
  let '(v, n) := digits_run (skipn (Z.to_nat i) s) 0 0 in
  (Z.min v LONG_MAX, i + n).

(** [chars] is a zero-filled array of 256 cells of which the first [len] have
    been written: it is kept as the list of the written cells, and a cell
    past them reads 0. *)
Fixpoint strfind_loop (tar : Z) (lst : list Z) (k : nat) : bool :=
  match k with
  | O => false
  | S k' =>
    match lst with
    | [] => (0 =? tar) || strfind_loop tar [] k'
    | x :: l => (x =? tar) || strfind_loop tar l k'
    end
  end.

(** [strfind(tar, lst, len)] looks at the cells 0..len, both included. *)
Definition strfind (tar : Z) (lst : list Z) (len : nat) : bool :=
  strfind_loop tar lst (S len).

(** [if (!strfind(c, chars, len)) chars[len++] = c;] where the cell [len]
    that [strfind] reads must be one of the 256. *)
Definition add_char (c : Z) (chars : list Z) : option (list Z) :=
  if (256 <=? List.length chars)%nat then None
  else if strfind c chars (List.length chars) then Some chars
  else Some (chars ++ [c]).

(** [for (c = ipt[-1] + 1; c < end; ++c) ...], [n] being the number of
    values left to visit. *)
Fixpoint fill (n : nat) (c : Z) (chars : list Z) : option (list Z) :=
  match n with
  | O => Some chars
  | S n' => chars' <- add_char c chars ;; fill n' (c + 1) chars'
  end.

Definition w0 : world := mkWorld [] 0.

(** [chars[r % len]] for a value [r] of [rand()], which is never negative;
    [%] truncates. *)
Definition pick (r : N) (chars : list Z) : Z :=
  nth (Z.to_nat (Z.rem (Z.of_N r) (Z.of_nat (List.length chars)))) chars 0.

(** ** main, as in both sources

    [getopt] is the C library's: the options it reports are taken as given,
    each with the value the [switch] of main reads from it ([optarg] for
    -p, the [long] that [strtol(optarg, NULL, 10)] returns for -t, which
    the assignment to the [int] times converts).  The two sources have the same
    main but for the seed of the random source; each calls the check and
    the generate of its own file. *)

Module Main.

Inductive opt : Type :=
| Opt_p (optarg : list Z)
| Opt_t (times : Z)
| Opt_other.

Definition FLAG_DEFINITION : Z := 1.
Definition FLAG_TIME : Z := 2.

Record parsed : Type :=
  mkParsed { flags : Z; times_arg : Z; ipt_arg : list Z }.

Fixpoint getopt_loop (os : list opt) (a : parsed) : parsed :=
  match os with
  | [] => a
  | Opt_p optarg :: os' =>
    getopt_loop os' (mkParsed (Z.lor (flags a) FLAG_DEFINITION) (times_arg a) optarg)
  | Opt_t n :: os' =>
    getopt_loop os' (mkParsed (Z.lor (flags a) FLAG_TIME) (to_int n) (ipt_arg a))
  | Opt_other :: os' => getopt_loop os' a
  end.

Definition msg_need : list Z := chars_of "Need password definition." ++ [Ch.newline].
Definition msg_error : list Z := chars_of "Password definition error." ++ [Ch.newline].

Definition printf (m : list Z) (w : world) : world :=
  mkWorld (out w ++ m) (draws w).

(** How the process ends: the value main returns, or the status given to
    [exit] by [init_random]. *)
Inductive ending : Type :=
| Returned (status : Z)
| Exited (status : Z).

Section Program.

(** The check and the generate of the source file at hand. *)
Variable check : list Z -> option bool.
Variable generate : nat -> list Z -> Z -> world -> option (Z * world).

(** [while (times--) { generate(ipt); putchar('\n'); }] *)
Fixpoint main_loop (times : nat) (fuel : nat) (s : list Z) (w : world)
  : option world :=
  match times with
  | O => Some w
  | S times' =>
    '(_, w') <- generate fuel s 0 w ;;
    main_loop times' fuel s (putchar Ch.newline w')
  end.

(** [seeded] tells whether the seed could be set: [init_random] of
    src/unnamed/part_000 leaves the process when /dev/urandom cannot be
    opened, [srand(time(NULL))] of src/pwdgen.c always goes through.  The
    result is the ending and the bytes written to the standard output. *)
Definition main (seeded : bool) (fuel : nat) (os : list opt)
  : option (ending * world) :=
  let a := getopt_loop os (mkParsed 0 0 []) in
  if Z.land (flags a) FLAG_DEFINITION =? 0 then
    Some (Returned (-1), printf msg_need w0)
  else
    let times := if (Z.land (flags a) FLAG_TIME =? 0) || (times_arg a =? 0)
                 then 1 else times_arg a in
    b <- check (ipt_arg a) ;;
    if negb b then Some (Returned (-2), printf msg_error w0)
    else if negb seeded then Some (Exited 1, w0)  (* perror writes to stderr *)
    (* a negative count would be decremented past the least [int] *)
    else if times <? 0 then None
    else
      w <- main_loop (Z.to_nat times) fuel (ipt_arg a) w0 ;;
      Some (Returned 0, w).

End Program.
End Main.

Module Gen.
Section Generator.

(** [sample k chars] is the character that the draw number [k] of the run
    takes from [chars]: [chars[rand() % len]] for the value that this call
    of [rand()] returns (see [sampler] below). *)
Variable sample : nat -> list Z -> Z.

Definition draw (chars : list Z) (w : world) : option world :=
  if (List.length chars =? 0)%nat then None
  else Some (mkWorld (out w ++ [sample (draws w) chars]) (S (draws w))).

(** [while (c--) putchar(chars[rand() % len]);] *)
Fixpoint emit (c : nat) (chars : list Z) (w : world) : option world :=
  match c with
  | O => Some w
  | S c' => w' <- draw chars w ;; emit c' chars w'
  end.

(** The scan of a class body up to its closing bracket. *)
Fixpoint expand (fuel : nat) (s : list Z) (ipt : Z) (chars : list Z)
  : option (Z * list Z) :=
  match fuel with
  | O => None
  | S fuel' =>
    c <- rd s ipt ;;
    if c =? Ch.rbrack then Some (ipt, chars)
    else if c =? Ch.dash then
      n1 <- rd s (ipt + 1) ;;
      end_ <- (if n1 =? Ch.backslash then rd s (ipt + 2) else Some n1) ;;
      p <- rd s (ipt - 1) ;;
      chars' <- fill (Z.to_nat (end_ - (p + 1))) (p + 1) chars ;;
      expand fuel' s (ipt + 1) chars'
    else
      let ipt' := if c =? Ch.backslash then ipt + 1 else ipt in
      c' <- rd s ipt' ;;
      chars' <- add_char c' chars ;;
      expand fuel' s (ipt' + 1) chars'
  end.

(** The look for a [*N] suffix after the closing bracket or parenthesis at
    [ipt]: the count and the offset of the first byte after the suffix,
    or nothing when no suffix follows. *)
Definition suffix (s : list Z) (ipt : Z) : option (option (Z * Z)) :=
  n1 <- rd s (ipt + 1) ;;
  if n1 =? Ch.star then
    n2 <- rd s (ipt + 2) ;;
    if (n2 >? Ch.zero) && (n2 <=? Ch.nine)
    then let '(v, e) := strtol s (ipt + 2) in Some (Some (to_int v, e))
    else Some None
  else Some None.

Definition randchar (s : list Z) (ipt_origin : Z) (w : world)
  : option (Z * world) :=
  '(ipt, chars) <- expand (S (List.length s)) s ipt_origin [] ;;
  sfx <- suffix s ipt ;;
  let '(c, ipt1) := match sfx with
                    | Some (n, e) => (n, e)
                    | None => (1, ipt + 1)
                    end in
  (* a negative count would be decremented past the least [int] *)
  if c <? 0 then None
  else
    w' <- emit (Z.to_nat c) chars w ;;
    Some (ipt1 - ipt_origin - 1, w').

(** The loop of [generate]; [fuel] bounds the number of iterations and of
    nested calls.  In [ipt += randchar(++ipt)] and [ipt += generate(ipt)]
    the call is made first and its result added to the advanced pointer;
    the [++ipt] of the [for] then follows. *)
Fixpoint gen_loop (fuel : nat) (s : list Z) (ipt_origin ipt : Z)
         (t time ipt_exit : Z) (w : world) : option (Z * world) :=
  match fuel with
  | O => None
  | S fuel' =>
    c <- rd s ipt ;;
    if c =? 0 then Some (ipt - ipt_origin, w)
    else if c =? Ch.lparen then
      '(r, w') <- gen_loop fuel' s (ipt + 1) (ipt + 1) 0 0 0 w ;;
      gen_loop fuel' s ipt_origin (ipt + 1 + r + 1) t time ipt_exit w'
    else if c =? Ch.rparen then
      if time =? 0 then
        sfx <- suffix s ipt ;;
        match sfx with
        | Some (n, e) =>
          if t + 1 <? n
          then gen_loop fuel' s ipt_origin ipt_origin (t + 1) n e w
          else Some (e - ipt_origin - 1, w)
        | None => Some (ipt + 1 - ipt_origin - 1, w)
        end
      else
        if t + 1 <? time
        then gen_loop fuel' s ipt_origin ipt_origin (t + 1) time ipt_exit w
        else Some (ipt_exit - ipt_origin - 1, w)
    else if c =? Ch.lbrack then
      '(r, w') <- randchar s (ipt + 1) w ;;
      gen_loop fuel' s ipt_origin (ipt + 1 + r + 1) t time ipt_exit w'
    else if c =? Ch.backslash then
      c' <- rd s (ipt + 1) ;;
      gen_loop fuel' s ipt_origin (ipt + 1 + 1) t time ipt_exit (putchar c' w)
    else
      gen_loop fuel' s ipt_origin (ipt + 1) t time ipt_exit (putchar c w)
  end.

Definition generate (fuel : nat) (s : list Z) (ipt : Z) (w : world)
  : option (Z * world) :=
  gen_loop fuel s ipt ipt 0 0 0 w.

(** main of src/unnamed/part_000; [urandom] tells whether /dev/urandom can
    be opened. *)
Definition main (urandom : bool) (fuel : nat) (os : list Main.opt)
  : option (Main.ending * world) :=
  Main.main V2.check generate urandom fuel os.

End Generator.
End Gen.

(** ** The generator, as in src/pwdgen.c

    No escapes; the loop of a range runs up to the end character and steps
    over it; generate reports one byte more after a group without count. *)

Module Gen1.
Section Generator.

Variable sample : nat -> list Z -> Z.

Fixpoint expand (fuel : nat) (s : list Z) (ipt : Z) (chars : list Z)
  : option (Z * list Z) :=
  match fuel with
  | O => None
  | S fuel' =>
    c <- rd s ipt ;;
    if c =? Ch.rbrack then Some (ipt, chars)
    else if c =? Ch.dash then
      p <- rd s (ipt - 1) ;;
      end_ <- rd s (ipt + 1) ;;
      chars' <- fill (Z.to_nat (end_ + 1 - (p + 1))) (p + 1) chars ;;
      expand fuel' s (ipt + 1 + 1) chars'
    else
      chars' <- add_char c chars ;;
      expand fuel' s (ipt + 1) chars'
  end.

Definition randchar (s : list Z) (ipt_origin : Z) (w : world)
  : option (Z * world) :=
  '(ipt, chars) <- expand (S (List.length s)) s ipt_origin [] ;;
  sfx <- Gen.suffix s ipt ;;
  let '(c, ipt1) := match sfx with
                    | Some (n, e) => (n, e)
                    | None => (1, ipt + 1)
                    end in
  if c <? 0 then None
  else
    w' <- Gen.emit sample (Z.to_nat c) chars w ;;
    Some (ipt1 - ipt_origin - 1, w').

Fixpoint gen_loop (fuel : nat) (s : list Z) (ipt_origin ipt : Z)
         (t time ipt_exit : Z) (w : world) : option (Z * world) :=
  match fuel with
  | O => None
  | S fuel' =>
    c <- rd s ipt ;;
    if c =? 0 then Some (ipt - ipt_origin, w)
    else if c =? Ch.lparen then
      '(r, w') <- gen_loop fuel' s (ipt + 1) (ipt + 1) 0 0 0 w ;;
      gen_loop fuel' s ipt_origin (ipt + 1 + r + 1) t time ipt_exit w'
    else if c =? Ch.rparen then
      if time =? 0 then
        sfx <- Gen.suffix s ipt ;;
        match sfx with
        | Some (n, e) =>
          if t + 1 <? n
          then gen_loop fuel' s ipt_origin ipt_origin (t + 1) n e w
          else Some (e - ipt_origin - 1, w)
        | None => Some (ipt + 1 - ipt_origin, w)
        end
      else
        if t + 1 <? time
        then gen_loop fuel' s ipt_origin ipt_origin (t + 1) time ipt_exit w
        else Some (ipt_exit - ipt_origin - 1, w)
    else if c =? Ch.lbrack then
      '(r, w') <- randchar s (ipt + 1) w ;;
      gen_loop fuel' s ipt_origin (ipt + 1 + r + 1) t time ipt_exit w'
    else
      gen_loop fuel' s ipt_origin (ipt + 1) t time ipt_exit (putchar c w)
  end.

Definition generate (fuel : nat) (s : list Z) (ipt : Z) (w : world)
  : option (Z * world) :=
  gen_loop fuel s ipt ipt 0 0 0 w.

(** main of src/pwdgen.c: the seed always goes through. *)
Definition main (fuel : nat) (os : list Main.opt)
  : option (Main.ending * world) :=
  Main.main V1.check generate true fuel os.

End Generator.
End Gen1.

(** The draws of a run whose calls of [rand()] return [rand 0], [rand 1],
    and so on. *)
Definition sampler (rand : nat -> N) : nat -> list Z -> Z :=
  fun k chars => pick (rand k) chars.

(** * Vocabulary of the statements *)

(** A decimal digit. *)
Definition is_digit (d : Z) : bool := (Ch.zero <=? d) && (d <=? Ch.nine).

(** The number a run of decimal digits denotes. *)
Definition decimal (ds : list Z) : Z :=
  fold_left (fun a d => 10 * a + (d - Ch.zero)) ds 0.

(** What follows a run of digits is no digit. *)
Definition stops_run (rest : list Z) : Prop :=
  match rest with [] => True | c :: _ => is_digit c = false end.

(** The run is not empty and its first digit is 1..9. *)
Definition leading (ds : list Z) : Prop :=
  match ds with [] => False | d :: _ => Ch.zero < d <= Ch.nine end.

(** The byte at offset [j] is followed by a star and the digits [ds], first
    digit 1..9, and no further digit. *)
Definition has_suffix (s : list Z) (j : Z) (ds : list Z) : Prop :=
  0 <= j /\ leading ds /\ Forall (fun d => is_digit d = true) ds /\
  exists rest, skipn (Z.to_nat (j + 1)) s = Ch.star :: ds ++ rest /\ stops_run rest.

(** The range 0x21..0x7E that check lets through. *)
Definition is_printable (c : Z) : Prop := Ch.bang <= c <= Ch.tilde.

(** The sets of the classes [A-Za-z] and [0-9], in the order of the scan. *)
Definition letters : list Z := Eval cbv in
  map Z.of_nat (seq 65 26 ++ seq 97 26).
Definition digits : list Z := Eval cbv in map Z.of_nat (seq 48 10).

(** The end operand [B] of a range is written at offset [i]: as it is, on
    one byte, or after a backslash, on two. *)
Definition operand (s : list Z) (i : Z) (B : Z) (k : Z) : Prop :=
  (rd s i = Some B /\ B <> Ch.rbrack /\ B <> Ch.dash /\ B <> Ch.backslash /\ k = 1)
  \/ (rd s i = Some Ch.backslash /\ rd s (i + 1) = Some B /\ k = 2).

(** An ASCII letter, A-Z or a-z. *)
Definition is_letter (c : Z) : bool :=
  ((65 <=? c) && (c <=? 90)) || ((97 <=? c) && (c <=? 122)).

(** The option is -p. *)
Definition is_p (o : Main.opt) : bool :=
  match o with Main.Opt_p _ => true | _ => false end.

(** What the option loop of main leaves in [flags], [times] and [ipt]. *)
Definition parse (os : list Main.opt) : Main.parsed :=
  Main.getopt_loop os (Main.mkParsed 0 0 []).

(** The two sources. *)
Inductive variant : Type :=
| Original   (* src/pwdgen.c *)
| Revised.   (* src/unnamed/part_000 *)

Definition check_of (v : variant) : list Z -> option bool :=
  match v with Original => V1.check | Revised => V2.check end.

Definition main_of (v : variant) (sample : nat -> list Z -> Z) (seeded : bool)
  : nat -> list Main.opt -> option (Main.ending * world) :=
  match v with
  | Original => Gen1.main sample
  | Revised => Gen.main sample seeded
  end.

(** No backslash. *)
Definition unescaped (c : Z) : bool := negb (c =? Ch.backslash).

(** Every dash of [s] stands between an opening bracket and the next
    closing one; [inside] tells whether [s] starts inside a class. *)
Fixpoint dashes_in_class (inside : bool) (s : list Z) : bool :=
  match s with
  | [] => true
  | c :: r =>
    if c =? Ch.dash then inside && dashes_in_class inside r
    else if c =? Ch.lbrack then dashes_in_class true r
    else if c =? Ch.rbrack then dashes_in_class false r
    else dashes_in_class inside r
  end.

(** The pattern starts with an opening bracket and a dash. *)
Definition starts_with_dash_class (s : list Z) : bool :=
  match s with
  | a :: b :: _ => (a =? Ch.lbrack) && (b =? Ch.dash)
  | _ => false
  end.

(** No closing bracket right after an opening one. *)
Fixpoint no_empty_class (s : list Z) : bool :=
  match s with
  | c :: (d :: _) as t =>
    negb ((c =? Ch.lbrack) && (d =? Ch.rbrack)) && no_empty_class t
  | _ => true
  end.

(** What both loops keep: [in_] is 0 or 1, and inside a class the byte
    behind the pointer exists and is no closing bracket. *)
Definition in_class_inv (before : list Z) (in_ : Z) : Prop :=
  in_ = 0 \/ (in_ = 1 /\ exists p t, before = p :: t /\ p <> Ch.rbrack).

(** How many times the byte [c] occurs in [s]. *)
Definition occurrences (c : Z) (s : list Z) : Z :=
  Z.of_nat (count_occ Z.eq_dec s c).

(** The text that a pattern without class and group stands for: its
    characters, each escaped character without its backslash.  There is no
    text when the pattern holds an opening bracket or a parenthesis that is
    not escaped, or ends in a lone backslash. *)
Fixpoint literal_text (s : list Z) : option (list Z) :=
  match s with
  | [] => Some []
  | c :: rest =>
    if c =? Ch.backslash then
      match rest with
      | [] => None
      | d :: rest' =>
        if d =? 0 then None
        else match literal_text rest' with
             | Some t => Some (d :: t)
             | None => None
             end
      end
    else if (c =? 0) || (c =? Ch.lparen) || (c =? Ch.rparen) || (c =? Ch.lbrack)
    then None
    else match literal_text rest with
         | Some t => Some (c :: t)
         | None => None
         end
  end.

(** [n] lines that hold the text [t]. *)
Fixpoint lines (n : nat) (t : list Z) : list Z :=
  match n with
  | O => []
  | S n' => t ++ [Ch.newline] ++ lines n' t
  end.

(** [w'] is [w] with some text appended, no more draws made than characters
    written. *)
Definition extends (w w' : world) : Prop :=
  exists txt, out w' = out w ++ txt /\
              (draws w <= draws w' <= draws w + List.length txt)%nat.

(** The end operand that check and randchar read behind a dash, [rest]
    being the bytes that follow the dash: the next byte, or the one after it
    when the next byte is a backslash. *)
Definition range_end (rest : list Z) : Z :=
  if ahead 0 rest =? Ch.backslash then ahead 1 rest else ahead 0 rest.

(** A character with no structural meaning for check. *)
Definition ordinary (c : Z) : Prop :=
  c <> Ch.lbrack /\ c <> Ch.rbrack /\ c <> Ch.lparen /\ c <> Ch.rparen /\
  c <> Ch.dash /\ c <> Ch.backslash.

(** The pattern that escapes every character of [txt]. *)
Definition escaped (txt : list Z) : list Z :=
  flat_map (fun c => [Ch.backslash; c]) txt.

(** The world after the text [txt k] has been written with [d] draws, [k]
    being the number of draws made before. *)
Definition writes (txt : nat -> list Z) (d : nat) (w : world) : world :=
  mkWorld (out w ++ txt (draws w)) (draws w + d).

(** [body] only appends to the output, always with the same number of
    draws; what it appends depends on the world through the number of
    draws made before. *)
Definition appends (body : world -> world) : Prop :=
  exists txt d, forall w, body w = writes txt d w.

(** The byte that follows [before] is escaped: the backslashes that stand
    right in front of it are odd in number. *)
Fixpoint escaped_here (before : list Z) : bool :=
  match before with
  | c :: t => (c =? Ch.backslash) && negb (escaped_here t)
  | [] => false
  end.

(** The run of decimal digits that [l] starts with. *)
Fixpoint digits_of (l : list Z) : list Z :=
  match l with
  | c :: r => if is_digit c then c :: digits_of r else []
  | [] => []
  end.

(** [rest] starts with a star and a digit 1..9: what randchar and generate
    take for a count after a closing bracket or parenthesis. *)
Definition counted (rest : list Z) : bool :=
  (ahead 0 rest =? Ch.star) && (ahead 1 rest >? Ch.zero) && (ahead 1 rest <=? Ch.nine).

(** Every count written after a closing bracket is no greater than
    INT_MAX. *)
Fixpoint class_counts_fit (s : list Z) : bool :=
  match s with
  | [] => true
  | c :: r =>
    (negb (c =? Ch.rbrack) || negb (counted r)
     || (decimal (digits_of (tl r)) <=? INT_MAX))
    && class_counts_fit r
  end.

(** From the offset [i] the loop of generate comes to the offset [j],
    whatever the call it runs in, having turned the world [w] into
    [body w]: [cost] iterations, and [need] the fuel left for what
    follows. *)
Definition runs (sample : nat -> list Z -> Z) (s : list Z) (i j : Z)
           (body : world -> world) : Prop :=
  exists cost need : nat, forall o f t tm ex w, (need <= f)%nat ->
    Gen.gen_loop sample (cost + f) s o i t tm ex w
    = Gen.gen_loop sample f s o j t tm ex (body w).

(** Where a sequence ends for check: at the end of the pattern outside
    every group, or at the closing parenthesis of the group it is in. *)
Definition stops (before rest : list Z) (level : Z) : Prop :=
  (rest = [] /\ level = 0) \/
  (exists r, rest = Ch.rparen :: r /\ 1 <= level /\
             V2.check_loop (Ch.rparen :: before) r 0 (level - 1) = Some true).

(** * Properties *)

(** ** The working set of a class *)

Lemma strfind_loop_nil tar k :
  strfind_loop tar [] k = true -> tar = 0.
Proof.
  induction k as [|k IH]; cbn [strfind_loop]; [discriminate|].
  destruct (Z.eqb_spec 0 tar); [congruence | exact IH].
Qed.

Lemma strfind_In tar chars :
  strfind tar chars (List.length chars) = true <-> In tar chars \/ tar = 0.
Proof.
  unfold strfind. induction chars as [|x l IH].
  - cbn [strfind_loop List.length]. rewrite orb_false_r, Z.eqb_eq. simpl.
    split; [auto|]. intros [[]|E]; congruence.
  - change (strfind_loop tar (x :: l) (S (List.length (x :: l))))
      with ((x =? tar) || strfind_loop tar l (S (List.length l))).
    rewrite orb_true_iff, IH, Z.eqb_eq. simpl. tauto.
Qed.

Lemma add_char_cases c chars chars' :
  add_char c chars = Some chars' ->
  (chars' = chars /\ (In c chars \/ c = 0)) \/
  (chars' = chars ++ [c] /\ ~ In c chars /\ c <> 0).
Proof.
  unfold add_char. destruct (256 <=? List.length chars)%nat; [discriminate|].
  destruct (strfind c chars (List.length chars)) eqn:E; intros [= <-].
  - left. split; [reflexivity | now apply strfind_In].
  - right. split; [reflexivity|]. split; intros H;
      assert (strfind c chars (List.length chars) = true) by (apply strfind_In; auto);
      congruence.
Qed.

Lemma add_char_In c chars chars' x :
  add_char c chars = Some chars' ->
  In x chars' <-> In x chars \/ (x = c /\ c <> 0).
Proof.
  intros H. destruct (add_char_cases _ _ _ H) as [[-> Hc]|[-> [Hn Hz]]].
  - split; [auto|]. intros [Hx|[-> Hz]]; [assumption|]. destruct Hc; [assumption|contradiction].
  - rewrite in_app_iff. simpl. split.
    + intros [Hx|[<-|[]]]; auto.
    + intros [Hx|[-> _]]; auto.
Qed.

Lemma add_char_NoDup c chars chars' :
  add_char c chars = Some chars' -> NoDup chars -> NoDup chars'.
Proof.
  intros H ND. destruct (add_char_cases _ _ _ H) as [[-> _]|[-> [Hn _]]]; [assumption|].
  apply NoDup_app; [assumption | repeat constructor; simpl; tauto |].
  intros x Hx [<-|[]]. contradiction.
Qed.

Lemma add_char_ok c chars :
  (List.length chars < 256)%nat -> exists chars', add_char c chars = Some chars'.
Proof.
  intros H. unfold add_char.
  destruct (Nat.leb_spec 256 (List.length chars)); [lia|].
  destruct (strfind c chars (List.length chars)); eauto.
Qed.

Lemma fill_NoDup n : forall c chars chars',
  fill n c chars = Some chars' -> NoDup chars -> NoDup chars'.
Proof.
  induction n as [|n IH]; simpl; intros c chars chars' H ND.
  - now injection H as <-.
  - destruct (add_char c chars) as [l|] eqn:E; [|discriminate].
    eapply IH; [exact H|]. eapply add_char_NoDup; eauto.
Qed.

Lemma fill_In n : forall c chars chars' x,
  0 < c ->
  fill n c chars = Some chars' ->
  In x chars' <-> In x chars \/ (c <= x < c + Z.of_nat n).
Proof.
  induction n as [|n IH]; intros c chars chars' x Hc H.
  - simpl in H. injection H as <-. split; [auto|]. intros [?|?]; [assumption|lia].
  - simpl in H. destruct (add_char c chars) as [l|] eqn:E; [|discriminate].
    rewrite (IH (c + 1) l chars' x) by (assumption || lia).
    rewrite (add_char_In _ _ _ x E). split.
    + intros [[?|[-> _]]|?]; auto; right; lia.
    + intros [?|?]; [auto|]. destruct (Z.eq_dec x c) as [->|]; [left; right; split; [reflexivity|lia]|right; lia].
Qed.

(** Inverts a successful bind. *)
Ltac bind_inv H :=
  match type of H with
  | match ?e with Some _ => _ | None => _ end = Some _ =>
    let E := fresh "E" in destruct e eqn:E; [|discriminate H]
  end.

Lemma expand_NoDup fuel : forall s ipt chars j chars',
  Gen.expand fuel s ipt chars = Some (j, chars') ->
  NoDup chars -> NoDup chars'.
Proof.
  induction fuel as [|fuel IH]; intros s ipt chars j chars' H ND;
    cbn [Gen.expand] in H; [discriminate|].
  bind_inv H. destruct (z =? Ch.rbrack).
  - now injection H as _ <-.
  - destruct (z =? Ch.dash).
    + do 4 bind_inv H. eapply IH; [exact H|]. eapply fill_NoDup; eauto.
    + do 2 bind_inv H. eapply IH; [exact H|]. eapply add_char_NoDup; eauto.
Qed.

(** ** Draws *)

Lemma pick_In (r : N) (chars : list Z) :
  chars <> [] -> In (pick r chars) chars.
Proof.
  intros Hne. apply nth_In.
  assert (0 < Z.of_nat (List.length chars)) by (destruct chars; simpl; [congruence|lia]).
  pose proof (Z.rem_bound_pos (Z.of_N r) (Z.of_nat (List.length chars))
                ltac:(lia) ltac:(lia)).
  lia.
Qed.

Lemma draw_spec rand chars w :
  chars <> [] ->
  exists c, In c chars /\
    Gen.draw (sampler rand) chars w = Some (mkWorld (out w ++ [c]) (S (draws w))).
Proof.
  intros Hne. unfold Gen.draw.
  destruct (Nat.eqb_spec (List.length chars) 0) as [E|_].
  - destruct chars; [congruence | discriminate].
  - eexists. split; [|reflexivity]. unfold sampler. now apply pick_In.
Qed.

Lemma emit_spec rand chars n : forall w,
  chars <> [] ->
  exists picks,
    Gen.emit (sampler rand) n chars w = Some (mkWorld (out w ++ picks) (draws w + n)%nat)
    /\ List.length picks = n /\ Forall (fun c => In c chars) picks.
Proof.
  induction n as [|n IH]; intros w Hne; cbn [Gen.emit].
  - exists []. rewrite app_nil_r, Nat.add_0_r. destruct w; auto.
  - destruct (draw_spec rand chars w Hne) as (c & Hc & ->).
    destruct (IH (mkWorld (out w ++ [c]) (S (draws w))) Hne) as (picks & -> & Hl & Hf).
    exists (c :: picks). cbn [out draws]. rewrite <- app_assoc.
    replace (S (draws w) + n)%nat with (draws w + S n)%nat by lia.
    simpl. auto.
Qed.

(** ** Reads and the repetition suffix *)

Lemma rd_skipn s i c l :
  0 <= i -> skipn (Z.to_nat i) s = c :: l -> rd s i = Some c.
Proof.
  intros Hi H. unfold rd.
  assert (Hn : nth_error s (Z.to_nat i) = Some c).
  { rewrite <- (firstn_skipn (Z.to_nat i) s) at 1. rewrite H.
    assert (Hl : (Z.to_nat i <= List.length s)%nat).
    { destruct (Nat.le_gt_cases (Z.to_nat i) (List.length s)); [assumption|].
      rewrite (@skipn_all2 Z (Z.to_nat i) s) in H by lia. discriminate. }
    rewrite nth_error_app2; rewrite firstn_length_le by exact Hl; [|lia].
    now rewrite Nat.sub_diag. }
  assert (Z.to_nat i < List.length s)%nat by (apply nth_error_Some; congruence).
  destruct (Z.ltb_spec i 0); [lia|].
  destruct (Z.ltb_spec i (Z.of_nat (List.length s))); [assumption|lia].
Qed.

Lemma skipn_next (s : list Z) n c l :
  skipn n s = c :: l -> skipn (S n) s = l.
Proof.
  revert s. induction n as [|n IH]; intros s H.
  - simpl in H. subst s. reflexivity.
  - destruct s as [|x s]; [discriminate|]. simpl in H. apply IH in H. exact H.
Qed.

Lemma rd_bounds s i c : rd s i = Some c -> 0 <= i <= Z.of_nat (List.length s).
Proof.
  unfold rd. destruct (Z.ltb_spec i 0); [discriminate|].
  destruct (Z.ltb_spec i (Z.of_nat (List.length s))); [lia|].
  destruct (Z.eqb_spec i (Z.of_nat (List.length s))); [lia|discriminate].
Qed.

Lemma rd_nonzero_inside s i c :
  rd s i = Some c -> c <> 0 -> i < Z.of_nat (List.length s).
Proof.
  unfold rd. destruct (Z.ltb_spec i 0); [discriminate|].
  destruct (Z.ltb_spec i (Z.of_nat (List.length s))); [lia|].
  destruct (Z.eqb_spec i (Z.of_nat (List.length s))); [|discriminate].
  intros [= <-]. congruence.
Qed.

Lemma rd_next_defined s i c :
  rd s i = Some c -> c <> 0 -> exists c', rd s (i + 1) = Some c'.
Proof.
  intros H Hc. pose proof (rd_bounds _ _ _ H). pose proof (rd_nonzero_inside _ _ _ H Hc).
  unfold rd. destruct (Z.ltb_spec (i + 1) 0); [lia|].
  destruct (Z.ltb_spec (i + 1) (Z.of_nat (List.length s))).
  - destruct (nth_error s (Z.to_nat (i + 1))) eqn:E; [eauto|].
    apply nth_error_None in E. lia.
  - destruct (Z.eqb_spec (i + 1) (Z.of_nat (List.length s))); [eauto|lia].
Qed.

Lemma digits_run_app ds : forall rest acc n,
  Forall (fun d => is_digit d = true) ds -> stops_run rest ->
  digits_run (ds ++ rest) acc n
  = (fold_left (fun a d => 10 * a + (d - Ch.zero)) ds acc, n + Z.of_nat (List.length ds)).
Proof.
  induction ds as [|d ds IH]; intros rest acc n Hd Hr.
  - simpl. rewrite Z.add_0_r. destruct rest as [|c rest]; [reflexivity|].
    cbn [digits_run]. unfold stops_run, is_digit in Hr. now rewrite Hr.
  - inversion Hd as [|? ? Hd1 Hd2]; subst. cbn [app digits_run].
    unfold is_digit in Hd1. rewrite Hd1, IH by assumption.
    cbn [fold_left List.length]. f_equal. lia.
Qed.

Lemma fold_digits_nonneg ds : forall acc,
  Forall (fun d => is_digit d = true) ds -> 0 <= acc ->
  0 <= fold_left (fun a d => 10 * a + (d - Ch.zero)) ds acc.
Proof.
  induction ds as [|d ds IH]; intros acc Hd Ha; [exact Ha|].
  inversion Hd as [|? ? Hd1 Hd2]; subst. cbn [fold_left]. apply IH; [assumption|].
  unfold is_digit in Hd1. apply andb_true_iff in Hd1. destruct Hd1 as [H1 _].
  apply Z.leb_le in H1. lia.
Qed.

Lemma to_int_small v : 0 <= v <= INT_MAX -> to_int (Z.min v LONG_MAX) = v.
Proof.
  unfold INT_MAX, LONG_MAX, to_int. intros H.
  rewrite Z.min_l by lia. rewrite Z.mod_small by lia. lia.
Qed.

Lemma suffix_of_run s j ds :
  has_suffix s j ds -> decimal ds <= INT_MAX ->
  Gen.suffix s j = Some (Some (decimal ds, j + 2 + Z.of_nat (List.length ds))).
Proof.
  intros (Hj & Hlead & Hd & rest & Hs & Hr) Hmax. unfold Gen.suffix.
  rewrite (rd_skipn s (j + 1) Ch.star (ds ++ rest)) by (lia || assumption).
  rewrite Z.eqb_refl.
  destruct ds as [|d ds]; [contradiction|]. cbn [leading] in Hlead.
  assert (Hs2 : skipn (Z.to_nat (j + 2)) s = (d :: ds) ++ rest).
  { replace (Z.to_nat (j + 2)) with (S (Z.to_nat (j + 1))) by lia.
    eapply skipn_next; exact Hs. }
  rewrite (rd_skipn s (j + 2) d (ds ++ rest)) by (lia || exact Hs2).
  destruct (Z.gtb_spec d Ch.zero); [|lia].
  destruct (Z.leb_spec d Ch.nine); [|lia]. cbn [andb].
  unfold strtol. rewrite Hs2, digits_run_app by assumption.
  fold (decimal (d :: ds)). rewrite to_int_small.
  - do 3 f_equal.
  - split; [|assumption]. apply fold_digits_nonneg; [assumption|lia].
Qed.

Lemma suffix_none s j n1 :
  rd s (j + 1) = Some n1 ->
  (n1 <> Ch.star \/
   exists n2, rd s (j + 2) = Some n2 /\ ~ (Ch.zero < n2 <= Ch.nine)) ->
  Gen.suffix s j = Some None.
Proof.
  intros H1 H. unfold Gen.suffix. rewrite H1.
  destruct (Z.eqb_spec n1 Ch.star) as [->|]; [|reflexivity].
  destruct H as [H|(n2 & -> & H)]; [congruence|].
  destruct (Z.gtb_spec n2 Ch.zero); [|reflexivity].
  destruct (Z.leb_spec n2 Ch.nine); [lia|reflexivity].
Qed.

(** ** Fuel *)

Lemma gen_loop_mono sample fuel : forall s o i t tm ex w r,
  Gen.gen_loop sample fuel s o i t tm ex w = Some r ->
  forall fuel', (fuel <= fuel')%nat ->
  Gen.gen_loop sample fuel' s o i t tm ex w = Some r.
Proof.
  induction fuel as [|fuel IH]; intros s o i t tm ex w r H fuel' Hle;
    [discriminate|].
  destruct fuel' as [|fuel']; [lia|].
  assert (Hle' : (fuel <= fuel')%nat) by lia.
  cbn [Gen.gen_loop] in *.
  destruct (rd s i) as [c|]; [|discriminate].
  destruct (c =? 0); [exact H|].
  destruct (c =? Ch.lparen).
  { destruct (Gen.gen_loop sample fuel s (i + 1) (i + 1) 0 0 0 w) as [[r1 w1]|] eqn:E;
      [|discriminate].
    rewrite (IH _ _ _ _ _ _ _ _ E fuel' Hle'). eapply IH; eauto. }
  destruct (c =? Ch.rparen).
  { destruct (tm =? 0).
    - destruct (Gen.suffix s i) as [[[n e]|]|]; try discriminate; try exact H.
      destruct (t + 1 <? n); [eapply IH; eauto | exact H].
    - destruct (t + 1 <? tm); [eapply IH; eauto | exact H]. }
  destruct (c =? Ch.lbrack).
  { destruct (Gen.randchar sample s (i + 1) w) as [[r1 w1]|]; [|discriminate].
    eapply IH; eauto. }
  destruct (c =? Ch.backslash).
  { destruct (rd s (i + 1)); [|discriminate]. eapply IH; eauto. }
  eapply IH; eauto.
Qed.

Lemma generate_mono sample fuel fuel' s i w r :
  Gen.generate sample fuel s i w = Some r -> (fuel <= fuel')%nat ->
  Gen.generate sample fuel' s i w = Some r.
Proof. unfold Gen.generate. intros H Hle. eapply gen_loop_mono; eauto. Qed.

(** ** Room in the array

    A set of distinct printable characters has at most 94 members, so the
    256 cells of [chars] are never used up on a validated class. *)

Lemma printable_bound chars :
  NoDup chars -> Forall is_printable chars -> (List.length chars <= 94)%nat.
Proof.
  intros ND Hp.
  replace 94%nat with (List.length (map Z.of_nat (seq 33 94)))
    by (rewrite length_map, length_seq; reflexivity).
  apply NoDup_incl_length; [exact ND|].
  intros c Hc. rewrite Forall_forall in Hp. specialize (Hp c Hc).
  unfold is_printable, Ch.bang, Ch.tilde in Hp.
  apply in_map_iff. exists (Z.to_nat c). split; [lia|]. apply in_seq. lia.
Qed.

Lemma add_char_printable c chars :
  NoDup chars -> Forall is_printable chars -> is_printable c ->
  exists chars', add_char c chars = Some chars' /\
    NoDup chars' /\ Forall is_printable chars'.
Proof.
  intros ND Hp Hc. pose proof (printable_bound chars ND Hp) as Hb.
  destruct (add_char_ok c chars ltac:(lia)) as (chars' & E).
  exists chars'. split; [exact E|]. split; [eapply add_char_NoDup; eauto|].
  destruct (add_char_cases _ _ _ E) as [[-> _]|[-> _]]; [assumption|].
  apply Forall_app. auto.
Qed.

Lemma fill_printable n : forall c chars,
  NoDup chars -> Forall is_printable chars ->
  Ch.bang <= c -> c + Z.of_nat n - 1 <= Ch.tilde ->
  exists chars', fill n c chars = Some chars' /\
    NoDup chars' /\ Forall is_printable chars'.
Proof.
  induction n as [|n IH]; intros c chars ND Hp Hlo Hhi; cbn [fill].
  - eauto.
  - destruct (add_char_printable c chars ND Hp) as (l & -> & ND' & Hp').
    { unfold is_printable. lia. }
    apply IH; try assumption; lia.
Qed.

(** ** Running the generator on a given pattern *)

(** Evaluates a run of the generator while the draws stay symbolic. *)
Ltac run_gen :=
  repeat match goal with
         | |- context [pick (?r ?k) ?l] =>
           change (pick (r k) l) with (sampler r k l)
         end;
  match goal with
  | |- context [sampler ?r] => generalize (sampler r); intro
  end;
  vm_compute; reflexivity.

Lemma pick_single r c : pick r [c] = c.
Proof. unfold pick. cbn [List.length Z.of_nat Pos.of_succ_nat]. now rewrite Z.rem_1_r. Qed.

(** C1 (the code departs from the claim).  The claim: check rejects every
    pattern with an empty class, so a class that reaches randchar is never
    empty.  The code: the test for the empty class only looks when the
    closing bracket is at offset 2 or more, so the pattern "[]" is accepted
    (while "a[]" is rejected); its class expands to the empty set, the draw
    of randchar divides by zero and generate does not complete, whatever
    the fuel. *)
Theorem C1_empty_class_at_start_accepted :
  V2.check (chars_of "[]") = Some true /\
  V2.check (chars_of "a[]") = Some false /\
  Gen.expand 3 (chars_of "[]") 1 [] = Some (1, []) /\
  (forall rand w, Gen.draw (sampler rand) [] w = None) /\
  (forall rand w, Gen.randchar (sampler rand) (chars_of "[]") 1 w = None) /\
  forall rand fuel w, Gen.generate (sampler rand) fuel (chars_of "[]") 0 w = None.
Proof.
  repeat split; try reflexivity.
  intros rand fuel w. destruct fuel as [|fuel]; reflexivity.
Qed.

(** C3 (the code departs from the claim).  The claim: a dash outside a class
    imposes no constraint, "a-b" and "b-a" are both accepted.  The check of
    src/pwdgen.c steps over a dash outside a class without looking at its
    neighbours and accepts both.  The check of src/unnamed/part_000 compares
    the neighbours of every dash, in a class or not: it accepts "a-b" and
    rejects "b-a". *)
Theorem C3_dash_outside_class :
  (forall before rest level,
      V1.check_loop before (Ch.dash :: rest) 0 level
      = V1.check_loop (Ch.dash :: before) rest 0 level) /\
  V1.check (chars_of "a-b") = Some true /\
  V1.check (chars_of "b-a") = Some true /\
  V2.check (chars_of "a-b") = Some true /\
  V2.check (chars_of "b-a") = Some false.
Proof. repeat split; reflexivity. Qed.

(** C8.  The scan of a class body never enters a character twice: whatever
    the buffer and the start, the set that [expand] returns from the empty
    set has no duplicates.  The classes [aab] and [ab] expand to the same
    set, the two characters a and b; every draw from either is one of the
    two, and each of the two is drawn for some value of the random source. *)
Theorem C8_class_expansion_deduplicates :
  (forall fuel s ipt j chars,
      Gen.expand fuel s ipt [] = Some (j, chars) -> NoDup chars) /\
  Gen.expand (S (List.length (chars_of "[aab]"))) (chars_of "[aab]") 1 []
    = Some (4, chars_of "ab") /\
  Gen.expand (S (List.length (chars_of "[ab]"))) (chars_of "[ab]") 1 []
    = Some (3, chars_of "ab") /\
  (forall rand k, exists c, In c (chars_of "ab") /\
      Gen.generate (sampler rand) (2 + k) (chars_of "[aab]") 0 w0 = Some (5, mkWorld [c] 1) /\
      Gen.generate (sampler rand) (2 + k) (chars_of "[ab]") 0 w0 = Some (4, mkWorld [c] 1)) /\
  (forall c, In c (chars_of "ab") -> exists rand, forall k,
      Gen.generate (sampler rand) (2 + k) (chars_of "[aab]") 0 w0 = Some (5, mkWorld [c] 1) /\
      Gen.generate (sampler rand) (2 + k) (chars_of "[ab]") 0 w0 = Some (4, mkWorld [c] 1)).
Proof.
  split; [|split; [reflexivity|split; [reflexivity|split]]].
  - intros fuel s ipt j chars H. eapply expand_NoDup; [exact H | constructor].
  - intros rand k. exists (pick (rand 0%nat) (chars_of "ab")).
    split; [apply pick_In; discriminate|].
    split; (apply generate_mono with (fuel := 2%nat); [run_gen|lia]).
  - intros c [<-|[<-|[]]].
    + exists (fun _ => 0%N). intros k.
      split; (apply generate_mono with (fuel := 2%nat); [reflexivity|lia]).
    + exists (fun _ => 1%N). intros k.
      split; (apply generate_mono with (fuel := 2%nat); [reflexivity|lia]).
Qed.

Lemma C8_class_expansion_deduplicates_witness :
  Gen.expand 6 (chars_of "[abca]") 1 [] = Some (5, chars_of "abc") /\
  NoDup (chars_of "abc").
Proof.
  split; [reflexivity|].
  apply (proj1 C8_class_expansion_deduplicates 6%nat (chars_of "[abca]") 1 5).
  reflexivity.
Defined.

(** ** Ranges *)

Lemma range_step fuel s i chars A B k :
  rd s (i - 1) = Some A -> rd s i = Some Ch.dash -> operand s (i + 1) B k ->
  In A chars -> NoDup chars -> Forall is_printable chars ->
  is_printable B -> A <= B ->
  exists chars',
    Gen.expand (2 + fuel) s i chars = Gen.expand fuel s (i + 1 + k) chars' /\
    NoDup chars' /\ Forall is_printable chars' /\
    forall c, In c chars' <-> In c chars \/ A <= c <= B.
Proof.
  intros HA Hd Hop HinA ND Hp HpB HAB.
  assert (HpA : is_printable A) by (rewrite Forall_forall in Hp; auto).
  unfold is_printable, Ch.bang, Ch.tilde in HpA, HpB.
  destruct (fill_printable (Z.to_nat (B - (A + 1))) (A + 1) chars ND Hp)
    as (chars1 & Hfill & ND1 & Hp1); [unfold Ch.bang; lia | unfold Ch.tilde; lia |].
  destruct (add_char_printable B chars1 ND1 Hp1) as (chars' & Hadd & ND' & Hp');
    [unfold is_printable, Ch.bang, Ch.tilde; lia|].
  exists chars'. split; [|split; [assumption|split; [assumption|]]].
  - change (2 + fuel)%nat with (S (S fuel)). cbn [Gen.expand].
    rewrite Hd. cbv beta iota.
    change (Ch.dash =? Ch.rbrack) with false. change (Ch.dash =? Ch.dash) with true.
    cbv beta iota.
    destruct Hop as [(HB & H1 & H2 & H3 & ->)|(HB & HB2 & ->)].
    + rewrite HB. cbv beta iota.
      destruct (Z.eqb_spec B Ch.backslash); [contradiction|].
      rewrite HA. cbv beta iota. rewrite Hfill. cbv beta iota.
      rewrite ?HB. cbv beta iota.
      destruct (Z.eqb_spec B Ch.rbrack); [contradiction|].
      destruct (Z.eqb_spec B Ch.dash); [contradiction|].
      rewrite ?HB. cbv beta iota. rewrite Hadd. reflexivity.
    + rewrite HB. cbv beta iota.
      change (Ch.backslash =? Ch.backslash) with true. cbv beta iota.
      replace (i + 2) with (i + 1 + 1) by lia. rewrite HB2. cbv beta iota.
      rewrite HA. cbv beta iota. rewrite Hfill. cbv beta iota.
      rewrite ?HB. cbv beta iota.
      change (Ch.backslash =? Ch.rbrack) with false.
      change (Ch.backslash =? Ch.dash) with false.
      change (Ch.backslash =? Ch.backslash) with true. cbv beta iota.
      rewrite ?HB2. cbv beta iota. rewrite Hadd.
      replace (i + 1 + 2) with (i + 1 + 1 + 1) by lia. reflexivity.
  - intros c. rewrite (add_char_In _ _ _ c Hadd).
    rewrite (fill_In _ (A + 1) _ _ c ltac:(lia) Hfill). split.
    + intros [[?|?]|[-> _]]; auto; right; lia.
    + intros [?|?]; [auto|].
      destruct (Z.eq_dec c A) as [->|]; [auto|].
      destruct (Z.eq_dec c B) as [->|]; [right; split; [reflexivity|lia]|].
      left. right. lia.
Qed.

Lemma add_char_first c : c <> 0 -> add_char c [] = Some [c].
Proof.
  intros H. unfold add_char, strfind. cbn [List.length Nat.leb strfind_loop app].
  destruct (Z.eqb_spec 0 c); [congruence|reflexivity].
Qed.

(** The class that holds the one range [A-B]. *)
Lemma single_range_class fuel s o A B :
  rd s o = Some A -> rd s (o + 1) = Some Ch.dash ->
  rd s (o + 2) = Some B -> rd s (o + 3) = Some Ch.rbrack ->
  A <> Ch.rbrack -> A <> Ch.dash -> A <> Ch.backslash ->
  B <> Ch.rbrack -> B <> Ch.dash -> B <> Ch.backslash ->
  is_printable A -> is_printable B -> A <= B ->
  exists chars,
    Gen.expand (4 + fuel) s o [] = Some (o + 3, chars) /\
    NoDup chars /\ forall c, In c chars <-> A <= c <= B.
Proof.
  intros HA Hd HB Hr A1 A2 A3 B1 B2 B3 HpA HpB HAB.
  destruct (range_step (S fuel) s (o + 1) [A] A B 1) as (chars & Hstep & ND & _ & Hin).
  - replace (o + 1 - 1) with o by lia. exact HA.
  - exact Hd.
  - left. replace (o + 1 + 1) with (o + 2) by lia. auto.
  - simpl; auto.
  - constructor; [simpl; tauto | constructor].
  - constructor; [assumption | constructor].
  - exact HpB.
  - exact HAB.
  - exists chars. split; [|split; [exact ND|]].
    + change (4 + fuel)%nat with (S (2 + S fuel)). cbn [Gen.expand].
      rewrite HA. cbv beta iota.
      destruct (Z.eqb_spec A Ch.rbrack); [contradiction|].
      destruct (Z.eqb_spec A Ch.dash); [contradiction|].
      destruct (Z.eqb_spec A Ch.backslash); [contradiction|].
      rewrite HA. cbv beta iota. rewrite add_char_first.
      2:{ unfold is_printable, Ch.bang in HpA. lia. }
      rewrite Hstep. cbn [Gen.expand].
      replace (o + 1 + 1 + 1) with (o + 3) by lia. rewrite Hr. reflexivity.
    + intros c. rewrite Hin. simpl. split; [|auto].
      intros [[<-|[]]|?]; lia.
Qed.

(** Where the end of a range is not a plain dash, the range takes both
    endpoints and nothing else.  In the scan of a class, at the dash of a
    range item whose start [A] the step before has entered and whose end [B]
    is written plainly (and is no dash) or after a backslash, the two steps
    that read the dash and [B] add to the set exactly the characters with
    codes from [A] to [B]; and the class that holds the one range [A-B]
    expands to exactly these characters.  ([A] and [B] printable with
    [A <= B], as check requires of a range, and the set so far distinct and
    printable, as the scan keeps it.) *)
Theorem range_adds_exactly_its_interval :
  (forall fuel s i chars A B k,
      rd s (i - 1) = Some A -> rd s i = Some Ch.dash -> operand s (i + 1) B k ->
      In A chars -> NoDup chars -> Forall is_printable chars ->
      is_printable B -> A <= B ->
      exists chars',
        Gen.expand (2 + fuel) s i chars = Gen.expand fuel s (i + 1 + k) chars' /\
        forall c, In c chars' <-> In c chars \/ A <= c <= B) /\
  (forall fuel s o A B,
      rd s o = Some A -> rd s (o + 1) = Some Ch.dash ->
      rd s (o + 2) = Some B -> rd s (o + 3) = Some Ch.rbrack ->
      A <> Ch.rbrack -> A <> Ch.dash -> A <> Ch.backslash ->
      B <> Ch.rbrack -> B <> Ch.dash -> B <> Ch.backslash ->
      is_printable A -> is_printable B -> A <= B ->
      exists chars,
        Gen.expand (4 + fuel) s o [] = Some (o + 3, chars) /\
        NoDup chars /\ forall c, In c chars <-> A <= c <= B).
Proof.
  split.
  - intros fuel s i chars A B k HA Hd Hop HinA ND Hp HpB HAB.
    destruct (range_step fuel s i chars A B k HA Hd Hop HinA ND Hp HpB HAB)
      as (chars' & E & _ & _ & Hin).
    exists chars'. auto.
  - intros. now apply single_range_class.
Qed.

Lemma range_adds_exactly_its_interval_witness :
  (exists chars',
      Gen.expand (2 + 1) (chars_of "[c-f]") 2 [99]
      = Gen.expand 1 (chars_of "[c-f]") (2 + 1 + 1) chars' /\
      forall c, In c chars' <-> In c [99] \/ 99 <= c <= 102) /\
  (exists chars,
      Gen.expand (4 + 0) (chars_of "[c-f]") 1 [] = Some (1 + 3, chars) /\
      NoDup chars /\ forall c, In c chars <-> 99 <= c <= 102).
Proof.
  split.
  - apply (proj1 range_adds_exactly_its_interval 1%nat (chars_of "[c-f]") 2 [99] 99 102 1).
    + reflexivity.
    + reflexivity.
    + left. repeat split; try reflexivity; unfold Ch.rbrack, Ch.dash, Ch.backslash; lia.
    + simpl. auto.
    + constructor; [simpl; tauto | constructor].
    + constructor; [unfold is_printable, Ch.bang, Ch.tilde; lia | constructor].
    + unfold is_printable, Ch.bang, Ch.tilde; lia.
    + lia.
  - apply (proj2 range_adds_exactly_its_interval 0%nat (chars_of "[c-f]") 1 99 102);
      try reflexivity;
      unfold is_printable, Ch.bang, Ch.tilde, Ch.rbrack, Ch.dash, Ch.backslash; lia.
Defined.

(** C5.  Range expansion is not inclusive of both endpoints for every range
    that check accepts.  randchar of src/unnamed/part_000 fills a range up
    to the character before its end and leaves the end to the next step of
    the scan, which enters it as a single character; when the end is a
    plain dash that next step reads it as the dash of another range.  check
    accepts the pattern [+--0], whose range runs from + (43) to - (45); the
    scan of its class gives the five characters + , . / 0 and not the
    dash, so no password generated from the pattern is a dash; randchar of
    src/pwdgen.c, which fills a range up to its end, gives + , - 0 there.
    With the dash of the end escaped, [+-\-], the set is + , - as the
    claim says.  check also accepts the pattern [-a], where the dash
    follows the opening bracket at the start of the pattern: the scan
    fills from the code after the bracket and the set, \ ] ^ _ ` a, lacks
    the start of the range.  The class [0-3] expands to the four characters
    0, 1, 2, 3 as the claim says: every draw is one of them, and each is
    drawn for some value of the random source. *)
Theorem C5_range_end_dash_left_out :
  V2.check (chars_of "[+--0]") = Some true /\
  Gen.expand (S (List.length (chars_of "[+--0]"))) (chars_of "[+--0]") 1 []
    = Some (5, chars_of "+,./0") /\
  ~ In Ch.dash (chars_of "+,./0") /\
  (forall rand k, exists c, c <> Ch.dash /\
      Gen.generate (sampler rand) (2 + k) (chars_of "[+--0]") 0 w0
      = Some (6, mkWorld [c] 1)) /\
  Gen1.expand (S (List.length (chars_of "[+--0]"))) (chars_of "[+--0]") 1 []
    = Some (5, chars_of "+,-0") /\
  (V2.check (chars_of "[+-\-]") = Some true /\
   Gen.expand (S (List.length (chars_of "[+-\-]"))) (chars_of "[+-\-]") 1 []
     = Some (5, chars_of "+,-")) /\
  (V2.check (chars_of "[-a]") = Some true /\
   Gen.expand (S (List.length (chars_of "[-a]"))) (chars_of "[-a]") 1 []
     = Some (3, chars_of "\]^_`a") /\
   ~ In Ch.lbrack (chars_of "\]^_`a")) /\
  Gen.expand (S (List.length (chars_of "[0-3]"))) (chars_of "[0-3]") 1 []
    = Some (4, chars_of "0123") /\
  (forall rand k, exists c, In c (chars_of "0123") /\
      Gen.generate (sampler rand) (2 + k) (chars_of "[0-3]") 0 w0 = Some (5, mkWorld [c] 1)) /\
  (forall c, In c (chars_of "0123") -> exists rand, forall k,
      Gen.generate (sampler rand) (2 + k) (chars_of "[0-3]") 0 w0 = Some (5, mkWorld [c] 1)).
Proof.
  split; [reflexivity|]. split; [reflexivity|].
  split; [cbv; intuition discriminate|].
  split.
  { intros rand k. exists (pick (rand 0%nat) (chars_of "+,./0")). split.
    - assert (Hin : In (pick (rand 0%nat) (chars_of "+,./0")) (chars_of "+,./0"))
        by (apply pick_In; discriminate).
      intros E. rewrite E in Hin. revert Hin. cbv. intuition discriminate.
    - apply generate_mono with (fuel := 2%nat); [run_gen|lia]. }
  split; [reflexivity|].
  split; [split; reflexivity|].
  split; [split; [reflexivity|split; [reflexivity|cbv; intuition discriminate]]|].
  split; [reflexivity|]. split.
  - intros rand k. exists (pick (rand 0%nat) (chars_of "0123")).
    split; [apply pick_In; discriminate|].
    apply generate_mono with (fuel := 2%nat); [run_gen|lia].
  - intros c [<-|[<-|[<-|[<-|[]]]]].
    + exists (fun _ => 0%N). intros k.
      apply generate_mono with (fuel := 2%nat); [reflexivity|lia].
    + exists (fun _ => 1%N). intros k.
      apply generate_mono with (fuel := 2%nat); [reflexivity|lia].
    + exists (fun _ => 2%N). intros k.
      apply generate_mono with (fuel := 2%nat); [reflexivity|lia].
    + exists (fun _ => 3%N). intros k.
      apply generate_mono with (fuel := 2%nat); [reflexivity|lia].
Qed.

Lemma C5_range_end_dash_left_out_witness :
  In 50 (chars_of "0123") /\
  exists rand, forall k,
    Gen.generate (sampler rand) (2 + k) (chars_of "[0-3]") 0 w0
    = Some (5, mkWorld [50] 1).
Proof.
  assert (Hin : In 50 (chars_of "0123")) by (cbn; tauto).
  split; [exact Hin|].
  destruct C5_range_end_dash_left_out as (_ & _ & _ & _ & _ & _ & _ & _ & _ & H).
  exact (H 50 Hin).
Defined.

(** ** The count of a class *)

Lemma expand_stops fuel : forall s i chars j chars',
  Gen.expand fuel s i chars = Some (j, chars') -> rd s j = Some Ch.rbrack.
Proof.
  induction fuel as [|fuel IH]; intros s i chars j chars' H;
    cbn [Gen.expand] in H; [discriminate|].
  bind_inv H. destruct (Z.eqb_spec z Ch.rbrack) as [->|_].
  - injection H as <- _. exact E.
  - destruct (z =? Ch.dash).
    + do 4 bind_inv H. eapply IH; exact H.
    + do 2 bind_inv H. eapply IH; exact H.
Qed.

Lemma randchar_with_suffix rand s o j chars w ds :
  Gen.expand (S (List.length s)) s o [] = Some (j, chars) -> chars <> [] ->
  has_suffix s j ds -> decimal ds <= INT_MAX ->
  exists picks,
    Gen.randchar (sampler rand) s o w
    = Some (j + 2 + Z.of_nat (List.length ds) - o - 1,
            mkWorld (out w ++ picks) (draws w + Z.to_nat (decimal ds))) /\
    Z.of_nat (List.length picks) = decimal ds /\
    Forall (fun c => In c chars) picks.
Proof.
  intros Hex Hne Hsfx Hmax.
  assert (Hpos : 0 <= decimal ds).
  { destruct Hsfx as (_ & _ & Hd & _). apply fold_digits_nonneg; [assumption|lia]. }
  destruct (emit_spec rand chars (Z.to_nat (decimal ds)) w Hne) as (picks & Hem & Hl & Hf).
  exists picks. split; [|split; [lia | assumption]].
  unfold Gen.randchar. rewrite Hex. cbv beta iota.
  rewrite (suffix_of_run s j ds Hsfx Hmax). cbv beta iota.
  destruct (Z.ltb_spec (decimal ds) 0); [lia|]. now rewrite Hem.
Qed.

Lemma randchar_without_suffix rand s o j chars w :
  Gen.expand (S (List.length s)) s o [] = Some (j, chars) -> chars <> [] ->
  ~ (rd s (j + 1) = Some Ch.star /\
     exists d, rd s (j + 2) = Some d /\ Ch.zero < d <= Ch.nine) ->
  exists c, In c chars /\
    Gen.randchar (sampler rand) s o w
    = Some (j + 1 - o - 1, mkWorld (out w ++ [c]) (S (draws w))).
Proof.
  intros Hex Hne Hno.
  pose proof (expand_stops _ _ _ _ _ _ Hex) as Hj.
  destruct (rd_next_defined s j _ Hj ltac:(discriminate)) as (n1 & Hn1).
  assert (Hs : Gen.suffix s j = Some None).
  { apply suffix_none with (n1 := n1); [exact Hn1|].
    destruct (Z.eq_dec n1 Ch.star) as [->|Hne1]; [|left; exact Hne1].
    right. destruct (rd_next_defined s (j + 1) _ Hn1 ltac:(discriminate)) as (n2 & Hn2).
    replace (j + 1 + 1) with (j + 2) in Hn2 by lia.
    exists n2. split; [exact Hn2|]. intros Hd. apply Hno. eauto. }
  destruct (draw_spec rand chars w Hne) as (c & Hc & Hdraw).
  exists c. split; [exact Hc|].
  unfold Gen.randchar. rewrite Hex. cbv beta iota. rewrite Hs. cbv beta iota.
  change (1 <? 0) with false. change (Z.to_nat 1) with 1%nat.
  cbn [Gen.emit]. now rewrite Hdraw.
Qed.

(** ** From check to the scan of a class

    At offset [length before] of the buffer [rev before ++ rest] the pair
    [(before, rest)] of check and the offset of the generator are the same
    pointer. *)

Lemma rd_zip_ahead before rest k :
  (k <= List.length rest)%nat ->
  rd (rev before ++ rest) (Z.of_nat (List.length before) + Z.of_nat k)
  = Some (ahead k rest).
Proof.
  intros Hk. unfold rd, ahead. rewrite length_app, length_rev.
  destruct (Z.ltb_spec (Z.of_nat (List.length before) + Z.of_nat k) 0); [lia|].
  destruct (Z.ltb_spec (Z.of_nat (List.length before) + Z.of_nat k)
              (Z.of_nat (List.length before + List.length rest))).
  - replace (Z.to_nat (Z.of_nat (List.length before) + Z.of_nat k))
      with (List.length (rev before) + k)%nat by (rewrite length_rev; lia).
    rewrite nth_error_app2 by lia.
    replace (List.length (rev before) + k - List.length (rev before))%nat with k by lia.
    apply nth_error_nth'. lia.
  - destruct (Z.eqb_spec (Z.of_nat (List.length before) + Z.of_nat k)
                (Z.of_nat (List.length before + List.length rest))); [|lia].
    rewrite nth_overflow by lia. reflexivity.
Qed.

Lemma rd_zip_here before c rest :
  rd (rev before ++ c :: rest) (Z.of_nat (List.length before)) = Some c.
Proof.
  replace (Z.of_nat (List.length before))
    with (Z.of_nat (List.length before) + Z.of_nat 0) by lia.
  rewrite rd_zip_ahead by (simpl; lia). reflexivity.
Qed.

Lemma rd_zip_behind p t rest :
  rd (rev (p :: t) ++ rest) (Z.of_nat (List.length (p :: t)) - 1) = Some p.
Proof.
  cbn [rev]. rewrite <- app_assoc. cbn [app].
  replace (Z.of_nat (List.length (p :: t)) - 1) with (Z.of_nat (List.length t))
    by (cbn [List.length]; lia).
  apply rd_zip_here.
Qed.

Lemma ahead_In k rest : ahead k rest <> 0 -> In (ahead k rest) rest.
Proof.
  unfold ahead. intros H. destruct (Nat.lt_ge_cases k (List.length rest)).
  - now apply nth_In.
  - rewrite nth_overflow in H by lia. congruence.
Qed.

Lemma ahead_inside k rest : ahead k rest <> 0 -> (k < List.length rest)%nat.
Proof.
  unfold ahead. intros H. destruct (Nat.lt_ge_cases k (List.length rest)); [assumption|].
  rewrite nth_overflow in H by lia. congruence.
Qed.

Lemma printable_test c :
  (c <? Ch.bang) || (c >? Ch.tilde) = false -> is_printable c.
Proof.
  intros H. apply orb_false_iff in H. destruct H as [H1 H2].
  apply Z.ltb_ge in H1. unfold is_printable.
  destruct (Z.gtb_spec c Ch.tilde); [discriminate|]. lia.
Qed.

(** A pattern that check accepts holds printable bytes only. *)
Lemma check_printable n : forall rest, (List.length rest <= n)%nat ->
  forall before in_ level,
  V2.check_loop before rest in_ level = Some true -> Forall is_printable rest.
Proof.
  induction n as [|n IH]; intros rest Hn before in_ level H.
  - destruct rest; [constructor | simpl in Hn; lia].
  - destruct rest as [|c rest]; [constructor|]. cbn [List.length] in Hn.
    cbn [V2.check_loop] in H.
    destruct ((c <? Ch.bang) || (c >? Ch.tilde)) eqn:Hc; [discriminate|].
    apply printable_test in Hc.
    assert (Hnext : forall b i l, V2.check_loop b rest i l = Some true ->
                                  Forall is_printable (c :: rest)).
    { intros b i l Hb. constructor; [assumption|]. apply (IH rest ltac:(lia) b i l Hb). }
    destruct (c =? Ch.lbrack).
    { destruct (negb (in_ =? 0)); [discriminate | eauto]. }
    destruct (c =? Ch.rbrack).
    { destruct (in_ =? 0); [discriminate|].
      destruct (V2.opens_here before) as [[|]|]; try discriminate. eauto. }
    destruct (c =? Ch.lparen).
    { destruct (negb (in_ =? 0)); [discriminate | eauto]. }
    destruct (c =? Ch.rparen).
    { destruct (negb (in_ =? 0) || (level <=? 0)); [discriminate | eauto]. }
    destruct (c =? Ch.dash).
    { match type of H with
      | match ?f with _ => _ end = _ => destruct f as [[|]|]; try discriminate
      end.
      destruct (behind 0 before); [|discriminate].
      match type of H with
      | (if ?b then _ else _) = _ => destruct b; [discriminate|]
      end. eauto. }
    destruct (c =? Ch.backslash); [|eauto].
    destruct rest as [|d rest]; [discriminate|].
    destruct ((d <? Ch.bang) || (d >? Ch.tilde)) eqn:Hd; [discriminate|].
    apply printable_test in Hd. cbn [List.length] in Hn.
    constructor; [assumption|]. constructor; [assumption|].
    eapply (IH rest ltac:(lia)); exact H.
Qed.

Lemma add_char_incl c chars chars' :
  add_char c chars = Some chars' -> incl chars chars'.
Proof. intros H x Hx. apply (add_char_In _ _ _ x H). auto. Qed.

Lemma fill_incl n : forall c chars chars',
  fill n c chars = Some chars' -> incl chars chars'.
Proof.
  induction n as [|n IH]; cbn [fill]; intros c chars chars' H.
  - injection H as <-. apply incl_refl.
  - bind_inv H. eapply incl_tran; [eapply add_char_incl; eauto | eapply IH; eauto].
Qed.

Lemma rev_cons_app (c : Z) before rest :
  rev (c :: before) ++ rest = rev before ++ c :: rest.
Proof. cbn [rev]. now rewrite <- app_assoc. Qed.

(** One iteration of the scan of a class. *)
Lemma expand_step fuel s ipt chars :
  Gen.expand (S fuel) s ipt chars
  = (c <- rd s ipt ;;
     if c =? Ch.rbrack then Some (ipt, chars)
     else if c =? Ch.dash then
       n1 <- rd s (ipt + 1) ;;
       end_ <- (if n1 =? Ch.backslash then rd s (ipt + 2) else Some n1) ;;
       p <- rd s (ipt - 1) ;;
       chars' <- fill (Z.to_nat (end_ - (p + 1))) (p + 1) chars ;;
       Gen.expand fuel s (ipt + 1) chars'
     else
       let ipt' := if c =? Ch.backslash then ipt + 1 else ipt in
       c' <- rd s ipt' ;;
       chars' <- add_char c' chars ;;
       Gen.expand fuel s (ipt' + 1) chars').
Proof. reflexivity. Qed.

(** Inside a class that check accepts, the scan of randchar reaches the
    closing bracket at which check leaves the class, with a set of distinct
    printable characters. *)
Lemma class_scan n : forall rest, (List.length rest <= n)%nat ->
  forall before level chars,
  V2.check_loop before rest 1 level = Some true ->
  Forall is_printable before ->
  NoDup chars -> Forall is_printable chars ->
  exists cb rest3 chars',
    rest = cb ++ Ch.rbrack :: rest3 /\
    V2.check_loop (Ch.rbrack :: rev cb ++ before) rest3 0 level = Some true /\
    Gen.expand (S n) (rev before ++ rest) (Z.of_nat (List.length before)) chars
    = Some (Z.of_nat (List.length before) + Z.of_nat (List.length cb), chars') /\
    NoDup chars' /\ Forall is_printable chars' /\ incl chars chars' /\
    (ahead 0 rest <> Ch.rbrack -> chars' <> []).
Proof.
  induction n as [|n IH]; intros rest Hn before level chars H Hb ND Hp.
  { destruct rest; [discriminate H | simpl in Hn; lia]. }
  destruct rest as [|c rest]; [discriminate H|]. cbn [List.length] in Hn.
  pose proof (check_printable _ _ (le_n _) _ _ _ H) as Hall.
  cbn [V2.check_loop] in H. rewrite expand_step. rewrite rd_zip_here. cbv beta match.
  destruct ((c <? Ch.bang) || (c >? Ch.tilde)) eqn:Hc; [discriminate|].
  apply printable_test in Hc.
  (* what the scan does with a character it enters and steps over *)
  assert (Henter : forall d bef' rest' lev,
    is_printable d ->
    V2.check_loop bef' rest' 1 lev = Some true ->
    (List.length rest' <= n)%nat -> Forall is_printable bef' ->
    rev bef' ++ rest' = rev before ++ c :: rest ->
    forall ipt, ipt = Z.of_nat (List.length bef') ->
    exists cb rest3 chars',
      rest' = cb ++ Ch.rbrack :: rest3 /\
      V2.check_loop (Ch.rbrack :: rev cb ++ bef') rest3 0 lev = Some true /\
      (chars1 <- add_char d chars ;;
       Gen.expand (S n) (rev before ++ c :: rest) ipt chars1)
      = Some (ipt + Z.of_nat (List.length cb), chars') /\
      NoDup chars' /\ Forall is_printable chars' /\ incl chars chars' /\
      chars' <> []).
  { intros d bef' rest' lev Hd Hck Hlen Hbef' Hs ipt ->.
    destruct (add_char_printable d chars ND Hp Hd) as (chars1 & Hadd & ND1 & Hp1).
    rewrite Hadd. rewrite <- Hs.
    destruct (IH rest' Hlen bef' lev chars1 Hck Hbef' ND1 Hp1)
      as (cb & rest3 & chars' & Hr & Hk & E & ND' & Hp' & Hincl & _).
    exists cb, rest3, chars'. split; [exact Hr|]. split; [exact Hk|].
    split; [exact E|]. split; [exact ND'|]. split; [exact Hp'|].
    split; [eapply incl_tran; [eapply add_char_incl; eauto | exact Hincl]|].
    assert (In d chars').
    { apply Hincl. apply (add_char_In _ _ _ d Hadd). right.
      unfold is_printable, Ch.bang in Hd. split; [reflexivity|lia]. }
    intros ->. contradiction. }
  destruct (Z.eqb_spec c Ch.lbrack) as [->|Hlb]; [discriminate|].
  destruct (Z.eqb_spec c Ch.rbrack) as [->|Hrb].
  { change (1 =? 0) with false in H. cbv beta match in H.
    destruct (V2.opens_here before) as [[|]|]; try discriminate.
    exists [], rest, chars. split; [reflexivity|]. split; [exact H|].
    split; [cbn [List.length]; now rewrite Z.add_0_r|].
    split; [assumption|]. split; [assumption|].
    split; [apply incl_refl|]. intros Hne. exfalso. apply Hne. reflexivity. }
  destruct (Z.eqb_spec c Ch.lparen) as [->|Hlp]; [discriminate|].
  destruct (Z.eqb_spec c Ch.rparen) as [->|Hrp]; [discriminate|].
  destruct (Z.eqb_spec c Ch.dash) as [->|Hda].
  - (* a range *)
    change (1 =? 0) with false in H. cbv beta match in H.
    destruct (V2.opens_here before) as [[|]|] eqn:Hop; try discriminate.
    destruct (Z.eqb_spec (ahead 1 (Ch.dash :: rest)) Ch.rbrack) as [|Hnr];
      [discriminate|].
    destruct (behind 0 before) as [p|] eqn:Hbeh; [|discriminate].
    destruct before as [|p' t]; [discriminate|]. injection Hbeh as ->.
    set (e := if ahead 1 (Ch.dash :: rest) =? Ch.backslash
              then ahead 2 (Ch.dash :: rest) else ahead 1 (Ch.dash :: rest)) in H.
    destruct (Z.ltb_spec e p) as [|Hpe]; [discriminate|].
    assert (Hpp : is_printable p) by (inversion Hb; assumption).
    assert (He : is_printable e).
    { rewrite Forall_forall in Hall. apply Hall. subst e.
      destruct (_ =? Ch.backslash); apply ahead_In;
        unfold is_printable, Ch.bang in Hpp; lia. }
    pose proof (rd_zip_ahead (p :: t) (Ch.dash :: rest) 1 ltac:(simpl; lia)) as R1.
    change (Z.of_nat 1) with 1 in R1. rewrite R1. cbv beta match.
    assert (R2 : (if ahead 1 (Ch.dash :: rest) =? Ch.backslash
                  then rd (rev (p :: t) ++ Ch.dash :: rest)
                          (Z.of_nat (List.length (p :: t)) + 2)
                  else Some (ahead 1 (Ch.dash :: rest))) = Some e).
    { subst e. destruct (Z.eqb_spec (ahead 1 (Ch.dash :: rest)) Ch.backslash) as [Hbs|];
        [|reflexivity].
      assert (1 < List.length (Ch.dash :: rest))%nat
        by (apply ahead_inside; rewrite Hbs; discriminate).
      apply (rd_zip_ahead (p :: t) (Ch.dash :: rest) 2). lia. }
    rewrite R2. cbv beta match. rewrite rd_zip_behind. cbv beta match.
    unfold is_printable, Ch.bang, Ch.tilde in Hpp, He.
    destruct (fill_printable (Z.to_nat (e - (p + 1))) (p + 1) chars ND Hp)
      as (chars1 & Hfill & ND1 & Hp1); [unfold Ch.bang; lia | unfold Ch.tilde; lia|].
    rewrite Hfill. cbv beta match.
    destruct (IH rest ltac:(lia) (Ch.dash :: p :: t) level chars1 H) as
        (cb & rest3 & chars' & Hr & Hk & E & ND' & Hp' & Hincl & Hne); try assumption.
    { constructor; [unfold is_printable, Ch.bang, Ch.tilde, Ch.dash; lia | assumption]. }
    exists (Ch.dash :: cb), rest3, chars'.
    split; [now rewrite Hr|].
    split; [now rewrite rev_cons_app|].
    split.
    { rewrite <- (rev_cons_app Ch.dash).
      replace (Z.of_nat (List.length (p :: t)) + 1)
        with (Z.of_nat (List.length (Ch.dash :: p :: t))) by (cbn [List.length]; lia).
      rewrite E. do 2 f_equal. cbn [List.length]. lia. }
    split; [assumption|]. split; [assumption|].
    split; [eapply incl_tran; [eapply fill_incl; eauto | exact Hincl]|].
    intros _. apply Hne. exact Hnr.
  - destruct (Z.eqb_spec c Ch.backslash) as [->|Hbs].
    + (* an escaped character *)
      destruct rest as [|d rest]; [discriminate|].
      destruct ((d <? Ch.bang) || (d >? Ch.tilde)) eqn:Hd; [discriminate|].
      apply printable_test in Hd. cbn [List.length] in Hn.
      pose proof (rd_zip_ahead before (Ch.backslash :: d :: rest) 1 ltac:(simpl; lia)) as R1.
      change (Z.of_nat 1) with 1 in R1. cbv beta match zeta. rewrite R1. cbv beta match.
      change (ahead 1 (Ch.backslash :: d :: rest)) with d.
      destruct (Henter d (d :: Ch.backslash :: before) rest level Hd H ltac:(lia))
        with (ipt := Z.of_nat (List.length before) + 1 + 1)
        as (cb & rest3 & chars' & Hr & Hk & E & ND' & Hp' & Hincl & Hne).
      * constructor; [assumption|]. constructor; [|assumption].
        unfold is_printable, Ch.bang, Ch.tilde, Ch.backslash; lia.
      * now rewrite !rev_cons_app.
      * cbn [List.length]. lia.
      * exists (Ch.backslash :: d :: cb), rest3, chars'.
        split; [now rewrite Hr|].
        split; [now rewrite !rev_cons_app|].
        split; [rewrite E; do 2 f_equal; cbn [List.length]; lia|]. auto.
    + (* any other character *)
      cbv beta match zeta. rewrite rd_zip_here. cbv beta match.
      destruct (Henter c (c :: before) rest level Hc H ltac:(lia))
        with (ipt := Z.of_nat (List.length before) + 1)
        as (cb & rest3 & chars' & Hr & Hk & E & ND' & Hp' & Hincl & Hne).
      * constructor; assumption.
      * now rewrite rev_cons_app.
      * cbn [List.length]. lia.
      * exists (c :: cb), rest3, chars'.
        split; [now rewrite Hr|].
        split; [now rewrite rev_cons_app|].
        split; [rewrite E; do 2 f_equal; cbn [List.length]; lia|]. auto.
Qed.

Lemma expand_mono fuel : forall s ipt chars r fuel',
  Gen.expand fuel s ipt chars = Some r -> (fuel <= fuel')%nat ->
  Gen.expand fuel' s ipt chars = Some r.
Proof.
  induction fuel as [|fuel IH]; intros s ipt chars r fuel' H Hle; [discriminate|].
  destruct fuel' as [|fuel']; [lia|]. rewrite expand_step in *.
  destruct (rd s ipt) as [c|]; [|discriminate].
  destruct (c =? Ch.rbrack); [exact H|].
  destruct (c =? Ch.dash).
  - destruct (rd s (ipt + 1)) as [n1|]; [|discriminate].
    destruct (if n1 =? Ch.backslash then rd s (ipt + 2) else Some n1); [|discriminate].
    destruct (rd s (ipt - 1)); [|discriminate].
    destruct (fill _ _ _); [|discriminate]. apply IH with (fuel' := fuel') in H; [exact H|lia].
  - cbv zeta in *. destruct (rd s _); [|discriminate].
    destruct (add_char _ _); [|discriminate].
    apply IH with (fuel' := fuel') in H; [exact H|lia].
Qed.

(** A class that check accepts: the opening bracket is met outside a class,
    with printable bytes behind it, and the scan of check goes on to accept
    the pattern.  The scan of randchar, started after the bracket, reaches
    the closing bracket; the set it has built holds distinct printable
    characters, and is empty only when the class body is. *)
Lemma validated_class before rest level :
  Forall is_printable before ->
  V2.check_loop before (Ch.lbrack :: rest) 0 level = Some true ->
  exists j chars,
    Gen.expand (S (List.length (rev before ++ Ch.lbrack :: rest)))
               (rev before ++ Ch.lbrack :: rest)
               (Z.of_nat (List.length before) + 1) []
    = Some (j, chars) /\
    NoDup chars /\ Forall is_printable chars /\
    (ahead 0 rest <> Ch.rbrack -> chars <> []).
Proof.
  intros Hb H. cbn [V2.check_loop] in H.
  change ((Ch.lbrack <? Ch.bang) || (Ch.lbrack >? Ch.tilde)) with false in H.
  change (Ch.lbrack =? Ch.lbrack) with true in H.
  change (negb (0 =? 0)) with false in H. cbv beta match in H.
  destruct (class_scan (List.length rest) rest (le_n _) (Ch.lbrack :: before) level [] H)
    as (cb & rest3 & chars & _ & _ & E & ND & Hp & _ & Hne).
  - constructor; [unfold is_printable, Ch.bang, Ch.tilde, Ch.lbrack; lia | assumption].
  - constructor.
  - constructor.
  - exists (Z.of_nat (List.length before) + 1 + Z.of_nat (List.length cb)), chars.
    split; [|auto].
    rewrite rev_cons_app in E. cbn [List.length] in E.
    replace (Z.of_nat (S (List.length before))) with (Z.of_nat (List.length before) + 1)
      in E by lia.
    eapply expand_mono; [exact E|]. rewrite length_app. cbn [List.length]. lia.
Qed.

(** C6, as the code has it.  A class that check accepts and whose body is
    not empty is scanned by randchar up to its closing bracket, to a
    non-empty set.  For a class whose scan reaches the closing bracket with
    a non-empty set: when the bracket is followed by a star and a run of
    decimal digits, first digit 1..9, that denotes a number N no greater
    than INT_MAX, randchar draws exactly N characters, all from the set, and
    reports the offset just past the digits; when no such suffix follows it
    draws exactly one character and reports the offset just past the
    bracket.  The pattern [a]*5 always gives the five characters aaaaa. *)
Theorem C6_class_count_within_int :
  (forall before rest level,
      Forall is_printable before ->
      V2.check_loop before (Ch.lbrack :: rest) 0 level = Some true ->
      ahead 0 rest <> Ch.rbrack ->
      exists j chars,
        Gen.expand (S (List.length (rev before ++ Ch.lbrack :: rest)))
                   (rev before ++ Ch.lbrack :: rest)
                   (Z.of_nat (List.length before) + 1) []
        = Some (j, chars) /\ chars <> []) /\
  (forall rand s o j chars w ds,
      Gen.expand (S (List.length s)) s o [] = Some (j, chars) -> chars <> [] ->
      has_suffix s j ds -> decimal ds <= INT_MAX ->
      exists picks,
        Gen.randchar (sampler rand) s o w
        = Some (j + 2 + Z.of_nat (List.length ds) - o - 1,
                mkWorld (out w ++ picks) (draws w + Z.to_nat (decimal ds))) /\
        Z.of_nat (List.length picks) = decimal ds /\
        Forall (fun c => In c chars) picks) /\
  (forall rand s o j chars w,
      Gen.expand (S (List.length s)) s o [] = Some (j, chars) -> chars <> [] ->
      ~ (rd s (j + 1) = Some Ch.star /\
         exists d, rd s (j + 2) = Some d /\ Ch.zero < d <= Ch.nine) ->
      exists c, In c chars /\
        Gen.randchar (sampler rand) s o w
        = Some (j + 1 - o - 1, mkWorld (out w ++ [c]) (S (draws w)))) /\
  (forall rand k,
      Gen.generate (sampler rand) (2 + k) (chars_of "[a]*5") 0 w0
      = Some (5, mkWorld (chars_of "aaaaa") 5)).
Proof.
  split; [|split; [|split]].
  - intros before rest level Hb H Hne.
    destruct (validated_class before rest level Hb H) as (j & chars & E & _ & _ & Hc).
    exists j, chars. auto.
  - intros. now apply randchar_with_suffix.
  - intros. now apply randchar_without_suffix.
  - intros rand k. apply generate_mono with (fuel := 2%nat); [|lia].
    transitivity (Some (5, mkWorld [pick (rand 0%nat) [97]; pick (rand 1%nat) [97];
                                    pick (rand 2%nat) [97]; pick (rand 3%nat) [97];
                                    pick (rand 4%nat) [97]] 5)); [run_gen|].
    now rewrite !pick_single.
Qed.

Lemma C6_class_count_within_int_witness :
  Gen.expand (S (List.length (chars_of "[xy]*12z"))) (chars_of "[xy]*12z") 1 []
    = Some (3, chars_of "xy") /\
  has_suffix (chars_of "[xy]*12z") 3 (chars_of "12") /\
  decimal (chars_of "12") = 12 /\
  exists picks,
    Gen.randchar (sampler (fun n => N.of_nat n)) (chars_of "[xy]*12z") 1 w0
    = Some (3 + 2 + 2 - 1 - 1, mkWorld (out w0 ++ picks) (draws w0 + 12)) /\
    Z.of_nat (List.length picks) = 12 /\
    Forall (fun c => In c (chars_of "xy")) picks.
Proof.
  assert (Hs : has_suffix (chars_of "[xy]*12z") 3 (chars_of "12")).
  { split; [lia|]. split; [change (Ch.zero < 49 <= Ch.nine); unfold Ch.zero, Ch.nine; lia|].
    split; [repeat constructor|]. exists (chars_of "z"). split; reflexivity. }
  split; [reflexivity|]. split; [exact Hs|]. split; [reflexivity|].
  apply (proj1 (proj2 C6_class_count_within_int) (fun n => N.of_nat n)
           (chars_of "[xy]*12z") 1 3 (chars_of "xy") w0 (chars_of "12")).
  - reflexivity.
  - discriminate.
  - exact Hs.
  - vm_compute. discriminate.
Defined.

(** C6 as stated fails on a count that does not fit an [int]: check accepts
    the pattern [a]*4294967297, strtol reads 4294967297 = 2^32 + 1, the
    assignment to the [int] c leaves 1, and one character is written. *)
Lemma C6_count_beyond_int :
  V2.check (chars_of "[a]*4294967297") = Some true /\
  has_suffix (chars_of "[a]*4294967297") 2 (chars_of "4294967297") /\
  decimal (chars_of "4294967297") = 4294967297 /\
  Gen.generate (sampler (fun _ => 0%N)) 2 (chars_of "[a]*4294967297") 0 w0
    = Some (14, mkWorld (chars_of "a") 1) /\
  Z.of_nat (List.length (chars_of "a")) <> decimal (chars_of "4294967297").
Proof.
  split; [reflexivity|]. split.
  { split; [lia|]. split; [change (Ch.zero < 52 <= Ch.nine); unfold Ch.zero, Ch.nine; lia|].
    split; [repeat constructor|]. exists []. split; reflexivity. }
  split; [reflexivity|]. split; [reflexivity|]. vm_compute. discriminate.
Qed.

(** ** The count of a group *)

Lemma fold_digits_ge ds : forall acc,
  Forall (fun d => is_digit d = true) ds -> 1 <= acc ->
  1 <= fold_left (fun a d => 10 * a + (d - Ch.zero)) ds acc.
Proof.
  induction ds as [|d ds IH]; intros acc Hd Ha; [exact Ha|].
  inversion Hd as [|? ? Hd1 Hd2]; subst. cbn [fold_left]. apply IH; [assumption|].
  unfold is_digit in Hd1. apply andb_true_iff in Hd1. destruct Hd1 as [H1 _].
  apply Z.leb_le in H1. lia.
Qed.

Lemma decimal_pos ds :
  leading ds -> Forall (fun d => is_digit d = true) ds -> 1 <= decimal ds.
Proof.
  destruct ds as [|d ds]; [contradiction|]. cbn [leading]. intros Hl Hd.
  inversion Hd; subst. unfold decimal. cbn [fold_left].
  apply fold_digits_ge; [assumption|lia].
Qed.

Section GroupRepeat.

Variable rand : nat -> N.
Variables (s : list Z) (o j N e : Z).
(** The loop that starts at [o] has the closing parenthesis of its own
    sequence at [j], followed by the count [N], which ends before [e]. *)
Hypothesis Hclose : rd s j = Some Ch.rparen.
Hypothesis Hsuffix : Gen.suffix s j = Some (Some (N, e)).
Hypothesis HN : 1 <= N.
(** One execution of the body: from [o] the loop comes to [j] in [cost]
    iterations, having turned the world [w] into [body w]; [need] is the
    fuel the nested calls of the body ask for. *)
Variable body : world -> world.
Variables cost need : nat.
Hypothesis Hbody : forall f t tm ex w, (need <= f)%nat ->
  Gen.gen_loop (sampler rand) (cost + f) s o o t tm ex w
  = Gen.gen_loop (sampler rand) f s o j t tm ex (body w).

Lemma group_passes m : forall t tm ex w f,
  (need <= f)%nat -> (1 <= m)%nat -> t + Z.of_nat m = N ->
  (tm = 0 \/ (tm = N /\ ex = e)) ->
  Gen.gen_loop (sampler rand) (m * (cost + 1) + f) s o o t tm ex w
  = Some (e - o - 1, Nat.iter m body w).
Proof.
  induction m as [|m IH]; intros t tm ex w f Hf Hm Ht Hst; [lia|].
  replace (S m * (cost + 1) + f)%nat with (cost + S (m * (cost + 1) + f))%nat by lia.
  rewrite Hbody by lia. cbn [Gen.gen_loop]. rewrite Hclose. cbv beta iota.
  change (Ch.rparen =? 0) with false. change (Ch.rparen =? Ch.lparen) with false.
  change (Ch.rparen =? Ch.rparen) with true. cbv beta iota.
  rewrite Nat.iter_succ_r.
  destruct (Nat.eq_dec m 0) as [->|Hm0].
  - (* the last execution *)
    assert (Hlast : (t + 1 <? N) = false) by (apply Z.ltb_ge; lia).
    destruct Hst as [->|[-> ->]].
    + change (0 =? 0) with true. cbv beta iota. rewrite Hsuffix. cbv beta iota.
      now rewrite Hlast.
    + destruct (Z.eqb_spec N 0); [lia|]. now rewrite Hlast.
  - assert (Hmore : (t + 1 <? N) = true) by (apply Z.ltb_lt; lia).
    destruct Hst as [->|[-> ->]].
    + change (0 =? 0) with true. cbv beta iota. rewrite Hsuffix. cbv beta iota.
      rewrite Hmore. apply IH; lia || (right; auto).
    + destruct (Z.eqb_spec N 0); [lia|]. rewrite Hmore.
      apply IH; lia || (right; auto).
Qed.

Lemma group_repeat w f :
  (need <= f)%nat ->
  Gen.generate (sampler rand) (Z.to_nat N * (cost + 1) + f) s o w
  = Some (e - o - 1, Nat.iter (Z.to_nat N) body w).
Proof.
  intros Hf. unfold Gen.generate. apply group_passes; lia || (left; reflexivity).
Qed.

End GroupRepeat.

Lemma pick_letter r : is_letter (pick r letters) = true.
Proof.
  assert (H : forallb is_letter letters = true) by reflexivity.
  rewrite forallb_forall in H. apply H, pick_In. discriminate.
Qed.

Lemma pick_digit r : is_digit (pick r digits) = true.
Proof.
  assert (H : forallb is_digit digits = true) by reflexivity.
  rewrite forallb_forall in H. apply H, pick_In. discriminate.
Qed.

(** ** main *)

Lemma gen1_loop_mono sample fuel : forall s o i t tm ex w r,
  Gen1.gen_loop sample fuel s o i t tm ex w = Some r ->
  forall fuel', (fuel <= fuel')%nat ->
  Gen1.gen_loop sample fuel' s o i t tm ex w = Some r.
Proof.
  induction fuel as [|fuel IH]; intros s o i t tm ex w r H fuel' Hle;
    [discriminate|].
  destruct fuel' as [|fuel']; [lia|].
  assert (Hle' : (fuel <= fuel')%nat) by lia.
  cbn [Gen1.gen_loop] in *.
  destruct (rd s i) as [c|]; [|discriminate].
  destruct (c =? 0); [exact H|].
  destruct (c =? Ch.lparen).
  { destruct (Gen1.gen_loop sample fuel s (i + 1) (i + 1) 0 0 0 w) as [[r1 w1]|] eqn:E;
      [|discriminate].
    rewrite (IH _ _ _ _ _ _ _ _ E fuel' Hle'). eapply IH; eauto. }
  destruct (c =? Ch.rparen).
  { destruct (tm =? 0).
    - destruct (Gen.suffix s i) as [[[n e]|]|]; try discriminate; try exact H.
      destruct (t + 1 <? n); [eapply IH; eauto | exact H].
    - destruct (t + 1 <? tm); [eapply IH; eauto | exact H]. }
  destruct (c =? Ch.lbrack).
  { destruct (Gen1.randchar sample s (i + 1) w) as [[r1 w1]|]; [|discriminate].
    eapply IH; eauto. }
  eapply IH; eauto.
Qed.

Section Exits.

Variable check : list Z -> option bool.
Variable generate : nat -> list Z -> Z -> world -> option (Z * world).
Hypothesis generate_more_fuel : forall fuel fuel' s i w r,
  generate fuel s i w = Some r -> (fuel <= fuel')%nat ->
  generate fuel' s i w = Some r.

Lemma main_loop_mono n : forall fuel fuel' s w r,
  Main.main_loop generate n fuel s w = Some r -> (fuel <= fuel')%nat ->
  Main.main_loop generate n fuel' s w = Some r.
Proof.
  induction n as [|n IH]; intros fuel fuel' s w r H Hle; cbn [Main.main_loop] in *;
    [exact H|].
  destruct (generate fuel s 0 w) as [[r1 w1]|] eqn:E; [|discriminate].
  rewrite (generate_more_fuel _ _ _ _ _ _ E Hle). eapply IH; eauto.
Qed.

Lemma main_mono seeded fuel fuel' os r :
  Main.main check generate seeded fuel os = Some r -> (fuel <= fuel')%nat ->
  Main.main check generate seeded fuel' os = Some r.
Proof.
  unfold Main.main. intros H Hle.
  destruct (_ =? 0); [exact H|].
  destruct (check _) as [b|]; [|discriminate].
  destruct (negb b); [exact H|]. destruct (negb seeded); [exact H|].
  destruct (_ <? 0); [discriminate|].
  destruct (Main.main_loop generate _ fuel _ _) as [w|] eqn:E; [|discriminate].
  now rewrite (main_loop_mono _ _ _ _ _ _ E Hle).
Qed.

Lemma land_1_cases f : Z.land f 1 = 0 \/ Z.land f 1 = 1.
Proof.
  change 1 with (Z.ones 1) at 1 2. rewrite Z.land_ones by lia.
  pose proof (Z.mod_pos_bound f (2 ^ 1) ltac:(lia)). change (2 ^ 1) with 2 in *. lia.
Qed.

Lemma getopt_definition_flag os : forall a,
  Z.land (Main.flags (Main.getopt_loop os a)) Main.FLAG_DEFINITION
  = if existsb is_p os then 1 else Z.land (Main.flags a) Main.FLAG_DEFINITION.
Proof.
  unfold Main.FLAG_DEFINITION.
  induction os as [|[optarg|n|] os IH]; intros a; cbn [Main.getopt_loop existsb is_p orb].
  - reflexivity.
  - rewrite IH. cbn [Main.flags]. destruct (existsb is_p os); [reflexivity|].
    rewrite Z.land_lor_distr_l. unfold Main.FLAG_DEFINITION. change (Z.land 1 1) with 1.
    destruct (land_1_cases (Main.flags a)) as [->| ->]; reflexivity.
  - rewrite IH. cbn [Main.flags]. destruct (existsb is_p os); [reflexivity|].
    rewrite Z.land_lor_distr_l. unfold Main.FLAG_TIME. change (Z.land 2 1) with 0.
    now rewrite Z.lor_0_r.
  - apply IH.
Qed.

Lemma parse_flag os :
  Z.land (Main.flags (parse os)) Main.FLAG_DEFINITION
  = if existsb is_p os then 1 else 0.
Proof. unfold parse. now rewrite getopt_definition_flag. Qed.

Lemma main_without_pattern seeded fuel os :
  existsb is_p os = false ->
  Main.main check generate seeded fuel os
  = Some (Main.Returned (-1), mkWorld Main.msg_need 0).
Proof.
  intros Hp. unfold Main.main. fold (parse os). rewrite parse_flag, Hp. reflexivity.
Qed.

Lemma main_rejected_pattern seeded fuel os :
  existsb is_p os = true -> check (Main.ipt_arg (parse os)) = Some false ->
  Main.main check generate seeded fuel os
  = Some (Main.Returned (-2), mkWorld Main.msg_error 0).
Proof.
  intros Hp Hc. unfold Main.main. fold (parse os). rewrite parse_flag, Hp, Hc.
  reflexivity.
Qed.

Lemma main_zero_validated seeded fuel os w :
  Main.main check generate seeded fuel os = Some (Main.Returned 0, w) ->
  existsb is_p os = true /\ check (Main.ipt_arg (parse os)) = Some true.
Proof.
  unfold Main.main. fold (parse os).
  rewrite parse_flag. destruct (existsb is_p os); [|discriminate].
  change (1 =? 0) with false. cbv beta iota.
  destruct (check (Main.ipt_arg (parse os))) as [[|]|]; try discriminate. auto.
Qed.

Lemma main_generated_zero fuel os e w :
  existsb is_p os = true -> check (Main.ipt_arg (parse os)) = Some true ->
  Main.main check generate true fuel os = Some (e, w) ->
  e = Main.Returned 0.
Proof.
  intros Hp Hc. unfold Main.main. fold (parse os).
  rewrite parse_flag, Hp, Hc. change (1 =? 0) with false. cbv beta iota.
  cbn [negb].
  destruct (_ <? 0); [discriminate|].
  destruct (Main.main_loop _ _ _ _ _); [|discriminate]. now intros [= <- _].
Qed.

End Exits.

(** C9.  The exits of main, in either source: with no -p option it returns
    -1 and with a pattern that check rejects it returns -2, each after its
    message alone, for every random source and fuel and with no draw made
    (generation is not entered); a run that returns 0 had a pattern and
    check accepted it; with a pattern that check accepts and a seed that is
    set, a run that ends returns 0, as the run on the pattern abc asked for
    three times does.  The three values differ, and so do the exit statuses
    (their low eight bits) 255, 254 and 0. *)
Theorem C9_exit_statuses :
  (forall v rand seeded fuel os,
      existsb is_p os = false ->
      main_of v (sampler rand) seeded fuel os
      = Some (Main.Returned (-1), mkWorld Main.msg_need 0)) /\
  (forall v rand seeded fuel os,
      existsb is_p os = true ->
      check_of v (Main.ipt_arg (parse os)) = Some false ->
      main_of v (sampler rand) seeded fuel os
      = Some (Main.Returned (-2), mkWorld Main.msg_error 0)) /\
  (forall v rand seeded fuel os w,
      main_of v (sampler rand) seeded fuel os = Some (Main.Returned 0, w) ->
      existsb is_p os = true /\
      check_of v (Main.ipt_arg (parse os)) = Some true) /\
  (forall v rand fuel os e w,
      existsb is_p os = true ->
      check_of v (Main.ipt_arg (parse os)) = Some true ->
      main_of v (sampler rand) true fuel os = Some (e, w) ->
      e = Main.Returned 0) /\
  (forall v rand k,
      main_of v (sampler rand) true (4 + k)
              [Main.Opt_p (chars_of "abc"); Main.Opt_t 3]
      = Some (Main.Returned 0,
              mkWorld (chars_of "abc" ++ [Ch.newline] ++ chars_of "abc"
                       ++ [Ch.newline] ++ chars_of "abc" ++ [Ch.newline]) 0)) /\
  (-1 <> -2 /\ -1 <> 0 /\ -2 <> 0) /\
  (Z.land (-1) 255 = 255 /\ Z.land (-2) 255 = 254 /\ Z.land 0 255 = 0).
Proof.
  split; [|split; [|split; [|split; [|split; [|split]]]]].
  - intros [|] rand seeded fuel os Hp; now apply main_without_pattern.
  - intros [|] rand seeded fuel os Hp Hc; now apply main_rejected_pattern.
  - intros [|] rand seeded fuel os w H; eapply main_zero_validated; exact H.
  - intros [|] rand fuel os e w Hp Hc H; eapply main_generated_zero; eauto.
  - intros [|] rand k.
    + apply main_mono with (fuel := 4%nat); [|reflexivity|lia].
      intros fuel fuel' s i w r H Hle. unfold Gen1.generate in *.
      eapply gen1_loop_mono; eauto.
    + apply main_mono with (fuel := 4%nat); [|reflexivity|lia].
      intros fuel fuel' s i w r H Hle. eapply generate_mono; eauto.
  - lia.
  - repeat split; reflexivity.
Qed.

Lemma C9_exit_statuses_witness :
  main_of Revised (sampler (fun _ => 0%N)) true 0 [Main.Opt_t 3]
    = Some (Main.Returned (-1), mkWorld Main.msg_need 0) /\
  main_of Revised (sampler (fun _ => 0%N)) true 0 [Main.Opt_p (chars_of "[b-a]")]
    = Some (Main.Returned (-2), mkWorld Main.msg_error 0) /\
  (existsb is_p [Main.Opt_p (chars_of "ab")] = true /\
   check_of Original (Main.ipt_arg (parse [Main.Opt_p (chars_of "ab")])) = Some true) /\
  Main.Returned 0 = Main.Returned 0.
Proof.
  split; [|split; [|split]].
  - apply (proj1 C9_exit_statuses Revised). reflexivity.
  - apply (proj1 (proj2 C9_exit_statuses) Revised); reflexivity.
  - apply (proj1 (proj2 (proj2 C9_exit_statuses)) Original (fun _ => 0%N) true 3%nat
             [Main.Opt_p (chars_of "ab")] (mkWorld (chars_of "ab" ++ [Ch.newline]) 0)).
    reflexivity.
  - apply (proj1 (proj2 (proj2 (proj2 C9_exit_statuses))) Revised (fun _ => 0%N) 3%nat
             [Main.Opt_p (chars_of "ab")] (Main.Returned 0)
             (mkWorld (chars_of "ab" ++ [Ch.newline]) 0)); reflexivity.
Defined.

(** ** The two validators *)

Lemma no_empty_class_tl s : no_empty_class s = true -> no_empty_class (tl s) = true.
Proof.
  destruct s as [|c [|d r]]; try reflexivity. cbn [no_empty_class tl].
  intros H. apply andb_true_iff in H. tauto.
Qed.

Lemma ahead_unescaped k rest :
  forallb unescaped rest = true -> (ahead k rest =? Ch.backslash) = false.
Proof.
  intros H. unfold ahead. revert k. induction rest as [|c r IH]; intros k.
  - now destruct k.
  - cbn [forallb] in H. apply andb_true_iff in H. destruct H as [Hc Hr].
    destruct k as [|k]; cbn [nth]; [|now apply IH].
    unfold unescaped in Hc. now apply negb_true_iff in Hc.
Qed.

Lemma checks_agree_loop rest : forall before in_ level,
  forallb unescaped before = true ->
  forallb unescaped rest = true ->
  no_empty_class (tl rest) = true ->
  (before <> [] -> no_empty_class rest = true) ->
  (forall p t c r, before = p :: t -> t <> [] -> rest = c :: r ->
                   ~ (p = Ch.lbrack /\ c = Ch.rbrack)) ->
  (forall r, before = [Ch.lbrack] -> rest <> Ch.dash :: r) ->
  (before = [] -> starts_with_dash_class rest = false) ->
  dashes_in_class (in_ =? 1) rest = true ->
  in_class_inv before in_ ->
  V1.check_loop before rest in_ level = V2.check_loop before rest in_ level.
Proof.
  induction rest as [|c rest IH];
    intros before in_ level Hub Hpl Hne Hne1 Hadj Hlead Hs Hd Hinv; [reflexivity|].
  cbn [forallb] in Hpl. apply andb_true_iff in Hpl. destruct Hpl as [Hc Hpl].
  unfold unescaped in Hc. apply negb_true_iff in Hc.
  cbn [tl] in Hne.
  assert (Hub' : forallb unescaped (c :: before) = true).
  { cbn [forallb]. unfold unescaped at 1. now rewrite Hc, Hub. }
  assert (Hne' : no_empty_class (tl rest) = true) by now apply no_empty_class_tl.
  assert (Hne1' : c :: before <> [] -> no_empty_class rest = true) by (intros _; exact Hne).
  assert (Hadj' : forall p t c' r, c :: before = p :: t -> t <> [] -> rest = c' :: r ->
                                   ~ (p = Ch.lbrack /\ c' = Ch.rbrack)).
  { intros p t c' r [= <- <-] Ht -> [-> ->]. specialize (Hne1 Ht).
    cbn [no_empty_class] in Hne1. rewrite !Z.eqb_refl in Hne1. discriminate. }
  assert (Hstep : forall in' level',
             (forall r, c :: before = [Ch.lbrack] -> rest <> Ch.dash :: r) ->
             dashes_in_class (in' =? 1) rest = true ->
             in_class_inv (c :: before) in' ->
             V1.check_loop (c :: before) rest in' level'
             = V2.check_loop (c :: before) rest in' level').
  { intros in' level' Hl' Hd' Hi'. apply IH; try assumption. discriminate. }
  cbn [V1.check_loop V2.check_loop].
  destruct ((c <? Ch.bang) || (c >? Ch.tilde)); [reflexivity|].
  cbn [dashes_in_class] in Hd.
  destruct (Z.eqb_spec c Ch.lbrack) as [->|Hlb].
  { destruct Hinv as [->|[-> _]]; [|reflexivity].
    change (Ch.lbrack =? Ch.dash) with false in Hd. cbv beta match in Hd.
    cbn [Z.eqb negb]. apply Hstep.
    - intros r [= ->] ->. specialize (Hs eq_refl). discriminate Hs.
    - exact Hd.
    - right. split; [reflexivity|].
      exists Ch.lbrack, before. split; [reflexivity|discriminate]. }
  destruct (Z.eqb_spec c Ch.rbrack) as [->|Hrb].
  { change (Ch.rbrack =? Ch.dash) with false in Hd. cbv beta match in Hd.
    destruct Hinv as [->|[-> (p & t & -> & Hp)]]; [reflexivity|].
    cbn [Z.eqb negb Pos.eqb behind nth_error]. unfold V2.opens_here.
    cbn [behind nth_error].
    destruct (Z.eqb_spec p Ch.rbrack); [contradiction|].
    destruct (Z.eqb_spec p Ch.lbrack) as [->|_].
    - cbn [negb]. destruct t as [|q t].
      + cbn [List.length Z.of_nat Z.leb Z.compare negb].
        apply Hstep; [discriminate|exact Hd|left; reflexivity].
      + exfalso. eapply (Hadj Ch.lbrack (q :: t)); eauto. discriminate.
    - cbn [negb]. apply Hstep; [discriminate|exact Hd|left; reflexivity]. }
  destruct (Z.eqb_spec c Ch.lparen) as [->|Hlp].
  { change (Ch.lparen =? Ch.dash) with false in Hd. cbv beta match in Hd.
    destruct Hinv as [->|[-> _]]; [|reflexivity].
    cbn [Z.eqb negb]. apply Hstep; [discriminate|exact Hd|left; reflexivity]. }
  destruct (Z.eqb_spec c Ch.rparen) as [->|Hrp].
  { change (Ch.rparen =? Ch.dash) with false in Hd. cbv beta match in Hd.
    destruct Hinv as [->|[-> _]]; [|reflexivity].
    cbn [Z.eqb negb orb]. destruct (level <=? 0); [reflexivity|].
    apply Hstep; [discriminate|exact Hd|left; reflexivity]. }
  destruct (Z.eqb_spec c Ch.dash) as [->|Hda].
  { apply andb_true_iff in Hd. destruct Hd as [Hin Hd].
    destruct Hinv as [->|[-> (p & t & -> & Hp)]]; [discriminate Hin|].
    cbn [Z.eqb negb Pos.eqb behind nth_error]. unfold V2.opens_here.
    cbn [behind nth_error].
    change (ahead 1 (Ch.dash :: rest)) with (ahead 0 rest).
    rewrite (ahead_unescaped 0 rest Hpl).
    destruct (Z.eqb_spec p Ch.lbrack) as [->|Hpl'].
    - cbn [negb orb]. destruct t as [|q t].
      + exfalso. now apply (Hlead rest).
      + cbn [forallb] in Hub. apply andb_true_iff in Hub. destruct Hub as [_ Hub].
        apply andb_true_iff in Hub. destruct Hub as [Hq _].
        unfold unescaped in Hq. 
        replace (2 <=? Z.of_nat (List.length (Ch.lbrack :: q :: t))) with true
          by (symmetry; apply Z.leb_le; cbn [List.length]; lia).
        cbn [negb nth_error]. rewrite Hq. reflexivity.
    - cbn [negb orb].
      destruct (ahead 0 rest =? Ch.rbrack); [reflexivity|].
      destruct (ahead 0 rest <? p); [reflexivity|].
      apply Hstep; [discriminate|exact Hd|].
      right. split; [reflexivity|]. exists Ch.dash, (p :: t).
      split; [reflexivity|discriminate]. }
  rewrite Hc.
  replace (c =? Ch.dash) with false in Hd by (symmetry; now apply Z.eqb_neq).
  replace (c =? Ch.lbrack) with false in Hd by (symmetry; now apply Z.eqb_neq).
  replace (c =? Ch.rbrack) with false in Hd by (symmetry; now apply Z.eqb_neq).
  apply Hstep.
  - intros r [= -> _]. contradiction.
  - exact Hd.
  - destruct Hinv as [->|[-> _]]; [left; reflexivity|].
    right. split; [reflexivity|]. exists c, before. auto.
Qed.

(** C10, as the code has it.  The two validators give the same verdict on
    every pattern that holds no backslash, whose dashes all stand inside a
    class, that does not start with an opening bracket and a dash, and that
    holds no closing bracket right after an opening one past its first two
    bytes.  (On a dash outside a class the check of src/unnamed/part_000
    still compares the bytes around it, and it takes a dash or a closing
    bracket after the opening bracket that starts the pattern; the check of
    src/pwdgen.c takes an empty class anywhere.) *)
Theorem C10_validators_agree_without_escapes (s : list Z) :
  forallb unescaped s = true ->
  dashes_in_class false s = true ->
  starts_with_dash_class s = false ->
  no_empty_class (tl s) = true ->
  V1.check s = V2.check s /\
  (V1.check s = Some true <-> V2.check s = Some true).
Proof.
  intros Hpl Hd Hs Hne.
  assert (E : V1.check s = V2.check s).
  { unfold V1.check, V2.check.
    apply checks_agree_loop; try assumption.
    - reflexivity.
    - intros H. now contradiction H.
    - intros p t c r H. discriminate H.
    - intros r H. discriminate H.
    - intros _. exact Hs.
    - left. reflexivity. }
  split; [exact E|]. now rewrite E.
Qed.

Lemma C10_validators_agree_without_escapes_witness :
  forallb unescaped (chars_of "([A-Za-z][0-9])*3") = true /\
  dashes_in_class false (chars_of "([A-Za-z][0-9])*3") = true /\
  starts_with_dash_class (chars_of "([A-Za-z][0-9])*3") = false /\
  no_empty_class (tl (chars_of "([A-Za-z][0-9])*3")) = true /\
  V1.check (chars_of "([A-Za-z][0-9])*3") = V2.check (chars_of "([A-Za-z][0-9])*3") /\
  (V1.check (chars_of "([A-Za-z][0-9])*3") = Some true <->
   V2.check (chars_of "([A-Za-z][0-9])*3") = Some true).
Proof.
  split; [reflexivity|]. split; [reflexivity|]. split; [reflexivity|].
  split; [reflexivity|].
  apply C10_validators_agree_without_escapes; reflexivity.
Defined.

(** C10 as stated fails: the escaped bracket of the pattern \[ is plain text
    for the check of src/unnamed/part_000, which accepts it, and opens a
    class that is never closed for the check of src/pwdgen.c, which rejects
    it. *)
Lemma C10_validators_differ :
  ~ (forall s, V1.check s = Some true <-> V2.check s = Some true).
Proof.
  intros H. specialize (H (chars_of "\[")).
  assert (E : V1.check (chars_of "\[") = Some true) by (apply H; reflexivity).
  discriminate E.
Qed.

(** * Further properties of the code *)

(** ** strfind *)

Lemma strfind_loop_cells tar k : forall lst,
  strfind_loop tar lst k = true <-> exists i, (i < k)%nat /\ nth i lst 0 = tar.
Proof.
  induction k as [|k IH]; intros lst; cbn [strfind_loop].
  - split; [discriminate|]. intros (i & Hi & _). lia.
  - destruct lst as [|x l]; rewrite orb_true_iff, Z.eqb_eq, IH; split.
    + intros [<-|(i & Hi & <-)]; [exists 0%nat; split; [lia|reflexivity]|].
      exists (S i). split; [lia|]. now destruct i.
    + intros (i & Hi & <-). left. now destruct i.
    + intros [<-|(i & Hi & <-)]; [exists 0%nat; split; [lia|reflexivity]|].
      exists (S i). split; [lia|reflexivity].
    + intros (i & Hi & <-). destruct i as [|i]; [left; reflexivity|].
      right. exists i. split; [lia|reflexivity].
Qed.

(** strfind looks at the cells 0..len of the array, the cell [len] included:
    it answers 1 exactly when one of them holds the target.  On the set of
    randchar, whose cell [len] is still zero, it finds the characters entered
    so far, and always finds the NUL byte. *)
Theorem strfind_looks_one_cell_past_len :
  (forall tar lst len,
      strfind tar lst len = true <->
      exists i, (i <= len)%nat /\ nth i lst 0 = tar) /\
  (forall tar chars,
      strfind tar chars (List.length chars) = true <-> In tar chars \/ tar = 0).
Proof.
  split.
  - intros tar lst len. unfold strfind. rewrite strfind_loop_cells.
    split; intros (i & Hi & E); exists i; split; (lia || exact E).
  - exact strfind_In.
Qed.

(** ** What check reads *)

Lemma v1_check_loop_defined rest : forall before in_ level,
  in_ = 0 \/ before <> [] ->
  V1.check_loop before rest in_ level <> None.
Proof.
  induction rest as [|c rest IH]; intros before in_ level Hinv; [discriminate|].
  assert (Hnext : forall i l, V1.check_loop (c :: before) rest i l <> None).
  { intros i l. apply IH. right. discriminate. }
  cbn [V1.check_loop].
  destruct ((c <? Ch.bang) || (c >? Ch.tilde)); [discriminate|].
  destruct (c =? Ch.lbrack).
  { destruct (negb (in_ =? 0)); [discriminate | apply Hnext]. }
  destruct (c =? Ch.rbrack).
  { destruct (Z.eqb_spec in_ 1) as [->|]; [|discriminate]. cbn [negb].
    destruct Hinv as [|Hb]; [discriminate|].
    destruct before as [|p t]; [contradiction|]. cbn [behind nth_error].
    destruct (p =? Ch.rbrack); [discriminate | apply Hnext]. }
  destruct (c =? Ch.lparen).
  { destruct (in_ =? 1); [discriminate | apply Hnext]. }
  destruct (c =? Ch.rparen).
  { destruct (negb (in_ =? 0) || (level <=? 0)); [discriminate | apply Hnext]. }
  destruct (c =? Ch.dash); [|apply Hnext].
  destruct (Z.eqb_spec in_ 0) as [->|Hin]; cbn [negb]; [apply Hnext|].
  destruct Hinv as [|Hb]; [contradiction|].
  destruct before as [|p t]; [contradiction|]. cbn [behind nth_error].
  destruct ((p =? Ch.lbrack) || _ || _); [discriminate | apply Hnext].
Qed.

(** The check of src/pwdgen.c never reads outside the pattern: it looks
    at the byte behind the pointer only inside a class, and gives a verdict
    on every pattern. *)
Theorem v1_check_reads_inside (s : list Z) :
  exists b, V1.check s = Some b.
Proof.
  destruct (V1.check s) as [b|] eqn:E; [eauto|].
  exfalso. revert E. apply v1_check_loop_defined. left. reflexivity.
Qed.

Lemma opens_here_defined p t : V2.opens_here (p :: t) <> None.
Proof.
  unfold V2.opens_here. cbn [behind nth_error].
  destruct (negb (p =? Ch.lbrack)); [discriminate|].
  destruct (Z.leb_spec 2 (Z.of_nat (List.length (p :: t)))); cbn [negb]; [|discriminate].
  destruct t as [|q t]; [cbn [List.length] in *; lia|]. discriminate.
Qed.

Lemma v2_check_loop_defined n : forall rest, (List.length rest <= n)%nat ->
  forall p t in_ level,
  V2.check_loop (p :: t) rest in_ level <> None.
Proof.
  induction n as [|n IH]; intros rest Hn p t in_ level.
  { destruct rest; [discriminate | simpl in Hn; lia]. }
  destruct rest as [|c rest]; [discriminate|]. cbn [List.length] in Hn.
  assert (Hnext : forall i l, V2.check_loop (c :: p :: t) rest i l <> None).
  { intros i l. apply IH. lia. }
  pose proof (opens_here_defined p t) as Hop.
  cbn [V2.check_loop].
  destruct ((c <? Ch.bang) || (c >? Ch.tilde)); [discriminate|].
  destruct (c =? Ch.lbrack).
  { destruct (negb (in_ =? 0)); [discriminate | apply Hnext]. }
  destruct (c =? Ch.rbrack).
  { destruct (in_ =? 0); [discriminate|].
    destruct (V2.opens_here (p :: t)) as [[|]|]; [discriminate | apply Hnext | contradiction]. }
  destruct (c =? Ch.lparen).
  { destruct (negb (in_ =? 0)); [discriminate | apply Hnext]. }
  destruct (c =? Ch.rparen).
  { destruct (negb (in_ =? 0) || (level <=? 0)); [discriminate | apply Hnext]. }
  destruct (c =? Ch.dash).
  { cbn [behind nth_error].
    destruct (in_ =? 0).
    - destruct (_ <? p); [discriminate | apply Hnext].
    - destruct (V2.opens_here (p :: t)) as [[|]|]; [discriminate | | contradiction].
      destruct (_ =? Ch.rbrack); [discriminate|].
      destruct (_ <? p); [discriminate | apply Hnext]. }
  destruct (c =? Ch.backslash); [|apply Hnext].
  destruct rest as [|d rest]; [discriminate|]. cbn [List.length] in Hn.
  destruct ((d <? Ch.bang) || (d >? Ch.tilde)); [discriminate|].
  apply IH. lia.
Qed.

(** The check of src/unnamed/part_000 reads the byte in front of the pattern
    (ipt[-1] at offset 0) exactly when the pattern starts with a dash; on
    every other pattern all its reads are inside the string and it gives a
    verdict. *)
Theorem v2_check_reads_outside_iff_leading_dash (s : list Z) :
  V2.check s = None <-> exists rest, s = Ch.dash :: rest.
Proof.
  split.
  - intros H. destruct s as [|c rest]; [discriminate|].
    destruct (Z.eq_dec c Ch.dash) as [->|Hc]; [eauto|]. exfalso. revert H.
    assert (Hnext : forall i l, V2.check_loop [c] rest i l <> None).
    { intros i l. eapply v2_check_loop_defined. apply le_n. }
    unfold V2.check. cbn [V2.check_loop].
    destruct ((c <? Ch.bang) || (c >? Ch.tilde)); [discriminate|].
    destruct (c =? Ch.lbrack); [apply Hnext|].
    destruct (c =? Ch.rbrack); [discriminate|].
    destruct (c =? Ch.lparen); [apply Hnext|].
    destruct (c =? Ch.rparen); [discriminate|].
    destruct (Z.eqb_spec c Ch.dash); [contradiction|].
    destruct (c =? Ch.backslash); [|apply Hnext].
    destruct rest as [|d rest]; [discriminate|].
    destruct ((d <? Ch.bang) || (d >? Ch.tilde)); [discriminate|].
    eapply v2_check_loop_defined. apply le_n.
  - intros (rest & ->). reflexivity.
Qed.

(** ** What check accepts *)

Lemma v1_check_printable rest : forall before in_ level,
  V1.check_loop before rest in_ level = Some true -> Forall is_printable rest.
Proof.
  induction rest as [|c rest IH]; intros before in_ level H; [constructor|].
  cbn [V1.check_loop] in H.
  destruct ((c <? Ch.bang) || (c >? Ch.tilde)) eqn:Hc; [discriminate|].
  apply printable_test in Hc. constructor; [assumption|].
  destruct (c =? Ch.lbrack).
  { destruct (negb (in_ =? 0)); [discriminate | eauto]. }
  destruct (c =? Ch.rbrack).
  { destruct (negb (in_ =? 1)); [discriminate|].
    destruct (behind 0 before); [|discriminate].
    destruct (_ =? Ch.rbrack); [discriminate | eauto]. }
  destruct (c =? Ch.lparen).
  { destruct (in_ =? 1); [discriminate | eauto]. }
  destruct (c =? Ch.rparen).
  { destruct (negb (in_ =? 0) || (level <=? 0)); [discriminate | eauto]. }
  destruct (c =? Ch.dash); [|eauto].
  destruct (negb (in_ =? 0)); [|eauto].
  destruct (behind 0 before); [|discriminate].
  destruct (_ || _ || _); [discriminate | eauto].
Qed.

(** A pattern that check accepts, in either source, holds only bytes of the
    range 0x21..0x7E: no blank, no control character, no byte above 0x7E. *)
Theorem accepted_pattern_is_printable (v : variant) (s : list Z) :
  check_of v s = Some true -> Forall is_printable s.
Proof.
  destruct v; cbn [check_of]; intros H.
  - eapply v1_check_printable; exact H.
  - eapply check_printable; [apply le_n | exact H].
Qed.

Lemma accepted_pattern_is_printable_witness :
  check_of Revised (chars_of "([A-Za-z][0-9])*3") = Some true /\
  Forall is_printable (chars_of "([A-Za-z][0-9])*3").
Proof.
  split; [reflexivity|].
  apply (accepted_pattern_is_printable Revised). reflexivity.
Defined.

Lemma v2_check_closes n : forall rest, (List.length rest <= n)%nat ->
  forall before in_ level,
  V2.check_loop before rest in_ level = Some true ->
  (in_ <> 0 -> In Ch.rbrack rest) /\ (0 < level -> In Ch.rparen rest).
Proof.
  induction n as [|n IH]; intros rest Hn before in_ level H.
  { destruct rest; [|simpl in Hn; lia]. cbn [V2.check_loop] in H.
    injection H as H. apply andb_true_iff in H. destruct H as [H1 H2].
    apply Z.eqb_eq in H1, H2. split; intros; lia. }
  destruct rest as [|c rest].
  { cbn [V2.check_loop] in H.
    injection H as H. apply andb_true_iff in H. destruct H as [H1 H2].
    apply Z.eqb_eq in H1, H2. split; intros; lia. }
  cbn [List.length] in Hn.
  assert (Hkeep : forall b, V2.check_loop b rest in_ level = Some true ->
            (in_ <> 0 -> In Ch.rbrack (c :: rest)) /\
            (0 < level -> In Ch.rparen (c :: rest))).
  { intros b Hb. destruct (IH rest ltac:(lia) b in_ level Hb) as [H1 H2].
    split; intros; right; auto. }
  cbn [V2.check_loop] in H.
  destruct ((c <? Ch.bang) || (c >? Ch.tilde)); [discriminate|].
  destruct (Z.eqb_spec c Ch.lbrack) as [->|].
  { destruct (Z.eqb_spec in_ 0) as [->|]; cbn [negb] in H; [|discriminate].
    destruct (IH rest ltac:(lia) _ _ _ H) as [_ H2].
    split; [intros; lia | intros; right; auto]. }
  destruct (Z.eqb_spec c Ch.rbrack) as [->|].
  { destruct (in_ =? 0); [discriminate|].
    destruct (V2.opens_here before) as [[|]|]; try discriminate.
    destruct (IH rest ltac:(lia) _ _ _ H) as [_ H2].
    split; [intros; left; reflexivity | intros; right; auto]. }
  destruct (Z.eqb_spec c Ch.lparen) as [->|].
  { destruct (Z.eqb_spec in_ 0) as [->|]; cbn [negb] in H; [|discriminate].
    destruct (IH rest ltac:(lia) _ _ _ H) as [_ H2].
    split; [intros; lia | intros; right; apply H2; lia]. }
  destruct (Z.eqb_spec c Ch.rparen) as [->|].
  { destruct (Z.eqb_spec in_ 0) as [->|]; cbn [negb orb] in H; [|discriminate].
    split; [intros; lia | intros; left; reflexivity]. }
  destruct (c =? Ch.dash).
  { match type of H with
    | match ?f with _ => _ end = _ => destruct f as [[|]|]; try discriminate
    end.
    destruct (behind 0 before); [|discriminate].
    match type of H with
    | (if ?b then _ else _) = _ => destruct b; [discriminate|]
    end. eauto. }
  destruct (c =? Ch.backslash); [|eauto].
  destruct rest as [|d rest]; [discriminate|]. cbn [List.length] in Hn.
  destruct ((d <? Ch.bang) || (d >? Ch.tilde)); [discriminate|].
  destruct (IH rest ltac:(lia) _ _ _ H) as [H1 H2].
  split; intros; right; right; auto.
Qed.

(** check of src/unnamed/part_000 rejects what is left open: when its scan
    is inside a class the rest of an accepted pattern holds a closing
    bracket, and when groups are open it holds a closing parenthesis.  So an
    accepted pattern that starts with an opening bracket (parenthesis) has a
    closing one further on. *)
Theorem v2_check_rejects_unclosed :
  (forall before rest in_ level,
      V2.check_loop before rest in_ level = Some true ->
      (in_ <> 0 -> In Ch.rbrack rest) /\ (0 < level -> In Ch.rparen rest)) /\
  (forall rest, V2.check (Ch.lbrack :: rest) = Some true -> In Ch.rbrack rest) /\
  (forall rest, V2.check (Ch.lparen :: rest) = Some true -> In Ch.rparen rest).
Proof.
  split; [|split].
  - intros before rest in_ level H. eapply v2_check_closes; [apply le_n | exact H].
  - intros rest H. unfold V2.check in H. cbn in H.
    apply (v2_check_closes _ _ (le_n _)) in H. apply H. discriminate.
  - intros rest H. unfold V2.check in H. cbn in H.
    apply (v2_check_closes _ _ (le_n _)) in H. apply H. lia.
Qed.

Lemma v2_check_rejects_unclosed_witness :
  V2.check (Ch.lbrack :: chars_of "a-z]*3") = Some true /\
  In Ch.rbrack (chars_of "a-z]*3").
Proof.
  split; [reflexivity|].
  apply (proj1 (proj2 v2_check_rejects_unclosed)). reflexivity.
Defined.

Lemma occurrences_cons c d s :
  occurrences c (d :: s) = (if d =? c then 1 else 0) + occurrences c s.
Proof.
  unfold occurrences. cbn [count_occ].
  destruct (Z.eq_dec d c) as [->|Hn].
  - rewrite Z.eqb_refl. lia.
  - destruct (Z.eqb_spec d c); [contradiction|lia].
Qed.

Ltac count_step :=
  rewrite ?occurrences_cons;
  repeat match goal with
         | |- context [?a =? ?b] => destruct (Z.eqb_spec a b)
         end;
  unfold Ch.lbrack, Ch.rbrack, Ch.lparen, Ch.rparen, Ch.dash, Ch.backslash in *;
  try lia.

Lemma v1_check_counts rest : forall before in_ level,
  in_ = 0 \/ in_ = 1 ->
  V1.check_loop before rest in_ level = Some true ->
  level + occurrences Ch.lparen rest = occurrences Ch.rparen rest /\
  in_ + occurrences Ch.lbrack rest = occurrences Ch.rbrack rest.
Proof.
  induction rest as [|c rest IH]; intros before in_ level Hin H.
  { cbn [V1.check_loop] in H. injection H as H. apply andb_true_iff in H.
    destruct H as [H1 H2]. apply Z.eqb_eq in H1, H2. subst. split; reflexivity. }
  cbn [V1.check_loop] in H.
  destruct ((c <? Ch.bang) || (c >? Ch.tilde)); [discriminate|].
  destruct (Z.eqb_spec c Ch.lbrack) as [->|Hlb].
  { destruct (Z.eqb_spec in_ 0) as [->|]; cbn [negb] in H; [|discriminate].
    destruct (IH _ _ _ (or_intror eq_refl) H). split; count_step. }
  destruct (Z.eqb_spec c Ch.rbrack) as [->|Hrb].
  { destruct (Z.eqb_spec in_ 1) as [->|]; cbn [negb] in H; [|discriminate].
    destruct (behind 0 before); [|discriminate].
    destruct (_ =? Ch.rbrack); [discriminate|].
    destruct (IH _ _ _ (or_introl eq_refl) H). split; count_step. }
  destruct (Z.eqb_spec c Ch.lparen) as [->|Hlp].
  { destruct (in_ =? 1); [discriminate|].
    destruct (IH _ _ _ Hin H). split; count_step. }
  destruct (Z.eqb_spec c Ch.rparen) as [->|Hrp].
  { destruct (negb (in_ =? 0) || (level <=? 0)); [discriminate|].
    destruct (IH _ _ _ Hin H). split; count_step. }
  assert (Hplain : forall b, V1.check_loop b rest in_ level = Some true ->
    level + occurrences Ch.lparen (c :: rest) = occurrences Ch.rparen (c :: rest) /\
    in_ + occurrences Ch.lbrack (c :: rest) = occurrences Ch.rbrack (c :: rest)).
  { intros b Hb. destruct (IH _ _ _ Hin Hb). split; count_step. }
  destruct (c =? Ch.dash); [|eauto].
  destruct (negb (in_ =? 0)); [|eauto].
  destruct (behind 0 before); [|discriminate].
  destruct (_ || _ || _); [discriminate | eauto].
Qed.

Lemma v2_check_counts rest : forall before in_ level,
  in_ = 0 \/ in_ = 1 ->
  ~ In Ch.backslash rest ->
  V2.check_loop before rest in_ level = Some true ->
  level + occurrences Ch.lparen rest = occurrences Ch.rparen rest /\
  in_ + occurrences Ch.lbrack rest = occurrences Ch.rbrack rest.
Proof.
  induction rest as [|c rest IH]; intros before in_ level Hin Hbs H.
  { cbn [V2.check_loop] in H. injection H as H. apply andb_true_iff in H.
    destruct H as [H1 H2]. apply Z.eqb_eq in H1, H2. subst. split; reflexivity. }
  assert (Hbs' : ~ In Ch.backslash rest) by (intros Hc; apply Hbs; right; exact Hc).
  assert (Hc : c <> Ch.backslash) by (intros ->; apply Hbs; left; reflexivity).
  cbn [V2.check_loop] in H.
  destruct ((c <? Ch.bang) || (c >? Ch.tilde)); [discriminate|].
  destruct (Z.eqb_spec c Ch.lbrack) as [->|Hlb].
  { destruct (Z.eqb_spec in_ 0) as [->|]; cbn [negb] in H; [|discriminate].
    destruct (IH _ _ _ (or_intror eq_refl) Hbs' H). split; count_step. }
  destruct (Z.eqb_spec c Ch.rbrack) as [->|Hrb].
  { destruct Hin as [->| ->]; [discriminate|]. change (1 =? 0) with false in H.
    destruct (V2.opens_here before) as [[|]|]; try discriminate.
    destruct (IH _ _ _ (or_introl eq_refl) Hbs' H). split; count_step. }
  destruct (Z.eqb_spec c Ch.lparen) as [->|Hlp].
  { destruct (negb (in_ =? 0)); [discriminate|].
    destruct (IH _ _ _ Hin Hbs' H). split; count_step. }
  destruct (Z.eqb_spec c Ch.rparen) as [->|Hrp].
  { destruct (negb (in_ =? 0) || (level <=? 0)); [discriminate|].
    destruct (IH _ _ _ Hin Hbs' H). split; count_step. }
  assert (Hplain : forall b, V2.check_loop b rest in_ level = Some true ->
    level + occurrences Ch.lparen (c :: rest) = occurrences Ch.rparen (c :: rest) /\
    in_ + occurrences Ch.lbrack (c :: rest) = occurrences Ch.rbrack (c :: rest)).
  { intros b Hb. destruct (IH _ _ _ Hin Hbs' Hb). split; count_step. }
  destruct (c =? Ch.dash).
  { match type of H with
    | match ?f with _ => _ end = _ => destruct f as [[|]|]; try discriminate
    end.
    destruct (behind 0 before); [|discriminate].
    match type of H with
    | (if ?b then _ else _) = _ => destruct b; [discriminate|]
    end. eauto. }
  destruct (Z.eqb_spec c Ch.backslash); [contradiction | eauto].
Qed.

(** In a pattern that check accepts, brackets and parentheses are paired:
    the pattern holds as many closing as opening parentheses and as many
    closing as opening brackets.  This holds for every pattern with the
    check of src/pwdgen.c, and for the patterns without backslash with the
    check of src/unnamed/part_000 (an escaped bracket is not counted by
    it). *)
Theorem accepted_pattern_is_balanced :
  (forall s, V1.check s = Some true ->
      occurrences Ch.lparen s = occurrences Ch.rparen s /\
      occurrences Ch.lbrack s = occurrences Ch.rbrack s) /\
  (forall s, ~ In Ch.backslash s -> V2.check s = Some true ->
      occurrences Ch.lparen s = occurrences Ch.rparen s /\
      occurrences Ch.lbrack s = occurrences Ch.rbrack s).
Proof.
  split.
  - intros s H. apply (v1_check_counts s [] 0 0); auto.
  - intros s Hbs H. apply (v2_check_counts s [] 0 0); auto.
Qed.

Lemma accepted_pattern_is_balanced_witness :
  V1.check (chars_of "(([a-f])*2x)*3") = Some true /\
  occurrences Ch.lparen (chars_of "(([a-f])*2x)*3")
  = occurrences Ch.rparen (chars_of "(([a-f])*2x)*3") /\
  occurrences Ch.lbrack (chars_of "(([a-f])*2x)*3")
  = occurrences Ch.rbrack (chars_of "(([a-f])*2x)*3").
Proof.
  split; [reflexivity|].
  apply (proj1 accepted_pattern_is_balanced). reflexivity.
Defined.

(** ** What randchar writes *)

Lemma add_char_no_nul c chars chars' :
  add_char c chars = Some chars' -> ~ In 0 chars -> ~ In 0 chars'.
Proof.
  intros H Hn Hc. apply (add_char_In _ _ _ 0 H) in Hc.
  destruct Hc as [Hc|[<- Hz]]; [contradiction | congruence].
Qed.

Lemma fill_no_nul n : forall c chars chars',
  fill n c chars = Some chars' -> ~ In 0 chars -> ~ In 0 chars'.
Proof.
  induction n as [|n IH]; cbn [fill]; intros c chars chars' H Hn.
  - now injection H as <-.
  - bind_inv H. eapply IH; [exact H|]. eapply add_char_no_nul; eauto.
Qed.

Lemma expand_no_nul fuel : forall s ipt chars j chars',
  Gen.expand fuel s ipt chars = Some (j, chars') ->
  ~ In 0 chars -> ~ In 0 chars'.
Proof.
  induction fuel as [|fuel IH]; intros s ipt chars j chars' H Hn;
    [discriminate|]. rewrite expand_step in H.
  bind_inv H. destruct (z =? Ch.rbrack).
  - now injection H as _ <-.
  - destruct (z =? Ch.dash).
    + do 4 bind_inv H. eapply IH; [exact H|]. eapply fill_no_nul; eauto.
    + cbv zeta in H. do 2 bind_inv H. eapply IH; [exact H|].
      eapply add_char_no_nul; eauto.
Qed.

Lemma emit_picks rand n : forall chars w w',
  Gen.emit (sampler rand) n chars w = Some w' ->
  exists picks,
    out w' = out w ++ picks /\ List.length picks = n /\
    Forall (fun c => In c chars) picks /\ draws w' = (draws w + n)%nat.
Proof.
  induction n as [|n IH]; intros chars w w' H; cbn [Gen.emit] in H.
  - injection H as <-. exists []. rewrite app_nil_r. repeat split; auto.
  - destruct (Gen.draw (sampler rand) chars w) as [w1|] eqn:E; [|discriminate].
    unfold Gen.draw in E.
    destruct (Nat.eqb_spec (List.length chars) 0) as [|Hlen]; [discriminate|].
    injection E as <-.
    destruct (IH _ _ _ H) as (picks & Ho & Hl & Hf & Hd). cbn [out draws] in Ho, Hd.
    exists (sampler rand (draws w) chars :: picks).
    rewrite Ho, <- app_assoc. repeat split; cbn [List.length app]; try lia.
    constructor; [|exact Hf]. unfold sampler. apply pick_In.
    intros ->. apply Hlen. reflexivity.
Qed.

Lemma randchar_picks rand s o w r w' :
  Gen.randchar (sampler rand) s o w = Some (r, w') ->
  exists j chars picks,
    Gen.expand (S (List.length s)) s o [] = Some (j, chars) /\
    NoDup chars /\ ~ In 0 chars /\
    out w' = out w ++ picks /\
    Forall (fun c => In c chars) picks /\ ~ In 0 picks /\
    draws w' = (draws w + List.length picks)%nat.
Proof.
  unfold Gen.randchar. intros H.
  destruct (Gen.expand (S (List.length s)) s o []) as [[j chars]|] eqn:E;
    [|discriminate].
  destruct (Gen.suffix s j) as [sfx|]; [|discriminate].
  destruct (match sfx with Some (n, e) => (n, e) | None => (1, j + 1) end) as [c ipt1].
  destruct (c <? 0); [discriminate|].
  destruct (Gen.emit (sampler rand) (Z.to_nat c) chars w) as [w1|] eqn:Em;
    [|discriminate].
  injection H as _ <-.
  destruct (emit_picks _ _ _ _ _ Em) as (picks & Ho & Hl & Hf & Hd).
  assert (Hnn : ~ In 0 chars) by (eapply expand_no_nul; [exact E | simpl; tauto]).
  exists j, chars, picks. split; [reflexivity|].
  split; [eapply expand_NoDup; [exact E | constructor]|].
  split; [exact Hnn|]. split; [exact Ho|]. split; [exact Hf|].
  split; [|lia].
  intros Hc. rewrite Forall_forall in Hf. apply Hnn. apply Hf. exact Hc.
Qed.

(** Whenever randchar completes, on any buffer: everything it has written is
    appended to the output, every character written is a member of the set
    that the scan of the class built, that set holds no duplicate and no NUL
    byte (so no NUL is written), and rand has been called once per character
    written. *)
Theorem randchar_draws_from_its_set rand s o w r w' :
  Gen.randchar (sampler rand) s o w = Some (r, w') ->
  exists j chars picks,
    Gen.expand (S (List.length s)) s o [] = Some (j, chars) /\
    NoDup chars /\ ~ In 0 chars /\
    out w' = out w ++ picks /\
    Forall (fun c => In c chars) picks /\ ~ In 0 picks /\
    draws w' = (draws w + List.length picks)%nat.
Proof. apply randchar_picks. Qed.

Lemma randchar_draws_from_its_set_witness :
  Gen.randchar (sampler (fun n => N.of_nat n)) (chars_of "[a-c]*2") 1 w0
    = Some (5, mkWorld (chars_of "ab") 2) /\
  exists j chars picks,
    Gen.expand (S (List.length (chars_of "[a-c]*2"))) (chars_of "[a-c]*2") 1 []
      = Some (j, chars) /\
    NoDup chars /\ ~ In 0 chars /\
    out (mkWorld (chars_of "ab") 2) = out w0 ++ picks /\
    Forall (fun c => In c chars) picks /\ ~ In 0 picks /\
    draws (mkWorld (chars_of "ab") 2) = (draws w0 + List.length picks)%nat.
Proof.
  split; [reflexivity|].
  apply (randchar_draws_from_its_set (fun n => N.of_nat n) (chars_of "[a-c]*2") 1 w0 5).
  reflexivity.
Defined.

(** On a class that check accepts (the opening bracket met outside a class,
    printable bytes behind it, the scan of check going on to accept the
    pattern), every character that randchar writes is printable. *)
Theorem validated_class_writes_printable rand before rest level w r w' :
  Forall is_printable before ->
  V2.check_loop before (Ch.lbrack :: rest) 0 level = Some true ->
  Gen.randchar (sampler rand) (rev before ++ Ch.lbrack :: rest)
               (Z.of_nat (List.length before) + 1) w = Some (r, w') ->
  exists picks, out w' = out w ++ picks /\ Forall is_printable picks.
Proof.
  intros Hb Hck H.
  destruct (validated_class before rest level Hb Hck) as (j & chars & E & _ & Hp & _).
  destruct (randchar_picks _ _ _ _ _ _ H)
    as (j' & chars' & picks & E' & _ & _ & Ho & Hf & _).
  rewrite E in E'. injection E' as <- <-.
  exists picks. split; [exact Ho|].
  rewrite Forall_forall in *. auto.
Qed.

Lemma validated_class_writes_printable_witness :
  Forall is_printable (chars_of "x") /\
  V2.check_loop (chars_of "x") (Ch.lbrack :: chars_of "a-c]*2") 0 0 = Some true /\
  exists picks,
    out (mkWorld (chars_of "ab") 2) = out w0 ++ picks /\ Forall is_printable picks.
Proof.
  assert (Hx : Forall is_printable (chars_of "x")).
  { constructor; [|constructor]. unfold is_printable, Ch.bang, Ch.tilde.
    change (char_of_ascii "x") with 120. lia. }
  split; [exact Hx|]. split; [reflexivity|].
  apply (validated_class_writes_printable (fun n => N.of_nat n) (chars_of "x")
           (chars_of "a-c]*2") 0 w0 5 (mkWorld (chars_of "ab") 2) Hx); reflexivity.
Defined.

(** ** The repetition suffix *)

(** How the count after a closing bracket or parenthesis is read.  A star
    and a run of digits with first digit 1..9 that denotes a number up to
    INT_MAX gives that number, and the offset just past the digits.  A star
    followed by the digit 0 is no suffix (the count is 1 and the star is left
    to be printed).  A run that denotes LONG_MAX or more is read as -1: strtol
    stops at LONG_MAX and the conversion to [int] keeps the low 32 bits. *)
Theorem suffix_reading :
  (forall s j ds,
      has_suffix s j ds -> decimal ds <= INT_MAX ->
      Gen.suffix s j = Some (Some (decimal ds, j + 2 + Z.of_nat (List.length ds)))) /\
  (forall s j,
      rd s (j + 1) = Some Ch.star -> rd s (j + 2) = Some Ch.zero ->
      Gen.suffix s j = Some None) /\
  (forall s j ds,
      has_suffix s j ds -> LONG_MAX <= decimal ds ->
      Gen.suffix s j = Some (Some (-1, j + 2 + Z.of_nat (List.length ds)))).
Proof.
  split; [exact suffix_of_run|]. split.
  - intros s j H1 H2. unfold Gen.suffix. rewrite H1, H2. reflexivity.
  - intros s j ds (Hj & Hlead & Hd & rest & Hs & Hr) Hmax. unfold Gen.suffix.
    rewrite (rd_skipn s (j + 1) Ch.star (ds ++ rest)) by (lia || assumption).
    rewrite Z.eqb_refl.
    destruct ds as [|d ds]; [contradiction|]. cbn [leading] in Hlead.
    assert (Hs2 : skipn (Z.to_nat (j + 2)) s = (d :: ds) ++ rest).
    { replace (Z.to_nat (j + 2)) with (S (Z.to_nat (j + 1))) by lia.
      eapply skipn_next; exact Hs. }
    rewrite (rd_skipn s (j + 2) d (ds ++ rest)) by (lia || exact Hs2).
    destruct (Z.gtb_spec d Ch.zero); [|lia].
    destruct (Z.leb_spec d Ch.nine); [|lia]. cbn [andb].
    unfold strtol. rewrite Hs2, digits_run_app by assumption.
    fold (decimal (d :: ds)). rewrite Z.min_r by exact Hmax.
    do 3 f_equal.
Qed.

Lemma suffix_reading_witness :
  has_suffix (chars_of "[a]*9223372036854775807") 2 (chars_of "9223372036854775807") /\
  Gen.suffix (chars_of "[a]*9223372036854775807") 2 = Some (Some (-1, 2 + 2 + 19)) /\
  Gen.suffix (chars_of "[a]*07") 2 = Some None.
Proof.
  assert (Hs : has_suffix (chars_of "[a]*9223372036854775807") 2
                 (chars_of "9223372036854775807")).
  { split; [lia|]. split; [change (Ch.zero < 57 <= Ch.nine); unfold Ch.zero, Ch.nine; lia|].
    split; [repeat constructor|]. exists []. split; reflexivity. }
  split; [exact Hs|]. split.
  - apply (proj2 (proj2 suffix_reading) (chars_of "[a]*9223372036854775807") 2
             (chars_of "9223372036854775807") Hs).
    vm_compute. discriminate.
  - apply (proj1 (proj2 suffix_reading)); reflexivity.
Defined.

(** ** Text outside classes and groups *)

Lemma world_eta w : mkWorld (out w) (draws w) = w.
Proof. destruct w. reflexivity. Qed.

Lemma gen_literal sample n : forall rest, (List.length rest <= n)%nat ->
  forall before txt w fuel o t tm ex,
  literal_text rest = Some txt -> (List.length rest < fuel)%nat ->
  Gen.gen_loop sample fuel (rev before ++ rest) o (Z.of_nat (List.length before))
               t tm ex w
  = Some (Z.of_nat (List.length before + List.length rest) - o,
          mkWorld (out w ++ txt) (draws w)).
Proof.
  induction n as [|n IH]; intros rest Hn before txt w fuel o t tm ex Ht Hf.
  - destruct rest; [|simpl in Hn; lia]. injection Ht as <-.
    destruct fuel as [|fuel]; [simpl in Hf; lia|]. cbn [Gen.gen_loop].
    pose proof (rd_zip_ahead before [] 0 (Nat.le_refl _)) as R.
    rewrite Z.add_0_r in R. rewrite R. cbn [ahead nth]. cbv beta match.
    change (0 =? 0) with true. cbv beta match.
    rewrite app_nil_r, world_eta, Nat.add_0_r. reflexivity.
  - destruct rest as [|c rest].
    { apply (IH [] (Nat.le_0_l _)); assumption. }
    cbn [List.length] in Hn, Hf. destruct fuel as [|fuel]; [lia|].
    cbn [Gen.gen_loop]. rewrite rd_zip_here. cbv beta match.
    cbn [literal_text] in Ht.
    destruct (Z.eqb_spec c Ch.backslash) as [->|Hbs].
    + destruct rest as [|d rest]; [discriminate|].
      destruct (Z.eqb_spec d 0) as [|Hd]; [discriminate|].
      destruct (literal_text rest) as [txt'|] eqn:Et; [|discriminate].
      injection Ht as <-. cbn [List.length] in Hn, Hf.
      change (Ch.backslash =? 0) with false.
      change (Ch.backslash =? Ch.lparen) with false.
      change (Ch.backslash =? Ch.rparen) with false.
      change (Ch.backslash =? Ch.lbrack) with false.
      change (Ch.backslash =? Ch.backslash) with true. cbv beta match.
      pose proof (rd_zip_ahead before (Ch.backslash :: d :: rest) 1 ltac:(simpl; lia)) as R.
      change (Z.of_nat 1) with 1 in R. rewrite R. cbv beta match.
      change (ahead 1 (Ch.backslash :: d :: rest)) with d.
      specialize (IH rest ltac:(lia) (d :: Ch.backslash :: before) txt'
                    (putchar d w) fuel o t tm ex Et ltac:(lia)).
      rewrite !rev_cons_app in IH. cbn [List.length] in IH.
      replace (Z.of_nat (S (S (List.length before))))
        with (Z.of_nat (List.length before) + 1 + 1) in IH by lia.
      rewrite IH. cbn [putchar out draws]. rewrite <- app_assoc. cbn [app].
      f_equal. f_equal. cbn [List.length]. lia.
    + destruct ((c =? 0) || (c =? Ch.lparen) || (c =? Ch.rparen) || (c =? Ch.lbrack))
        eqn:Hsp; [discriminate|].
      apply orb_false_iff in Hsp. destruct Hsp as [Hsp H4].
      apply orb_false_iff in Hsp. destruct Hsp as [Hsp H3].
      apply orb_false_iff in Hsp. destruct Hsp as [H1 H2].
      rewrite H1, H2, H3, H4.
      destruct (Z.eqb_spec c Ch.backslash); [contradiction|].
      destruct (literal_text rest) as [txt'|] eqn:Et; [|discriminate].
      injection Ht as <-.
      specialize (IH rest ltac:(lia) (c :: before) txt'
                    (putchar c w) fuel o t tm ex Et ltac:(lia)).
      rewrite rev_cons_app in IH. cbn [List.length] in IH.
      replace (Z.of_nat (S (List.length before)))
        with (Z.of_nat (List.length before) + 1) in IH by lia.
      rewrite IH. cbn [putchar out draws]. rewrite <- app_assoc. cbn [app].
      f_equal. f_equal. cbn [List.length]. lia.
Qed.

Lemma generate_literal sample s txt w fuel :
  literal_text s = Some txt -> (List.length s < fuel)%nat ->
  Gen.generate sample fuel s 0 w
  = Some (Z.of_nat (List.length s), mkWorld (out w ++ txt) (draws w)).
Proof.
  intros Ht Hf. unfold Gen.generate.
  pose proof (gen_literal sample _ s (le_n _) [] txt w fuel 0 0 0 0 Ht Hf) as H.
  cbn [rev app List.length Nat.add] in H. rewrite Z.sub_0_r in H. exact H.
Qed.

(** generate of src/unnamed/part_000 on a pattern without class and group:
    it writes the characters of the pattern in order, each escaped character
    without its backslash, calls rand not once, and reports the length of
    the pattern.  The empty pattern gives the empty text. *)
Theorem generate_writes_literal_text sample s txt w fuel :
  literal_text s = Some txt -> (List.length s < fuel)%nat ->
  Gen.generate sample fuel s 0 w
  = Some (Z.of_nat (List.length s), mkWorld (out w ++ txt) (draws w)).
Proof. apply generate_literal. Qed.

Lemma generate_writes_literal_text_witness :
  literal_text (chars_of "a\[b\\*-") = Some (chars_of "a[b\*-") /\
  Gen.generate (sampler (fun _ => 0%N)) 9 (chars_of "a\[b\\*-") 0 w0
  = Some (Z.of_nat (List.length (chars_of "a\[b\\*-")),
          mkWorld (out w0 ++ chars_of "a[b\*-") (draws w0)).
Proof.
  split; [reflexivity|].
  apply generate_writes_literal_text; [reflexivity | simpl; lia].
Defined.

(** ** The runs of main *)

Lemma main_loop_lines sample s txt fuel n : forall w,
  literal_text s = Some txt -> (List.length s < fuel)%nat ->
  Main.main_loop (Gen.generate sample) n fuel s w
  = Some (mkWorld (out w ++ lines n txt) (draws w)).
Proof.
  induction n as [|n IH]; intros w Ht Hf; cbn [Main.main_loop lines].
  - now rewrite app_nil_r, world_eta.
  - rewrite (generate_literal sample s txt w fuel Ht Hf).
    rewrite IH by assumption. cbn [putchar out draws].
    now rewrite <- !app_assoc.
Qed.

(** main of src/unnamed/part_000 on a pattern without class and group that
    check accepts.  The count of -t is what the [int] times holds of the
    value read by strtol: the value itself up to INT_MAX, its low 32 bits
    beyond (2 for 4294967298).  main writes the text of the pattern on one
    line when no -t option is given or when that count is 0, and on as many
    lines as the count when it is positive; it returns 0 and rand is not
    called. *)
Theorem main_writes_one_line_per_time sample s txt fuel :
  V2.check s = Some true ->
  literal_text s = Some txt -> (List.length s < fuel)%nat ->
  Gen.main sample true fuel [Main.Opt_p s]
    = Some (Main.Returned 0, mkWorld (lines 1 txt) 0) /\
  (forall n, to_int n = 0 ->
     Gen.main sample true fuel [Main.Opt_p s; Main.Opt_t n]
     = Some (Main.Returned 0, mkWorld (lines 1 txt) 0)) /\
  (forall n, 0 < to_int n ->
     Gen.main sample true fuel [Main.Opt_t n; Main.Opt_p s]
     = Some (Main.Returned 0, mkWorld (lines (Z.to_nat (to_int n)) txt) 0)) /\
  (forall n, 0 <= n <= INT_MAX -> to_int n = n) /\
  to_int 4294967298 = 2.
Proof.
  intros Hc Ht Hf. unfold Gen.main, Main.main.
  cbn [Main.getopt_loop Main.flags Main.times_arg Main.ipt_arg].
  rewrite Hc. split; [|split; [|split; [|split]]].
  - cbn -[Main.main_loop lines]. change (Pos.to_nat 1) with 1%nat.
    rewrite (main_loop_lines sample s txt fuel 1 w0 Ht Hf). reflexivity.
  - intros n Hn. rewrite Hn.
    change (Z.land (Z.lor (Z.lor 0 Main.FLAG_DEFINITION) Main.FLAG_TIME)
                   Main.FLAG_DEFINITION =? 0) with false.
    change (0 =? 0) with true. rewrite orb_true_r.
    cbv beta match zeta. cbn [negb].
    change (1 <? 0) with false. change (Z.to_nat 1) with 1%nat. cbv beta match.
    rewrite (main_loop_lines sample s txt fuel 1 w0 Ht Hf). reflexivity.
  - intros n Hn.
    change (Z.land (Z.lor (Z.lor 0 Main.FLAG_TIME) Main.FLAG_DEFINITION)
                   Main.FLAG_DEFINITION =? 0) with false.
    change (Z.land (Z.lor (Z.lor 0 Main.FLAG_TIME) Main.FLAG_DEFINITION)
                   Main.FLAG_TIME =? 0) with false.
    cbv beta match zeta. cbn [orb negb].
    destruct (Z.eqb_spec (to_int n) 0); [lia|].
    destruct (Z.ltb_spec (to_int n) 0); [lia|].
    rewrite (main_loop_lines sample s txt fuel (Z.to_nat (to_int n)) w0 Ht Hf).
    reflexivity.
  - intros n Hn. rewrite <- (to_int_small n Hn) at 2.
    rewrite Z.min_l; [reflexivity|]. unfold INT_MAX, LONG_MAX in *. lia.
  - reflexivity.
Qed.

Lemma main_writes_one_line_per_time_witness :
  V2.check (chars_of "a\(b") = Some true /\
  literal_text (chars_of "a\(b") = Some (chars_of "a(b") /\
  Gen.main (sampler (fun _ => 0%N)) true 5
           [Main.Opt_t 4294967298; Main.Opt_p (chars_of "a\(b")]
    = Some (Main.Returned 0, mkWorld (lines 2 (chars_of "a(b")) 0).
Proof.
  split; [reflexivity|]. split; [reflexivity|].
  apply (proj1 (proj2 (proj2
           (main_writes_one_line_per_time (sampler (fun _ => 0%N)) (chars_of "a\(b")
              (chars_of "a(b") 5 eq_refl eq_refl ltac:(simpl; lia)))) 4294967298).
  reflexivity.
Defined.

(** main of src/unnamed/part_000 when /dev/urandom cannot be opened: with a
    pattern that check accepts, init_random ends the process with status
    EXIT_FAILURE before anything is generated, and nothing has been written
    to the standard output. *)
Theorem main_exits_without_seed sample fuel os :
  existsb is_p os = true ->
  V2.check (Main.ipt_arg (parse os)) = Some true ->
  Gen.main sample false fuel os = Some (Main.Exited 1, w0).
Proof.
  intros Hp Hc. unfold Gen.main, Main.main. fold (parse os).
  rewrite parse_flag, Hp, Hc. reflexivity.
Qed.

Lemma main_exits_without_seed_witness :
  Gen.main (sampler (fun _ => 0%N)) false 9
           [Main.Opt_p (chars_of "[a-z]*8"); Main.Opt_t 4]
  = Some (Main.Exited 1, w0).
Proof.
  apply main_exits_without_seed; reflexivity.
Defined.

(** ** A group without count *)

Section GroupOnce.

Variable sample : nat -> list Z -> Z.
Variables (s : list Z) (o j : Z).
(** A group opens in front of [o] and its closing parenthesis, at [j], is
    followed by no count. *)
Hypothesis Hopen : rd s (o - 1) = Some Ch.lparen.
Hypothesis Hclose : rd s j = Some Ch.rparen.
Hypothesis Hnone : Gen.suffix s j = Some None.
Variable body : world -> world.
Variables cost need : nat.

Lemma group_once_resumes_after
  (Hbody : forall f t tm ex w, (need <= f)%nat ->
     Gen.gen_loop sample (cost + f) s o o t tm ex w
     = Gen.gen_loop sample f s o j t tm ex (body w)) :
  forall o' t tm ex w f, (need <= f)%nat ->
  Gen.gen_loop sample (S (cost + S f)) s o' (o - 1) t tm ex w
  = Gen.gen_loop sample (cost + S f) s o' (j + 1) t tm ex (body w).
Proof.
  intros o' t tm ex w f Hf. cbn [Gen.gen_loop]. rewrite Hopen. cbv beta match.
  change (Ch.lparen =? 0) with false. change (Ch.lparen =? Ch.lparen) with true.
  cbv beta match. replace (o - 1 + 1) with o by lia.
  rewrite Hbody by lia. cbn [Gen.gen_loop]. rewrite Hclose. cbv beta match.
  change (Ch.rparen =? 0) with false. change (Ch.rparen =? Ch.lparen) with false.
  change (Ch.rparen =? Ch.rparen) with true. change (0 =? 0) with true.
  cbv beta match. rewrite Hnone. cbv beta match.
  replace (o + (j + 1 - o - 1) + 1) with (j + 1) by lia. reflexivity.
Qed.

Lemma group_once_skips_a_byte
  (Hbody : forall f t tm ex w, (need <= f)%nat ->
     Gen1.gen_loop sample (cost + f) s o o t tm ex w
     = Gen1.gen_loop sample f s o j t tm ex (body w)) :
  forall o' t tm ex w f, (need <= f)%nat ->
  Gen1.gen_loop sample (S (cost + S f)) s o' (o - 1) t tm ex w
  = Gen1.gen_loop sample (cost + S f) s o' (j + 2) t tm ex (body w).
Proof.
  intros o' t tm ex w f Hf. cbn [Gen1.gen_loop]. rewrite Hopen. cbv beta match.
  change (Ch.lparen =? 0) with false. change (Ch.lparen =? Ch.lparen) with true.
  cbv beta match. replace (o - 1 + 1) with o by lia.
  rewrite Hbody by lia. cbn [Gen1.gen_loop]. rewrite Hclose. cbv beta match.
  change (Ch.rparen =? 0) with false. change (Ch.rparen =? Ch.lparen) with false.
  change (Ch.rparen =? Ch.rparen) with true. change (0 =? 0) with true.
  cbv beta match. rewrite Hnone. cbv beta match.
  replace (o + (j + 1 - o) + 1) with (j + 2) by lia. reflexivity.
Qed.

End GroupOnce.

(** After a group without count, whose body has been executed once, the
    caller of generate goes on right behind the closing parenthesis in
    src/unnamed/part_000, and one byte further in src/pwdgen.c, where the
    byte that follows the parenthesis is passed over: there (a)b writes a
    alone, and a pattern that ends with such a group is read past its
    terminator. *)
Theorem group_without_count_resumes :
  (forall sample s o j (body : world -> world) cost need,
      rd s (o - 1) = Some Ch.lparen -> rd s j = Some Ch.rparen ->
      Gen.suffix s j = Some None ->
      (forall f t tm ex w, (need <= f)%nat ->
          Gen.gen_loop sample (cost + f) s o o t tm ex w
          = Gen.gen_loop sample f s o j t tm ex (body w)) ->
      forall o' t tm ex w f, (need <= f)%nat ->
        Gen.gen_loop sample (S (cost + S f)) s o' (o - 1) t tm ex w
        = Gen.gen_loop sample (cost + S f) s o' (j + 1) t tm ex (body w)) /\
  (forall sample s o j (body : world -> world) cost need,
      rd s (o - 1) = Some Ch.lparen -> rd s j = Some Ch.rparen ->
      Gen.suffix s j = Some None ->
      (forall f t tm ex w, (need <= f)%nat ->
          Gen1.gen_loop sample (cost + f) s o o t tm ex w
          = Gen1.gen_loop sample f s o j t tm ex (body w)) ->
      forall o' t tm ex w f, (need <= f)%nat ->
        Gen1.gen_loop sample (S (cost + S f)) s o' (o - 1) t tm ex w
        = Gen1.gen_loop sample (cost + S f) s o' (j + 2) t tm ex (body w)) /\
  (forall sample k,
      Gen.generate sample (4 + k) (chars_of "(a)b") 0 w0
        = Some (4, mkWorld (chars_of "ab") 0) /\
      Gen1.generate sample (4 + k) (chars_of "(a)b") 0 w0
        = Some (4, mkWorld (chars_of "a") 0)) /\
  (forall sample fuel, Gen1.generate sample fuel (chars_of "(a)") 0 w0 = None).
Proof.
  split; [|split; [|split]].
  - intros. now apply group_once_resumes_after with (need := need).
  - intros. now apply group_once_skips_a_byte with (need := need).
  - intros sample k. split.
    + apply generate_mono with (fuel := 4%nat); [reflexivity|lia].
    + unfold Gen1.generate. apply gen1_loop_mono with (fuel := 4%nat); [reflexivity|lia].
  - intros sample fuel. unfold Gen1.generate.
    destruct fuel as [|[|[|[|fuel]]]]; reflexivity.
Qed.

Lemma group_without_count_resumes_witness :
  Gen1.gen_loop (sampler (fun _ => 0%N)) (S (1 + S 1)) (chars_of "x(a)bc") 0 (2 - 1) 0 0 0 w0
  = Gen1.gen_loop (sampler (fun _ => 0%N)) (1 + S 1) (chars_of "x(a)bc") 0 (3 + 2) 0 0 0
                  (putchar 97 w0) /\
  Gen.gen_loop (sampler (fun _ => 0%N)) (S (1 + S 1)) (chars_of "x(a)bc") 0 (2 - 1) 0 0 0 w0
  = Gen.gen_loop (sampler (fun _ => 0%N)) (1 + S 1) (chars_of "x(a)bc") 0 (3 + 1) 0 0 0
                 (putchar 97 w0).
Proof.
  split.
  - apply (proj1 (proj2 group_without_count_resumes) (sampler (fun _ => 0%N))
             (chars_of "x(a)bc") 2 3 (putchar 97) 1%nat 0%nat);
      [reflexivity | reflexivity | reflexivity
      | intros f t tm ex w _; reflexivity | lia].
  - apply (proj1 group_without_count_resumes (sampler (fun _ => 0%N))
             (chars_of "x(a)bc") 2 3 (putchar 97) 1%nat 0%nat);
      [reflexivity | reflexivity | reflexivity
      | intros f t tm ex w _; reflexivity | lia].
Defined.

(** ** The generator of src/pwdgen.c *)

Lemma expand1_step fuel s ipt chars :
  Gen1.expand (S fuel) s ipt chars
  = (c <- rd s ipt ;;
     if c =? Ch.rbrack then Some (ipt, chars)
     else if c =? Ch.dash then
       p <- rd s (ipt - 1) ;;
       end_ <- rd s (ipt + 1) ;;
       chars' <- fill (Z.to_nat (end_ + 1 - (p + 1))) (p + 1) chars ;;
       Gen1.expand fuel s (ipt + 1 + 1) chars'
     else
       chars' <- add_char c chars ;;
       Gen1.expand fuel s (ipt + 1) chars').
Proof. reflexivity. Qed.

Lemma expand1_set fuel : forall s ipt chars j chars',
  Gen1.expand fuel s ipt chars = Some (j, chars') ->
  (NoDup chars -> NoDup chars') /\ (~ In 0 chars -> ~ In 0 chars') /\
  incl chars chars' /\ rd s j = Some Ch.rbrack.
Proof.
  induction fuel as [|fuel IH]; intros s ipt chars j chars' H; [discriminate|].
  rewrite expand1_step in H. bind_inv H.
  destruct (Z.eqb_spec z Ch.rbrack) as [->|_].
  - injection H as <- <-. repeat split; auto using incl_refl.
  - destruct (z =? Ch.dash).
    + do 3 bind_inv H. destruct (IH _ _ _ _ _ H) as (H1 & H2 & H3 & H4).
      repeat split; auto.
      * intros ND. apply H1. eapply fill_NoDup; eauto.
      * intros Hn. apply H2. eapply fill_no_nul; eauto.
      * eapply incl_tran; [eapply fill_incl; eauto | exact H3].
    + bind_inv H. destruct (IH _ _ _ _ _ H) as (H1 & H2 & H3 & H4).
      repeat split; auto.
      * intros ND. apply H1. eapply add_char_NoDup; eauto.
      * intros Hn. apply H2. eapply add_char_no_nul; eauto.
      * eapply incl_tran; [eapply add_char_incl; eauto | exact H3].
Qed.

(** randchar of src/pwdgen.c: whenever the scan of a class completes, it has
    stopped on a closing bracket and the set it built holds no duplicate and
    no NUL byte.  At the dash of a range whose start [A] is in the set, one
    iteration enters every character from [A] to the end [B], the end
    included, and steps over [B]: the scan goes on two bytes further with
    exactly the characters of [A..B] added. *)
Theorem v1_randchar_set :
  (forall fuel s ipt j chars,
      Gen1.expand fuel s ipt [] = Some (j, chars) ->
      NoDup chars /\ ~ In 0 chars /\ rd s j = Some Ch.rbrack) /\
  (forall fuel s i chars A B,
      rd s (i - 1) = Some A -> rd s i = Some Ch.dash -> rd s (i + 1) = Some B ->
      In A chars -> NoDup chars -> Forall is_printable chars ->
      is_printable B -> A <= B ->
      exists chars',
        Gen1.expand (S fuel) s i chars = Gen1.expand fuel s (i + 2) chars' /\
        forall c, In c chars' <-> In c chars \/ A <= c <= B).
Proof.
  split.
  - intros fuel s ipt j chars H.
    destruct (expand1_set _ _ _ _ _ _ H) as (H1 & H2 & _ & H4).
    split; [apply H1; constructor|]. split; [apply H2; simpl; tauto | exact H4].
  - intros fuel s i chars A B HA Hd HB HinA ND Hp HpB HAB.
    assert (HpA : is_printable A) by (rewrite Forall_forall in Hp; auto).
    unfold is_printable, Ch.bang, Ch.tilde in HpA, HpB.
    destruct (fill_printable (Z.to_nat (B + 1 - (A + 1))) (A + 1) chars ND Hp)
      as (chars1 & Hfill & _ & _); [unfold Ch.bang; lia | unfold Ch.tilde; lia|].
    exists chars1. split.
    + rewrite expand1_step, Hd. cbv beta match.
      change (Ch.dash =? Ch.rbrack) with false. change (Ch.dash =? Ch.dash) with true.
      cbv beta match. rewrite HA, HB. cbv beta match. rewrite Hfill.
      replace (i + 1 + 1) with (i + 2) by lia. reflexivity.
    + intros c. rewrite (fill_In _ (A + 1) _ _ c ltac:(lia) Hfill). split.
      * intros [?|?]; [auto | right; lia].
      * intros [?|?]; [auto|].
        destruct (Z.eq_dec c A) as [->|]; [auto | right; lia].
Qed.

Lemma v1_randchar_set_witness :
  (NoDup (chars_of "abcd") /\ ~ In 0 (chars_of "abcd") /\
   rd (chars_of "[a-dc]") 5 = Some Ch.rbrack) /\
  exists chars',
    Gen1.expand (S 2) (chars_of "[a-dc]") 2 (chars_of "a")
    = Gen1.expand 2 (chars_of "[a-dc]") (2 + 2) chars' /\
    forall c, In c chars' <-> In c (chars_of "a") \/ 97 <= c <= 100.
Proof.
  split.
  - apply (proj1 v1_randchar_set 7%nat (chars_of "[a-dc]") 1). reflexivity.
  - apply (proj2 v1_randchar_set 2%nat (chars_of "[a-dc]") 2 (chars_of "a") 97 100).
    + reflexivity.
    + reflexivity.
    + reflexivity.
    + simpl. auto.
    + constructor; [simpl; tauto | constructor].
    + constructor; [unfold is_printable, Ch.bang, Ch.tilde;
                    change (char_of_ascii "a") with 97; lia | constructor].
    + unfold is_printable, Ch.bang, Ch.tilde. lia.
    + lia.
Defined.

Lemma gen1_plain sample rest : forall before w fuel o t tm ex,
  Forall (fun c => c <> 0 /\ c <> Ch.lparen /\ c <> Ch.rparen /\ c <> Ch.lbrack) rest ->
  (List.length rest < fuel)%nat ->
  Gen1.gen_loop sample fuel (rev before ++ rest) o (Z.of_nat (List.length before))
                t tm ex w
  = Some (Z.of_nat (List.length before + List.length rest) - o,
          mkWorld (out w ++ rest) (draws w)).
Proof.
  induction rest as [|c rest IH]; intros before w fuel o t tm ex Hpl Hf.
  - destruct fuel as [|fuel]; [simpl in Hf; lia|]. cbn [Gen1.gen_loop].
    pose proof (rd_zip_ahead before [] 0 (Nat.le_refl _)) as R.
    rewrite Z.add_0_r in R. rewrite R. cbn [ahead nth]. cbv beta match.
    change (0 =? 0) with true. cbv beta match.
    rewrite app_nil_r, world_eta, Nat.add_0_r. reflexivity.
  - cbn [List.length] in Hf. destruct fuel as [|fuel]; [lia|].
    inversion Hpl as [|? ? (H0 & H1 & H2 & H3) Hpl']; subst.
    cbn [Gen1.gen_loop]. rewrite rd_zip_here. cbv beta match.
    destruct (Z.eqb_spec c 0); [contradiction|].
    destruct (Z.eqb_spec c Ch.lparen); [contradiction|].
    destruct (Z.eqb_spec c Ch.rparen); [contradiction|].
    destruct (Z.eqb_spec c Ch.lbrack); [contradiction|].
    specialize (IH (c :: before) (putchar c w) fuel o t tm ex Hpl' ltac:(lia)).
    rewrite rev_cons_app in IH. cbn [List.length] in IH.
    replace (Z.of_nat (S (List.length before)))
      with (Z.of_nat (List.length before) + 1) in IH by lia.
    rewrite IH. cbn [putchar out draws]. rewrite <- app_assoc. cbn [app].
    f_equal. f_equal. cbn [List.length]. lia.
Qed.

Lemma generate1_plain sample s w fuel :
  Forall (fun c => c <> 0 /\ c <> Ch.lparen /\ c <> Ch.rparen /\ c <> Ch.lbrack) s ->
  (List.length s < fuel)%nat ->
  Gen1.generate sample fuel s 0 w
  = Some (Z.of_nat (List.length s), mkWorld (out w ++ s) (draws w)).
Proof.
  intros Hpl Hf. unfold Gen1.generate.
  pose proof (gen1_plain sample s [] w fuel 0 0 0 0 Hpl Hf) as H.
  cbn [rev app List.length Nat.add] in H. rewrite Z.sub_0_r in H. exact H.
Qed.

(** generate of src/pwdgen.c on a pattern that holds no bracket and no
    parenthesis: it writes the pattern as it is, a backslash like any other
    character (this source has no escape), and calls rand not once. *)
Theorem v1_generate_writes_plain_pattern sample s w fuel :
  Forall (fun c => c <> 0 /\ c <> Ch.lparen /\ c <> Ch.rparen /\ c <> Ch.lbrack) s ->
  (List.length s < fuel)%nat ->
  Gen1.generate sample fuel s 0 w
  = Some (Z.of_nat (List.length s), mkWorld (out w ++ s) (draws w)).
Proof. apply generate1_plain. Qed.

Lemma v1_generate_writes_plain_pattern_witness :
  Gen1.generate (sampler (fun _ => 0%N)) 5 (chars_of "a\b]") 0 w0
  = Some (Z.of_nat (List.length (chars_of "a\b]")),
          mkWorld (out w0 ++ chars_of "a\b]") (draws w0)).
Proof.
  apply v1_generate_writes_plain_pattern; [|simpl; lia].
  repeat constructor; vm_compute; discriminate.
Defined.

(** ** What generate leaves in place *)

Lemma extends_refl w : extends w w.
Proof. exists []. rewrite app_nil_r. split; [reflexivity | simpl; lia]. Qed.

Lemma extends_trans w1 w2 w3 : extends w1 w2 -> extends w2 w3 -> extends w1 w3.
Proof.
  intros (t1 & H1 & D1) (t2 & H2 & D2). exists (t1 ++ t2).
  rewrite H2, H1, app_assoc, length_app. split; [reflexivity | lia].
Qed.

Lemma extends_putchar c w : extends w (putchar c w).
Proof. exists [c]. cbn [putchar out draws List.length]. split; [reflexivity | lia]. Qed.

Lemma emit_extends sample n : forall chars w w',
  Gen.emit sample n chars w = Some w' -> extends w w'.
Proof.
  induction n as [|n IH]; intros chars w w' H; cbn [Gen.emit] in H.
  - injection H as <-. apply extends_refl.
  - destruct (Gen.draw sample chars w) as [w1|] eqn:E; [|discriminate].
    apply IH in H. eapply extends_trans; [|exact H].
    unfold Gen.draw in E. destruct (_ =? _)%nat; [discriminate|].
    injection E as <-. eexists. cbn [out draws]. split; [reflexivity|].
    cbn [List.length]. lia.
Qed.

Lemma randchar_extends sample s o w r w' :
  Gen.randchar sample s o w = Some (r, w') -> extends w w'.
Proof.
  unfold Gen.randchar. intros H.
  destruct (Gen.expand _ s o []) as [[j chars]|]; [|discriminate].
  destruct (Gen.suffix s j) as [sfx|]; [|discriminate].
  destruct (match sfx with Some (n, e) => (n, e) | None => (1, j + 1) end) as [c ipt1].
  destruct (c <? 0); [discriminate|].
  destruct (Gen.emit sample (Z.to_nat c) chars w) as [w1|] eqn:Em; [|discriminate].
  injection H as _ <-. eapply emit_extends; exact Em.
Qed.

Lemma gen_loop_extends sample fuel : forall s o i t tm ex w r w',
  Gen.gen_loop sample fuel s o i t tm ex w = Some (r, w') -> extends w w'.
Proof.
  induction fuel as [|fuel IH]; intros s o i t tm ex w r w' H; [discriminate|].
  cbn [Gen.gen_loop] in H.
  destruct (rd s i) as [c|]; [|discriminate].
  destruct (c =? 0); [injection H as _ <-; apply extends_refl|].
  destruct (c =? Ch.lparen).
  { destruct (Gen.gen_loop sample fuel s (i + 1) (i + 1) 0 0 0 w) as [[r1 w1]|] eqn:E;
      [|discriminate].
    eapply extends_trans; [eapply IH; exact E | eapply IH; exact H]. }
  destruct (c =? Ch.rparen).
  { destruct (tm =? 0).
    - destruct (Gen.suffix s i) as [[[n e]|]|]; try discriminate.
      + destruct (t + 1 <? n); [eapply IH; exact H|].
        injection H as _ <-. apply extends_refl.
      + injection H as _ <-. apply extends_refl.
    - destruct (t + 1 <? tm); [eapply IH; exact H|].
      injection H as _ <-. apply extends_refl. }
  destruct (c =? Ch.lbrack).
  { destruct (Gen.randchar sample s (i + 1) w) as [[r1 w1]|] eqn:E; [|discriminate].
    eapply extends_trans; [eapply randchar_extends; exact E | eapply IH; exact H]. }
  destruct (c =? Ch.backslash).
  { destruct (rd s (i + 1)) as [c'|]; [|discriminate].
    eapply extends_trans; [apply extends_putchar | eapply IH; exact H]. }
  eapply extends_trans; [apply extends_putchar | eapply IH; exact H].
Qed.

(** generate of src/unnamed/part_000 only appends: whatever the pattern,
    validated or not, when a call completes the output written before it is
    still there, followed by what the call wrote, and rand has been called
    at most once per character written (never for a literal, a group or a
    count by itself). *)
Theorem generate_only_appends sample fuel s i w r w' :
  Gen.generate sample fuel s i w = Some (r, w') ->
  exists txt, out w' = out w ++ txt /\
              (draws w <= draws w' <= draws w + List.length txt)%nat.
Proof. unfold Gen.generate. apply gen_loop_extends. Qed.

Lemma generate_only_appends_witness :
  Gen.generate (sampler (fun n => N.of_nat n)) 9 (chars_of "x([ab]y)*2")
               0 (mkWorld (chars_of "old") 7)
  = Some (10, mkWorld (chars_of "oldxbyay") 9) /\
  exists txt, out (mkWorld (chars_of "oldxbyay") 9) = out (mkWorld (chars_of "old") 7) ++ txt /\
              (draws (mkWorld (chars_of "old") 7) <= draws (mkWorld (chars_of "oldxbyay") 9)
               <= draws (mkWorld (chars_of "old") 7) + List.length txt)%nat.
Proof.
  split; [reflexivity|].
  apply (generate_only_appends (sampler (fun n => N.of_nat n)) 9
           (chars_of "x([ab]y)*2") 0 (mkWorld (chars_of "old") 7) 10).
  reflexivity.
Defined.

(** ** Plain patterns *)

Lemma v2_check_plain rest : forall before level,
  Forall is_printable rest ->
  Forall (fun c => c <> Ch.lbrack /\ c <> Ch.rbrack /\ c <> Ch.lparen /\
                   c <> Ch.rparen /\ c <> Ch.dash /\ c <> Ch.backslash) rest ->
  V2.check_loop before rest 0 level = Some (level =? 0).
Proof.
  induction rest as [|c rest IH]; intros before level Hp Hs; [reflexivity|].
  inversion Hp as [|? ? Hc Hp']; subst.
  inversion Hs as [|? ? (H1 & H2 & H3 & H4 & H5 & H6) Hs']; subst.
  cbn [V2.check_loop].
  unfold is_printable in Hc.
  destruct (Z.ltb_spec c Ch.bang); [lia|].
  destruct (Z.gtb_spec c Ch.tilde); [lia|]. cbn [orb].
  destruct (Z.eqb_spec c Ch.lbrack); [contradiction|].
  destruct (Z.eqb_spec c Ch.rbrack); [contradiction|].
  destruct (Z.eqb_spec c Ch.lparen); [contradiction|].
  destruct (Z.eqb_spec c Ch.rparen); [contradiction|].
  destruct (Z.eqb_spec c Ch.dash); [contradiction|].
  destruct (Z.eqb_spec c Ch.backslash); [contradiction|].
  apply IH; assumption.
Qed.

Lemma v1_check_plain rest : forall before level,
  Forall is_printable rest ->
  Forall (fun c => c <> Ch.lbrack /\ c <> Ch.rbrack /\ c <> Ch.lparen /\
                   c <> Ch.rparen /\ c <> Ch.dash /\ c <> Ch.backslash) rest ->
  V1.check_loop before rest 0 level = Some (level =? 0).
Proof.
  induction rest as [|c rest IH]; intros before level Hp Hs; [reflexivity|].
  inversion Hp as [|? ? Hc Hp']; subst.
  inversion Hs as [|? ? (H1 & H2 & H3 & H4 & H5 & H6) Hs']; subst.
  cbn [V1.check_loop].
  unfold is_printable in Hc.
  destruct (Z.ltb_spec c Ch.bang); [lia|].
  destruct (Z.gtb_spec c Ch.tilde); [lia|]. cbn [orb].
  destruct (Z.eqb_spec c Ch.lbrack); [contradiction|].
  destruct (Z.eqb_spec c Ch.rbrack); [contradiction|].
  destruct (Z.eqb_spec c Ch.lparen); [contradiction|].
  destruct (Z.eqb_spec c Ch.rparen); [contradiction|].
  destruct (Z.eqb_spec c Ch.dash); [contradiction|].
  apply IH; assumption.
Qed.

(** A pattern of printable characters none of which is a bracket, a
    parenthesis, a dash or a backslash is accepted by check in either
    source, and both generators write it as it is: such a pattern stands
    for itself. *)
Theorem plain_pattern_stands_for_itself (v : variant) sample s w fuel :
  Forall is_printable s ->
  Forall (fun c => c <> Ch.lbrack /\ c <> Ch.rbrack /\ c <> Ch.lparen /\
                   c <> Ch.rparen /\ c <> Ch.dash /\ c <> Ch.backslash) s ->
  (List.length s < fuel)%nat ->
  check_of v s = Some true /\
  Gen.generate sample fuel s 0 w
    = Some (Z.of_nat (List.length s), mkWorld (out w ++ s) (draws w)) /\
  Gen1.generate sample fuel s 0 w
    = Some (Z.of_nat (List.length s), mkWorld (out w ++ s) (draws w)).
Proof.
  intros Hp Hs Hf. split; [|split].
  - destruct v; cbn [check_of]; unfold V1.check, V2.check;
      [rewrite v1_check_plain | rewrite v2_check_plain]; auto.
  - apply generate_literal; [|exact Hf].
    clear Hf. induction s as [|c s IH]; [reflexivity|].
    inversion Hp as [|? ? Hc Hp']; subst.
    inversion Hs as [|? ? (H1 & H2 & H3 & H4 & H5 & H6) Hs']; subst.
    cbn [literal_text]. unfold is_printable, Ch.bang in Hc.
    destruct (Z.eqb_spec c Ch.backslash); [contradiction|].
    destruct (Z.eqb_spec c 0); [lia|].
    destruct (Z.eqb_spec c Ch.lparen); [contradiction|].
    destruct (Z.eqb_spec c Ch.rparen); [contradiction|].
    destruct (Z.eqb_spec c Ch.lbrack); [contradiction|].
    cbn [orb]. now rewrite (IH Hp' Hs').
  - apply generate1_plain; [|exact Hf].
    rewrite Forall_forall in *. intros c Hc.
    specialize (Hp c Hc). specialize (Hs c Hc). unfold is_printable, Ch.bang in Hp.
    repeat split; try tauto. lia.
Qed.

Lemma plain_pattern_stands_for_itself_witness :
  check_of Original (chars_of "pass*0rd!") = Some true /\
  Gen.generate (sampler (fun _ => 0%N)) 10 (chars_of "pass*0rd!") 0 w0
    = Some (Z.of_nat (List.length (chars_of "pass*0rd!")),
            mkWorld (out w0 ++ chars_of "pass*0rd!") (draws w0)) /\
  Gen1.generate (sampler (fun _ => 0%N)) 10 (chars_of "pass*0rd!") 0 w0
    = Some (Z.of_nat (List.length (chars_of "pass*0rd!")),
            mkWorld (out w0 ++ chars_of "pass*0rd!") (draws w0)).
Proof.
  apply (plain_pattern_stands_for_itself Original).
  - repeat constructor; vm_compute; discriminate.
  - repeat constructor; vm_compute; discriminate.
  - simpl. lia.
Defined.

(** ** A class followed by text *)

(** A pattern made of one class and then text without class and group: when
    the closing bracket is followed by no count (also when it is followed by
    a star and the digit 0, which are then text), generate writes one
    character drawn from the set of the class and then the text. *)
Theorem class_then_text rand s j chars rest txt w fuel :
  rd s 0 = Some Ch.lbrack ->
  Gen.expand (S (List.length s)) s 1 [] = Some (j, chars) -> chars <> [] ->
  Gen.suffix s j = Some None ->
  skipn (Z.to_nat (j + 1)) s = rest -> literal_text rest = Some txt ->
  (List.length s + 1 < fuel)%nat ->
  Gen.generate (sampler rand) fuel s 0 w
  = Some (Z.of_nat (List.length s),
          mkWorld (out w ++ pick (rand (draws w)) chars :: txt) (S (draws w))).
Proof.
  intros Hopen Hex Hne Hsfx Hrest Htxt Hf.
  pose proof (expand_stops _ _ _ _ _ _ Hex) as Hj.
  pose proof (rd_bounds _ _ _ Hj) as Hjb.
  pose proof (rd_nonzero_inside _ _ _ Hj ltac:(discriminate)) as Hjl.
  destruct fuel as [|fuel]; [lia|].
  unfold Gen.generate. cbn [Gen.gen_loop]. rewrite Hopen. cbv beta match.
  change (Ch.lbrack =? 0) with false. change (Ch.lbrack =? Ch.lparen) with false.
  change (Ch.lbrack =? Ch.rparen) with false. change (Ch.lbrack =? Ch.lbrack) with true.
  cbv beta match. unfold Gen.randchar. change (0 + 1) with 1. rewrite Hex.
  cbv beta match. rewrite Hsfx. cbv beta match.
  change (1 <? 0) with false. change (Z.to_nat 1) with 1%nat. cbv beta match.
  cbn [Gen.emit]. unfold Gen.draw.
  destruct (Nat.eqb_spec (List.length chars) 0) as [E|_].
  { destruct chars; [congruence | discriminate]. }
  cbv beta match.
  remember (rev (firstn (Z.to_nat (j + 1)) s)) as before eqn:Hbefore.
  assert (Hs : rev before ++ rest = s).
  { subst before. rewrite rev_involutive, <- Hrest. apply firstn_skipn. }
  assert (Hlen : Z.of_nat (List.length before) = j + 1).
  { subst before. rewrite length_rev, firstn_length_le by lia. lia. }
  assert (Hrl : (List.length before + List.length rest = List.length s)%nat).
  { rewrite <- (length_rev before), <- length_app, Hs. reflexivity. }
  replace (1 + (j + 1 - 1 - 1) + 1) with (Z.of_nat (List.length before)) by lia.
  pose proof (gen_literal (sampler rand) _ rest (le_n _) before txt
                (mkWorld (out w ++ [sampler rand (draws w) chars]) (S (draws w)))
                fuel 0 0 0 0 Htxt ltac:(lia)) as G.
  rewrite Hs, Hrl in G. rewrite G.
  cbn [out draws]. rewrite <- app_assoc. cbn [app]. rewrite Z.sub_0_r. reflexivity.
Qed.

Lemma class_then_text_witness :
  Gen.generate (sampler (fun _ => 1%N)) 9 (chars_of "[ab]*0z") 0 w0
  = Some (Z.of_nat (List.length (chars_of "[ab]*0z")),
          mkWorld (out w0 ++ pick 1%N (chars_of "ab") :: chars_of "*0z") (S (draws w0))).
Proof.
  apply (class_then_text (fun _ => 1%N) (chars_of "[ab]*0z") 3 (chars_of "ab")
           (chars_of "*0z") (chars_of "*0z") w0 9);
    try reflexivity; try discriminate. simpl. lia.
Defined.

(** * The rules of check, and generate on what check accepts *)

(** ** The rules of check for ranges and escapes *)

Lemma printable_test_false c :
  is_printable c -> (c <? Ch.bang) || (c >? Ch.tilde) = false.
Proof.
  unfold is_printable. intros H.
  destruct (Z.ltb_spec c Ch.bang); [lia|].
  destruct (Z.gtb_spec c Ch.tilde); [lia|]. reflexivity.
Qed.

(** check steps over an ordinary character. *)
Lemma check_ordinary_step c before rest in_ level :
  is_printable c -> ordinary c ->
  V2.check_loop before (c :: rest) in_ level
  = V2.check_loop (c :: before) rest in_ level.
Proof.
  intros Hp (H1 & H2 & H3 & H4 & H5 & H6). cbn [V2.check_loop].
  rewrite (printable_test_false c Hp).
  destruct (Z.eqb_spec c Ch.lbrack); [contradiction|].
  destruct (Z.eqb_spec c Ch.rbrack); [contradiction|].
  destruct (Z.eqb_spec c Ch.lparen); [contradiction|].
  destruct (Z.eqb_spec c Ch.rparen); [contradiction|].
  destruct (Z.eqb_spec c Ch.dash); [contradiction|].
  destruct (Z.eqb_spec c Ch.backslash); [contradiction|]. reflexivity.
Qed.

Lemma check_dash_descending p t rest in_ level :
  range_end rest < p ->
  V2.check_loop (p :: t) (Ch.dash :: rest) in_ level = Some false.
Proof.
  intros He. cbn [V2.check_loop].
  change ((Ch.dash <? Ch.bang) || (Ch.dash >? Ch.tilde)) with false.
  change (Ch.dash =? Ch.lbrack) with false. change (Ch.dash =? Ch.rbrack) with false.
  change (Ch.dash =? Ch.lparen) with false. change (Ch.dash =? Ch.rparen) with false.
  change (Ch.dash =? Ch.dash) with true. cbv beta match zeta.
  cbn [behind nth_error].
  change (ahead 1 (Ch.dash :: rest)) with (ahead 0 rest).
  change (ahead 2 (Ch.dash :: rest)) with (ahead 1 rest).
  fold (range_end rest).
  destruct (Z.ltb_spec (range_end rest) p) as [_|]; [|lia].
  destruct (in_ =? 0); [reflexivity|].
  pose proof (opens_here_defined p t) as Hd.
  destruct (V2.opens_here (p :: t)) as [[|]|]; [reflexivity | | contradiction].
  destruct (ahead 0 rest =? Ch.rbrack); reflexivity.
Qed.

Lemma check_dash_ascending p t rest level :
  p <> Ch.lbrack -> ahead 0 rest <> Ch.rbrack -> p <= range_end rest ->
  V2.check_loop (p :: t) (Ch.dash :: rest) 1 level
  = V2.check_loop (Ch.dash :: p :: t) rest 1 level.
Proof.
  intros Hp Hr He. cbn [V2.check_loop].
  change ((Ch.dash <? Ch.bang) || (Ch.dash >? Ch.tilde)) with false.
  change (Ch.dash =? Ch.lbrack) with false. change (Ch.dash =? Ch.rbrack) with false.
  change (Ch.dash =? Ch.lparen) with false. change (Ch.dash =? Ch.rparen) with false.
  change (Ch.dash =? Ch.dash) with true. cbv beta match zeta.
  change (1 =? 0) with false. cbv beta match.
  unfold V2.opens_here. cbn [behind nth_error].
  change (ahead 1 (Ch.dash :: rest)) with (ahead 0 rest).
  change (ahead 2 (Ch.dash :: rest)) with (ahead 1 rest).
  fold (range_end rest).
  destruct (Z.eqb_spec p Ch.lbrack); [contradiction|]. cbn [negb].
  destruct (Z.eqb_spec (ahead 0 rest) Ch.rbrack); [contradiction|].
  destruct (Z.ltb_spec (range_end rest) p); [lia|]. reflexivity.
Qed.

Lemma check_one_range a b :
  is_printable a -> ordinary a -> is_printable b -> ordinary b ->
  V2.check [Ch.lbrack; a; Ch.dash; b; Ch.rbrack] = Some (a <=? b).
Proof.
  intros Ha Hoa Hb Hob. unfold V2.check.
  change (V2.check_loop [] [Ch.lbrack; a; Ch.dash; b; Ch.rbrack] 0 0)
    with (V2.check_loop [Ch.lbrack] [a; Ch.dash; b; Ch.rbrack] 1 0).
  rewrite (check_ordinary_step a) by assumption.
  pose proof Hoa as (A1 & _). pose proof Hob as (_ & B2 & _ & _ & _ & B6).
  assert (Hend : range_end [b; Ch.rbrack] = b).
  { unfold range_end. cbn [ahead nth].
    destruct (Z.eqb_spec b Ch.backslash); [contradiction | reflexivity]. }
  destruct (Z.leb_spec a b).
  - rewrite check_dash_ascending by (rewrite ?Hend; cbn [ahead nth]; assumption).
    rewrite (check_ordinary_step b) by assumption.
    cbn [V2.check_loop].
    change ((Ch.rbrack <? Ch.bang) || (Ch.rbrack >? Ch.tilde)) with false.
    change (Ch.rbrack =? Ch.lbrack) with false. change (Ch.rbrack =? Ch.rbrack) with true.
    change (1 =? 0) with false. cbv beta match.
    unfold V2.opens_here. cbn [behind nth_error].
    destruct Hob as (B1 & _).
    destruct (Z.eqb_spec b Ch.lbrack); [contradiction|]. reflexivity.
  - apply check_dash_descending. rewrite Hend. assumption.
Qed.

(** One iteration of the loop of generate. *)
Lemma gen_loop_step sample fuel s o ipt t time ipt_exit w :
  Gen.gen_loop sample (S fuel) s o ipt t time ipt_exit w
  = (c <- rd s ipt ;;
     if c =? 0 then Some (ipt - o, w)
     else if c =? Ch.lparen then
       '(r, w') <- Gen.gen_loop sample fuel s (ipt + 1) (ipt + 1) 0 0 0 w ;;
       Gen.gen_loop sample fuel s o (ipt + 1 + r + 1) t time ipt_exit w'
     else if c =? Ch.rparen then
       if time =? 0 then
         sfx <- Gen.suffix s ipt ;;
         match sfx with
         | Some (n, e) =>
           if t + 1 <? n
           then Gen.gen_loop sample fuel s o o (t + 1) n e w
           else Some (e - o - 1, w)
         | None => Some (ipt + 1 - o - 1, w)
         end
       else
         if t + 1 <? time
         then Gen.gen_loop sample fuel s o o (t + 1) time ipt_exit w
         else Some (ipt_exit - o - 1, w)
     else if c =? Ch.lbrack then
       '(r, w') <- Gen.randchar sample s (ipt + 1) w ;;
       Gen.gen_loop sample fuel s o (ipt + 1 + r + 1) t time ipt_exit w'
     else if c =? Ch.backslash then
       c' <- rd s (ipt + 1) ;;
       Gen.gen_loop sample fuel s o (ipt + 1 + 1) t time ipt_exit (putchar c' w)
     else
       Gen.gen_loop sample fuel s o (ipt + 1) t time ipt_exit (putchar c w)).
Proof. reflexivity. Qed.

Lemma generate_degenerate_range rand a k :
  is_printable a -> ordinary a ->
  Gen.generate (sampler rand) (2 + k) [Ch.lbrack; a; Ch.dash; a; Ch.rbrack] 0 w0
  = Some (5, mkWorld [a] 1).
Proof.
  intros Ha (A1 & A2 & A3 & A4 & A5 & A6).
  set (s := [Ch.lbrack; a; Ch.dash; a; Ch.rbrack]).
  destruct (single_range_class 2 s 1 a a) as (chars & Hex & _ & Hin);
    try reflexivity; try assumption; try lia.
  change (4 + 2)%nat with (S (List.length s)) in Hex. change (1 + 3) with 4 in Hex.
  assert (Hne : chars <> []).
  { intros ->. apply (Hin a). lia. }
  destruct (randchar_without_suffix rand s 1 4 chars w0 Hex Hne) as (c & Hc & Hr).
  { intros (Hstar & _). discriminate Hstar. }
  assert (c = a) by (apply Hin in Hc; lia). subst c.
  apply generate_mono with (fuel := 2%nat); [|lia].
  unfold Gen.generate. rewrite gen_loop_step.
  change (rd s 0) with (Some Ch.lbrack). cbv beta match.
  change (Ch.lbrack =? 0) with false. change (Ch.lbrack =? Ch.lparen) with false.
  change (Ch.lbrack =? Ch.rparen) with false. change (Ch.lbrack =? Ch.lbrack) with true.
  cbv beta match. change (0 + 1) with 1. rewrite Hr. cbv beta match.
  rewrite gen_loop_step. change (rd s (1 + (4 + 1 - 1 - 1) + 1)) with (Some 0).
  reflexivity.
Qed.

(** C4.  Inside a class a descending range is rejected and a degenerate one
    accepted.  Wherever the scan of check stands on a dash with a byte
    behind it, an end operand (the next character, or the one after a
    backslash) of lower code than the byte behind makes check return 0; and
    inside a class, with a start operand that is not the opening bracket and
    a next byte that is not the closing bracket, an end operand of equal or
    higher code lets check go on with the rest of the pattern.  So for
    ordinary printable characters a and b check accepts [a-b] exactly when
    the code of a is not above the code of b: it rejects [b-a], accepts
    [a-a], and every run of generate on [a-a] (any random source, any fuel
    from 2 on) writes the single character a, after one draw. *)
Theorem C4_descending_and_degenerate_range :
  (forall p t rest in_ level,
      range_end rest < p ->
      V2.check_loop (p :: t) (Ch.dash :: rest) in_ level = Some false) /\
  (forall p t rest level,
      p <> Ch.lbrack -> ahead 0 rest <> Ch.rbrack -> p <= range_end rest ->
      V2.check_loop (p :: t) (Ch.dash :: rest) 1 level
      = V2.check_loop (Ch.dash :: p :: t) rest 1 level) /\
  (forall a b,
      is_printable a -> ordinary a -> is_printable b -> ordinary b ->
      V2.check [Ch.lbrack; a; Ch.dash; b; Ch.rbrack] = Some (a <=? b)) /\
  (forall rand a k,
      is_printable a -> ordinary a ->
      Gen.generate (sampler rand) (2 + k) [Ch.lbrack; a; Ch.dash; a; Ch.rbrack] 0 w0
      = Some (5, mkWorld [a] 1)) /\
  V2.check (chars_of "[b-a]") = Some false /\
  V2.check (chars_of "[a-a]") = Some true /\
  forall rand k,
    Gen.generate (sampler rand) (2 + k) (chars_of "[a-a]") 0 w0
    = Some (5, mkWorld (chars_of "a") 1).
Proof.
  split; [exact check_dash_descending|].
  split; [exact check_dash_ascending|].
  split; [exact check_one_range|].
  split; [exact generate_degenerate_range|].
  repeat split; try reflexivity.
  intros rand k. apply generate_mono with (fuel := 2%nat); [|lia].
  transitivity (Some (5, mkWorld [pick (rand 0%nat) [97]] 1)); [run_gen|].
  now rewrite pick_single.
Qed.

Lemma C4_descending_and_degenerate_range_witness :
  range_end (chars_of "\x]") < 122 /\
  V2.check_loop (chars_of "z[") (Ch.dash :: chars_of "\x]") 1 0 = Some false /\
  V2.check [Ch.lbrack; 109; Ch.dash; 109; Ch.rbrack] = Some (109 <=? 109) /\
  Gen.generate (sampler (fun _ => 3%N)) (2 + 0)
               [Ch.lbrack; 109; Ch.dash; 109; Ch.rbrack] 0 w0
  = Some (5, mkWorld [109] 1).
Proof.
  assert (Hp : is_printable 109) by (unfold is_printable, Ch.bang, Ch.tilde; lia).
  assert (Ho : ordinary 109).
  { unfold ordinary, Ch.lbrack, Ch.rbrack, Ch.lparen, Ch.rparen, Ch.dash, Ch.backslash.
    lia. }
  split; [vm_compute; reflexivity|]. split; [|split].
  - apply (proj1 C4_descending_and_degenerate_range). vm_compute. reflexivity.
  - apply (proj1 (proj2 (proj2 C4_descending_and_degenerate_range))); assumption.
  - apply (proj1 (proj2 (proj2 (proj2 C4_descending_and_degenerate_range))));
      assumption.
Defined.

Lemma check_escape_step before c rest in_ level :
  is_printable c ->
  V2.check_loop before (Ch.backslash :: c :: rest) in_ level
  = V2.check_loop (c :: Ch.backslash :: before) rest in_ level.
Proof.
  intros Hp. cbn [V2.check_loop].
  change ((Ch.backslash <? Ch.bang) || (Ch.backslash >? Ch.tilde)) with false.
  change (Ch.backslash =? Ch.lbrack) with false.
  change (Ch.backslash =? Ch.rbrack) with false.
  change (Ch.backslash =? Ch.lparen) with false.
  change (Ch.backslash =? Ch.rparen) with false.
  change (Ch.backslash =? Ch.dash) with false.
  change (Ch.backslash =? Ch.backslash) with true. cbv beta match.
  now rewrite (printable_test_false c Hp).
Qed.

Lemma check_escape_rejected before rest in_ level :
  (rest = [] \/ exists c rest', rest = c :: rest' /\ ~ is_printable c) ->
  V2.check_loop before (Ch.backslash :: rest) in_ level = Some false.
Proof.
  intros H. cbn [V2.check_loop].
  change ((Ch.backslash <? Ch.bang) || (Ch.backslash >? Ch.tilde)) with false.
  change (Ch.backslash =? Ch.lbrack) with false.
  change (Ch.backslash =? Ch.rbrack) with false.
  change (Ch.backslash =? Ch.lparen) with false.
  change (Ch.backslash =? Ch.rparen) with false.
  change (Ch.backslash =? Ch.dash) with false.
  change (Ch.backslash =? Ch.backslash) with true. cbv beta match.
  destruct H as [->|(c & rest' & -> & Hc)]; [reflexivity|].
  destruct ((c <? Ch.bang) || (c >? Ch.tilde)) eqn:E; [reflexivity|].
  exfalso. apply Hc. now apply printable_test.
Qed.

Lemma gen_escape_step sample fuel s o i c t tm ex w :
  rd s i = Some Ch.backslash -> rd s (i + 1) = Some c ->
  Gen.gen_loop sample (S fuel) s o i t tm ex w
  = Gen.gen_loop sample fuel s o (i + 2) t tm ex (putchar c w).
Proof.
  intros H1 H2. rewrite gen_loop_step, H1. cbv beta match.
  change (Ch.backslash =? 0) with false.
  change (Ch.backslash =? Ch.lparen) with false.
  change (Ch.backslash =? Ch.rparen) with false.
  change (Ch.backslash =? Ch.lbrack) with false.
  change (Ch.backslash =? Ch.backslash) with true. cbv beta match.
  rewrite H2. replace (i + 1 + 1) with (i + 2) by lia. reflexivity.
Qed.

Lemma check_escaped txt : forall before level,
  Forall is_printable txt ->
  V2.check_loop before (escaped txt) 0 level = Some (level =? 0).
Proof.
  induction txt as [|c txt IH]; intros before level Hp; [reflexivity|].
  inversion Hp; subst. cbn [escaped flat_map app].
  rewrite check_escape_step by assumption. apply IH. assumption.
Qed.

Lemma literal_text_escaped txt :
  Forall is_printable txt -> literal_text (escaped txt) = Some txt.
Proof.
  induction txt as [|c txt IH]; intros Hp; [reflexivity|].
  inversion Hp as [|? ? Hc Hp']; subst. cbn [escaped flat_map app literal_text].
  change (Ch.backslash =? Ch.backslash) with true. cbv beta match.
  unfold is_printable, Ch.bang in Hc.
  destruct (Z.eqb_spec c 0); [lia|].
  fold (escaped txt). now rewrite (IH Hp').
Qed.

(** C7.  A backslash takes the structural meaning from the next character,
    in check and in generate.  Wherever its scan stands and whatever the
    state, check steps over a backslash and the printable character that
    follows it without looking at what that character is, and returns 0
    when nothing printable follows; generate writes the character that
    follows a backslash and goes on two bytes further.  So the pattern that
    escapes every character of a printable text, brackets, parentheses,
    dashes and backslashes included, is accepted by check, and generate
    writes the text itself, without a draw.  check accepts the pattern
    \[a\], and generate (any random source, any fuel from 4 on) writes the
    three characters [a] for it. *)
Theorem C7_escaped_brackets_are_literals :
  (forall before c rest in_ level,
      is_printable c ->
      V2.check_loop before (Ch.backslash :: c :: rest) in_ level
      = V2.check_loop (c :: Ch.backslash :: before) rest in_ level) /\
  (forall before rest in_ level,
      (rest = [] \/ exists c rest', rest = c :: rest' /\ ~ is_printable c) ->
      V2.check_loop before (Ch.backslash :: rest) in_ level = Some false) /\
  (forall sample fuel s o i c t tm ex w,
      rd s i = Some Ch.backslash -> rd s (i + 1) = Some c ->
      Gen.gen_loop sample (S fuel) s o i t tm ex w
      = Gen.gen_loop sample fuel s o (i + 2) t tm ex (putchar c w)) /\
  (forall sample txt w fuel,
      Forall is_printable txt -> (List.length (escaped txt) < fuel)%nat ->
      V2.check (escaped txt) = Some true /\
      Gen.generate sample fuel (escaped txt) 0 w
      = Some (Z.of_nat (List.length (escaped txt)),
              mkWorld (out w ++ txt) (draws w))) /\
  V2.check (chars_of "\[a\]") = Some true /\
  forall rand k,
    Gen.generate (sampler rand) (4 + k) (chars_of "\[a\]") 0 w0
    = Some (5, mkWorld (chars_of "[a]") 0).
Proof.
  split; [exact check_escape_step|].
  split; [exact check_escape_rejected|].
  split; [exact gen_escape_step|].
  split.
  { intros sample txt w fuel Hp Hf. split.
    - unfold V2.check. now rewrite check_escaped.
    - apply generate_literal; [now apply literal_text_escaped | exact Hf]. }
  split; [reflexivity|].
  intros rand k. apply generate_mono with (fuel := 4%nat); [|lia]. reflexivity.
Qed.

Lemma C7_escaped_brackets_are_literals_witness :
  Forall is_printable (chars_of "[(-\)]") /\
  V2.check (escaped (chars_of "[(-\)]")) = Some true /\
  Gen.generate (sampler (fun _ => 0%N)) 13%nat (escaped (chars_of "[(-\)]")) 0 w0
  = Some (Z.of_nat (List.length (escaped (chars_of "[(-\)]"))),
          mkWorld (out w0 ++ chars_of "[(-\)]") (draws w0)).
Proof.
  assert (Hp : Forall is_printable (chars_of "[(-\)]")).
  { repeat constructor; vm_compute; discriminate. }
  split; [exact Hp|].
  apply (proj1 (proj2 (proj2 (proj2 C7_escaped_brackets_are_literals)))
           (sampler (fun _ => 0%N)) (chars_of "[(-\)]") w0 13%nat Hp).
  simpl. lia.
Defined.

(** ** From check to the loop of generate *)

Lemma no_empty_class_app a : forall b,
  no_empty_class (a ++ b) = true -> no_empty_class b = true.
Proof.
  induction a as [|c a IH]; intros b H; [exact H|].
  apply IH. change ((c :: a) ++ b) with (c :: (a ++ b)) in H.
  apply no_empty_class_tl in H. exact H.
Qed.

Lemma class_counts_fit_app a : forall b,
  class_counts_fit (a ++ b) = true -> class_counts_fit b = true.
Proof.
  induction a as [|c a IH]; intros b H; [exact H|].
  apply IH. cbn [app class_counts_fit] in H. apply andb_true_iff in H. tauto.
Qed.

Lemma digits_of_split l :
  exists rest, l = digits_of l ++ rest /\
    Forall (fun d => is_digit d = true) (digits_of l) /\ stops_run rest.
Proof.
  induction l as [|c l (rest & E & Hd & Hs)].
  - exists []. repeat split; constructor.
  - cbn [digits_of]. destruct (is_digit c) eqn:Hc.
    + exists rest. split; [cbn [app]; now rewrite <- E|]. split; [|exact Hs].
      constructor; assumption.
    + exists (c :: l). split; [reflexivity|]. split; [constructor | exact Hc].
Qed.

Lemma writes_compose txt1 d1 txt2 d2 w :
  writes txt2 d2 (writes txt1 d1 w)
  = writes (fun k => txt1 k ++ txt2 (k + d1)%nat) (d1 + d2) w.
Proof.
  unfold writes. cbn [out draws]. f_equal; [now rewrite <- app_assoc | lia].
Qed.

Lemma appends_id : appends (fun w => w).
Proof.
  exists (fun _ => []), 0%nat. intros [o d]. unfold writes. cbn [out draws].
  f_equal; [now rewrite app_nil_r | lia].
Qed.

Lemma appends_putchar c : appends (putchar c).
Proof.
  exists (fun _ => [c]), 0%nat. intros [o d]. unfold writes, putchar. cbn [out draws].
  f_equal. lia.
Qed.

Lemma appends_compose f g : appends f -> appends g -> appends (fun w => g (f w)).
Proof.
  intros (t1 & d1 & H1) (t2 & d2 & H2).
  exists (fun k => t1 k ++ t2 (k + d1)%nat), (d1 + d2)%nat. intros w.
  now rewrite H1, H2, writes_compose.
Qed.

Lemma appends_iter f m : appends f -> appends (Nat.iter m f).
Proof.
  intros Hf. induction m as [|m IH]; [exact appends_id|].
  change (Nat.iter (S m) f) with (fun w => f (Nat.iter m f w)).
  now apply appends_compose.
Qed.

(** The draws of a class. *)
Lemma emit_writes sample chars n : forall w,
  chars <> [] ->
  Gen.emit sample n chars w
  = Some (writes (fun k => map (fun i => sample (k + i)%nat chars) (seq 0 n)) n w).
Proof.
  induction n as [|n IH]; intros w Hne.
  - cbn [Gen.emit seq map]. unfold writes. destruct w as [o d]. cbn [out draws].
    do 2 f_equal; [now rewrite app_nil_r | lia].
  - cbn [Gen.emit]. unfold Gen.draw.
    destruct chars as [|c0 chars0] eqn:Ech; [contradiction|].
    cbn [List.length Nat.eqb]. rewrite <- Ech in *. cbv beta match.
    rewrite IH by (rewrite Ech; discriminate). unfold writes. cbn [out draws].
    do 2 f_equal; [|lia].
    rewrite <- app_assoc. f_equal. cbn [seq map app].
    rewrite Nat.add_0_r. f_equal.
    rewrite <- seq_shift, map_map. apply map_ext. intros i. f_equal. lia.
Qed.

Lemma runs_refl sample s i : runs sample s i i (fun w => w).
Proof. exists 0%nat, 0%nat. reflexivity. Qed.

Lemma runs_trans sample s i j k f g :
  runs sample s i j f -> runs sample s j k g -> runs sample s i k (fun w => g (f w)).
Proof.
  intros (c1 & n1 & H1) (c2 & n2 & H2). exists (c1 + c2)%nat, (Nat.max n1 n2).
  intros o fu t tm ex w Hf.
  replace (c1 + c2 + fu)%nat with (c1 + (c2 + fu))%nat by lia.
  rewrite H1 by lia. apply H2. lia.
Qed.

Lemma runs_putchar sample s i c :
  rd s i = Some c -> c <> 0 -> c <> Ch.lparen -> c <> Ch.rparen ->
  c <> Ch.lbrack -> c <> Ch.backslash ->
  runs sample s i (i + 1) (putchar c).
Proof.
  intros H H0 H1 H2 H3 H4. exists 1%nat, 0%nat. intros o f t tm ex w _.
  change (1 + f)%nat with (S f). rewrite gen_loop_step, H. cbv beta match.
  destruct (Z.eqb_spec c 0); [contradiction|].
  destruct (Z.eqb_spec c Ch.lparen); [contradiction|].
  destruct (Z.eqb_spec c Ch.rparen); [contradiction|].
  destruct (Z.eqb_spec c Ch.lbrack); [contradiction|].
  destruct (Z.eqb_spec c Ch.backslash); [contradiction|]. reflexivity.
Qed.

Lemma runs_escape sample s i c :
  rd s i = Some Ch.backslash -> rd s (i + 1) = Some c ->
  runs sample s i (i + 2) (putchar c).
Proof.
  intros H1 H2. exists 1%nat, 0%nat. intros o f t tm ex w _.
  change (1 + f)%nat with (S f). now apply gen_escape_step.
Qed.

Lemma runs_class sample s i r body :
  rd s i = Some Ch.lbrack ->
  (forall w, Gen.randchar sample s (i + 1) w = Some (r, body w)) ->
  runs sample s i (i + 1 + r + 1) body.
Proof.
  intros H Hr. exists 1%nat, 0%nat. intros o f t tm ex w _.
  change (1 + f)%nat with (S f). rewrite gen_loop_step, H. cbv beta match.
  change (Ch.lbrack =? 0) with false. change (Ch.lbrack =? Ch.lparen) with false.
  change (Ch.lbrack =? Ch.rparen) with false.
  change (Ch.lbrack =? Ch.lbrack) with true. cbv beta match.
  now rewrite Hr.
Qed.

Lemma runs_group sample s i r body F :
  rd s i = Some Ch.lparen ->
  (forall w, Gen.generate sample F s (i + 1) w = Some (r, body w)) ->
  runs sample s i (i + 1 + r + 1) body.
Proof.
  intros H Hr. exists 1%nat, F. intros o f t tm ex w Hf.
  change (1 + f)%nat with (S f). rewrite gen_loop_step, H. cbv beta match.
  change (Ch.lparen =? 0) with false. change (Ch.lparen =? Ch.lparen) with true.
  cbv beta match.
  pose proof (generate_mono sample F f s (i + 1) w _ (Hr w) Hf) as E.
  unfold Gen.generate in E. now rewrite E.
Qed.

Lemma skipn_zip (bef rest : list Z) :
  skipn (List.length bef) (rev bef ++ rest) = rest.
Proof.
  rewrite <- (length_rev bef), skipn_app, Nat.sub_diag, skipn_all. reflexivity.
Qed.

Lemma digit_printable d : is_digit d = true -> is_printable d /\ ordinary d.
Proof.
  unfold is_digit, is_printable, ordinary, Ch.zero, Ch.nine, Ch.bang, Ch.tilde,
    Ch.lbrack, Ch.rbrack, Ch.lparen, Ch.rparen, Ch.dash, Ch.backslash.
  intros H. apply andb_true_iff in H. destruct H as [H1 H2].
  apply Z.leb_le in H1, H2. lia.
Qed.

(** check steps over a run of digits. *)
Lemma check_digits ds : forall before rest in_ level,
  Forall (fun d => is_digit d = true) ds ->
  V2.check_loop before (ds ++ rest) in_ level
  = V2.check_loop (rev ds ++ before) rest in_ level.
Proof.
  induction ds as [|d ds IH]; intros before rest in_ level Hd; [reflexivity|].
  inversion Hd as [|? ? Hd1 Hd2]; subst. destruct (digit_printable d Hd1) as [Hp Ho].
  cbn [app]. rewrite check_ordinary_step by assumption.
  rewrite IH by assumption. now rewrite rev_cons_app.
Qed.

(** A count where one is looked for: the star and the digits that follow
    the closing byte. *)
Lemma counted_split rest3 :
  counted rest3 = true ->
  exists rest4,
    rest3 = Ch.star :: digits_of (tl rest3) ++ rest4 /\
    leading (digits_of (tl rest3)) /\
    Forall (fun d => is_digit d = true) (digits_of (tl rest3)) /\
    stops_run rest4.
Proof.
  unfold counted. intros H. apply andb_true_iff in H. destruct H as [H H3].
  apply andb_true_iff in H. destruct H as [H1 H2].
  destruct rest3 as [|st [|d r]];
    [vm_compute in H1; discriminate | vm_compute in H2; discriminate |].
  unfold ahead in H1, H2, H3. cbn [nth] in H1, H2, H3.
  apply Z.eqb_eq in H1. subst st. cbn [tl].
  destruct (digits_of_split (d :: r)) as (rest4 & E & Hd & Hs).
  exists rest4. split; [now rewrite <- E|]. split; [|split; assumption].
  cbn [digits_of]. unfold is_digit.
  apply Z.leb_le in H3. apply Z.gtb_lt in H2.
  destruct (Z.leb_spec Ch.zero d); [|lia].
  destruct (Z.leb_spec d Ch.nine); [|lia]. cbn [andb leading]. lia.
Qed.

Lemma has_suffix_zip c b rest3 :
  counted rest3 = true ->
  has_suffix (rev (c :: b) ++ rest3) (Z.of_nat (List.length b)) (digits_of (tl rest3)).
Proof.
  intros H. destruct (counted_split rest3 H) as (rest4 & E & Hl & Hd & Hs).
  split; [lia|]. split; [exact Hl|]. split; [exact Hd|].
  exists rest4. split; [|exact Hs].
  replace (Z.to_nat (Z.of_nat (List.length b) + 1)) with (List.length (c :: b))
    by (cbn [List.length]; lia).
  rewrite skipn_zip. exact E.
Qed.

(** The count after a closing byte, whatever its size. *)
Lemma suffix_of_run_any s j ds :
  has_suffix s j ds ->
  Gen.suffix s j
  = Some (Some (to_int (Z.min (decimal ds) LONG_MAX), j + 2 + Z.of_nat (List.length ds))).
Proof.
  intros (Hj & Hlead & Hd & rest & Hs & Hr). unfold Gen.suffix.
  rewrite (rd_skipn s (j + 1) Ch.star (ds ++ rest)) by (lia || assumption).
  rewrite Z.eqb_refl.
  destruct ds as [|d ds]; [contradiction|]. cbn [leading] in Hlead.
  assert (Hs2 : skipn (Z.to_nat (j + 2)) s = (d :: ds) ++ rest).
  { replace (Z.to_nat (j + 2)) with (S (Z.to_nat (j + 1))) by lia.
    eapply skipn_next; exact Hs. }
  rewrite (rd_skipn s (j + 2) d (ds ++ rest)) by (lia || exact Hs2).
  destruct (Z.gtb_spec d Ch.zero); [|lia].
  destruct (Z.leb_spec d Ch.nine); [|lia]. cbn [andb].
  unfold strtol. rewrite Hs2, digits_run_app by assumption.
  fold (decimal (d :: ds)). do 3 f_equal.
Qed.

Lemma suffix_uncounted c b rest3 :
  c <> 0 -> counted rest3 = false ->
  Gen.suffix (rev (c :: b) ++ rest3) (Z.of_nat (List.length b)) = Some None.
Proof.
  intros Hc H. unfold Gen.suffix.
  pose proof (rd_zip_ahead (c :: b) rest3 0 ltac:(lia)) as R0.
  cbn [List.length] in R0.
  replace (Z.of_nat (S (List.length b)) + Z.of_nat 0) with (Z.of_nat (List.length b) + 1)
    in R0 by lia.
  rewrite R0. cbv beta match. unfold counted in H.
  destruct (Z.eqb_spec (ahead 0 rest3) Ch.star) as [Hst|]; [|reflexivity].
  assert (Hlen : (0 < List.length rest3)%nat)
    by (apply ahead_inside; rewrite Hst; discriminate).
  pose proof (rd_zip_ahead (c :: b) rest3 1 ltac:(lia)) as R1.
  cbn [List.length] in R1.
  replace (Z.of_nat (S (List.length b)) + Z.of_nat 1) with (Z.of_nat (List.length b) + 2)
    in R1 by lia.
  rewrite R1. cbv beta match. cbn [andb] in H. now rewrite H.
Qed.

(** What follows a closing bracket or parenthesis that check has stepped
    over: the count, when there is one, and the state of check after it. *)
Lemma after_close c b rest3 level :
  c <> 0 ->
  V2.check_loop (c :: b) rest3 0 level = Some true ->
  exists n e mid rest4,
    Gen.suffix (rev (c :: b) ++ rest3) (Z.of_nat (List.length b))
    = Some (if counted rest3 then Some (n, e) else None) /\
    (if counted rest3
     then n = to_int (Z.min (decimal (digits_of (tl rest3))) LONG_MAX)
     else n = 1 /\ mid = []) /\
    e = Z.of_nat (List.length b) + 1 + Z.of_nat (List.length mid) /\
    rest3 = mid ++ rest4 /\
    V2.check_loop (rev mid ++ c :: b) rest4 0 level = Some true.
Proof.
  intros Hc H. destruct (counted rest3) eqn:Hcnt.
  - destruct (counted_split rest3 Hcnt) as (rest4 & E & Hl & Hd & Hs).
    exists (to_int (Z.min (decimal (digits_of (tl rest3))) LONG_MAX)),
      (Z.of_nat (List.length b) + 2 + Z.of_nat (List.length (digits_of (tl rest3)))),
      (Ch.star :: digits_of (tl rest3)), rest4.
    split; [now rewrite (suffix_of_run_any _ _ _ (has_suffix_zip c b rest3 Hcnt))|].
    split; [reflexivity|]. split; [cbn [List.length]; lia|].
    split; [exact E|].
    rewrite E in H. rewrite check_ordinary_step in H.
    + rewrite check_digits in H by assumption. now rewrite rev_cons_app.
    + unfold is_printable, Ch.bang, Ch.tilde, Ch.star. lia.
    + unfold ordinary, Ch.star, Ch.lbrack, Ch.rbrack, Ch.lparen, Ch.rparen,
        Ch.dash, Ch.backslash. lia.
  - exists 1, (Z.of_nat (List.length b) + 1), [], rest3.
    split; [now apply suffix_uncounted|]. split; [split; reflexivity|].
    split; [cbn [List.length]; lia|]. split; [reflexivity|]. exact H.
Qed.

(** The call of generate for a group whose body the loop runs through:
    the body is executed once, or as many times as the count says. *)
Lemma group_generate rand s o j body sfx :
  rd s j = Some Ch.rparen ->
  runs (sampler rand) s o j body ->
  Gen.suffix s j = Some sfx ->
  exists F, forall w,
    Gen.generate (sampler rand) F s o w
    = Some ((match sfx with Some (_, e) => e | None => j + 1 end) - o - 1,
            Nat.iter (Z.to_nat (Z.max 1 (match sfx with Some (n, _) => n | None => 1 end)))
                     body w).
Proof.
  intros Hj (cost & need & Hb) Hs.
  assert (Honce : forall w,
    (match sfx with Some (n, _) => n <= 1 | None => True end) ->
    Gen.generate (sampler rand) (cost + S need) s o w
    = Some ((match sfx with Some (_, e) => e | None => j + 1 end) - o - 1, body w)).
  { intros w Hn. unfold Gen.generate. rewrite Hb by lia.
    rewrite gen_loop_step, Hj. cbv beta match.
    change (Ch.rparen =? 0) with false. change (Ch.rparen =? Ch.lparen) with false.
    change (Ch.rparen =? Ch.rparen) with true. change (0 =? 0) with true.
    cbv beta match. rewrite Hs. cbv beta match.
    destruct sfx as [[n e]|]; [|reflexivity].
    destruct (Z.ltb_spec (0 + 1) n); [lia|reflexivity]. }
  destruct sfx as [[n e]|].
  - destruct (Z_le_gt_dec n 1) as [Hn|Hn].
    + exists (cost + S need)%nat. intros w.
      replace (Z.max 1 n) with 1 by lia. now apply Honce.
    + exists (Z.to_nat n * (cost + 1) + need)%nat. intros w.
      replace (Z.max 1 n) with n by lia.
      apply (group_repeat rand s o j n e Hj Hs ltac:(lia) body cost need).
      * intros f t tm ex w' Hf. now apply Hb.
      * lia.
  - exists (cost + S need)%nat. intros w. now apply Honce.
Qed.

Lemma zip_close (c o : Z) cb before rest3 :
  rev (c :: rev cb ++ o :: before) ++ rest3 = rev before ++ o :: cb ++ c :: rest3.
Proof.
  cbn [rev]. rewrite rev_app_distr, rev_involutive. cbn [rev].
  rewrite <- !app_assoc. reflexivity.
Qed.

(** A class that check accepts, with a body that is not empty and a count
    within [int]: randchar returns, and the loop of generate goes on after
    the class and its count. *)
Lemma class_run rand before rest' level :
  V2.check_loop before (Ch.lbrack :: rest') 0 level = Some true ->
  Forall is_printable before ->
  no_empty_class (Ch.lbrack :: rest') = true ->
  class_counts_fit (Ch.lbrack :: rest') = true ->
  exists mid rest4 body,
    rest' = mid ++ rest4 /\
    V2.check_loop (rev mid ++ Ch.lbrack :: before) rest4 0 level = Some true /\
    runs (sampler rand) (rev before ++ Ch.lbrack :: rest')
         (Z.of_nat (List.length before))
         (Z.of_nat (List.length before) + 1 + Z.of_nat (List.length mid)) body /\
    appends body.
Proof.
  intros H Hb Hne Hcf. cbn [V2.check_loop] in H.
  change ((Ch.lbrack <? Ch.bang) || (Ch.lbrack >? Ch.tilde)) with false in H.
  change (Ch.lbrack =? Ch.lbrack) with true in H.
  change (negb (0 =? 0)) with false in H. cbv beta match in H.
  destruct (class_scan (List.length rest') rest' (le_n _) (Ch.lbrack :: before) level [] H)
    as (cb & rest3 & chars & Hr & Hk & E & _ & _ & _ & Hchars).
  { constructor; [unfold is_printable, Ch.bang, Ch.tilde, Ch.lbrack; lia | assumption]. }
  { constructor. }
  { constructor. }
  assert (Hne' : chars <> []).
  { apply Hchars. destruct rest' as [|d r]; [discriminate|].
    cbn [no_empty_class] in Hne. rewrite Z.eqb_refl in Hne. cbn [andb] in Hne.
    unfold ahead. cbn [nth]. intros ->. rewrite Z.eqb_refl in Hne. discriminate. }
  destruct (after_close Ch.rbrack (rev cb ++ Ch.lbrack :: before) rest3 level
              ltac:(discriminate) Hk) as (n & e & mid & rest4 & Hsfx & Hn & He & Hr3 & Hk4).
  set (s := rev before ++ Ch.lbrack :: rest') in *.
  assert (Hs : rev (Ch.rbrack :: rev cb ++ Ch.lbrack :: before) ++ rest3 = s).
  { rewrite zip_close. subst s. now rewrite Hr. }
  rewrite Hs in Hsfx.
  assert (Hlen : Z.of_nat (List.length (rev cb ++ Ch.lbrack :: before))
                 = Z.of_nat (List.length before) + 1 + Z.of_nat (List.length cb)).
  { rewrite length_app, length_rev. cbn [List.length]. lia. }
  rewrite Hlen in Hsfx, He.
  assert (Hex : Gen.expand (S (List.length s)) s (Z.of_nat (List.length before) + 1) []
                = Some (Z.of_nat (List.length before) + 1 + Z.of_nat (List.length cb), chars)).
  { apply expand_mono with (fuel := S (List.length rest')).
    - rewrite rev_cons_app in E. cbn [List.length] in E.
      replace (Z.of_nat (S (List.length before))) with (Z.of_nat (List.length before) + 1)
        in E by lia. exact E.
    - subst s. rewrite length_app. cbn [List.length]. lia. }
  assert (Hn0 : 0 <= n).
  { destruct (counted rest3) eqn:Hcnt; [|lia].
    destruct (counted_split rest3 Hcnt) as (_ & _ & _ & Hd & _).
    assert (Hfit : decimal (digits_of (tl rest3)) <= INT_MAX).
    { rewrite Hr in Hcf.
      change (Ch.lbrack :: cb ++ Ch.rbrack :: rest3)
        with ((Ch.lbrack :: cb) ++ Ch.rbrack :: rest3) in Hcf.
      apply class_counts_fit_app in Hcf. cbn [class_counts_fit] in Hcf.
      rewrite Z.eqb_refl, Hcnt in Hcf. cbn [negb orb] in Hcf.
      apply andb_true_iff in Hcf. destruct Hcf as [Hcf _]. now apply Z.leb_le. }
    assert (0 <= decimal (digits_of (tl rest3)))
      by (apply fold_digits_nonneg; [assumption|lia]).
    rewrite Hn, to_int_small by lia. assumption. }
  exists (cb ++ Ch.rbrack :: mid), rest4,
    (writes (fun k => map (fun i => sampler rand (k + i)%nat chars) (seq 0 (Z.to_nat n)))
            (Z.to_nat n)).
  split; [rewrite Hr, Hr3, <- app_assoc; reflexivity|].
  split.
  { rewrite rev_app_distr. cbn [rev]. rewrite <- !app_assoc. exact Hk4. }
  split; [|eexists; eexists; reflexivity].
  replace (Z.of_nat (List.length before) + 1 + Z.of_nat (List.length (cb ++ Ch.rbrack :: mid)))
    with (Z.of_nat (List.length before) + 1 + (e - (Z.of_nat (List.length before) + 1) - 1) + 1)
    by (rewrite length_app; cbn [List.length]; lia).
  apply runs_class.
  { subst s. apply rd_zip_here. }
  intros w. unfold Gen.randchar. rewrite Hex. cbv beta match. rewrite Hsfx.
  cbv beta match.
  destruct (counted rest3).
  - cbv beta match. destruct (Z.ltb_spec n 0); [lia|].
    rewrite emit_writes by assumption. reflexivity.
  - destruct Hn as [-> ->]. cbv beta match. change (1 <? 0) with false. cbv beta match.
    rewrite emit_writes by assumption. cbn [List.length] in He.
    do 2 f_equal. lia.
Qed.

(** A group whose body the loop of generate runs through, up to the
    closing parenthesis that check has stepped over: the call of generate
    for the group returns, and the loop goes on after the group and its
    count. *)
Lemma group_run rand before b1 r level body1 :
  V2.check_loop (Ch.rparen :: rev b1 ++ Ch.lparen :: before) r 0 level = Some true ->
  runs (sampler rand) (rev before ++ Ch.lparen :: b1 ++ Ch.rparen :: r)
       (Z.of_nat (List.length before) + 1)
       (Z.of_nat (List.length before) + 1 + Z.of_nat (List.length b1)) body1 ->
  appends body1 ->
  exists mid rest4 body,
    b1 ++ Ch.rparen :: r = mid ++ rest4 /\
    V2.check_loop (rev mid ++ Ch.lparen :: before) rest4 0 level = Some true /\
    runs (sampler rand) (rev before ++ Ch.lparen :: b1 ++ Ch.rparen :: r)
         (Z.of_nat (List.length before))
         (Z.of_nat (List.length before) + 1 + Z.of_nat (List.length mid)) body /\
    appends body.
Proof.
  intros Hk Hrun Happ.
  destruct (after_close Ch.rparen (rev b1 ++ Ch.lparen :: before) r level
              ltac:(discriminate) Hk) as (n & e & mid & rest4 & Hsfx & Hn & He & Hr3 & Hk4).
  set (s := rev before ++ Ch.lparen :: b1 ++ Ch.rparen :: r) in *.
  assert (Hs : rev (Ch.rparen :: rev b1 ++ Ch.lparen :: before) ++ r = s).
  { rewrite zip_close. reflexivity. }
  rewrite Hs in Hsfx.
  assert (Hlen : Z.of_nat (List.length (rev b1 ++ Ch.lparen :: before))
                 = Z.of_nat (List.length before) + 1 + Z.of_nat (List.length b1)).
  { rewrite length_app, length_rev. cbn [List.length]. lia. }
  rewrite Hlen in Hsfx, He.
  assert (Hj : rd s (Z.of_nat (List.length before) + 1 + Z.of_nat (List.length b1))
               = Some Ch.rparen).
  { rewrite <- Hlen, <- Hs, rev_cons_app. apply rd_zip_here. }
  destruct (group_generate rand s _ _ body1 _ Hj Hrun Hsfx) as (F & HF).
  exists (b1 ++ Ch.rparen :: mid), rest4,
    (Nat.iter (Z.to_nat (Z.max 1 (if counted r then n else 1))) body1).
  split; [rewrite Hr3, <- app_assoc; reflexivity|].
  split.
  { rewrite rev_app_distr. cbn [rev]. rewrite <- !app_assoc. exact Hk4. }
  split; [|now apply appends_iter].
  replace (Z.of_nat (List.length before) + 1 + Z.of_nat (List.length (b1 ++ Ch.rparen :: mid)))
    with (Z.of_nat (List.length before) + 1 + (e - (Z.of_nat (List.length before) + 1) - 1) + 1)
    by (rewrite length_app; cbn [List.length]; lia).
  apply runs_group with (F := F).
  { subst s. apply rd_zip_here. }
  intros w. rewrite HF. destruct (counted r); [reflexivity|].
  destruct Hn as [-> ->]. cbn [List.length] in He. do 2 f_equal. lia.
Qed.

Lemma runs_at sample s i j j' body :
  runs sample s i j body -> j = j' -> runs sample s i j' body.
Proof. now intros H <-. Qed.

(** The loop of generate follows the scan of check: from a place that
    check reaches outside a class, in a pattern that it accepts, the loop
    runs to the end of the sequence that the place is in.  No class of the
    pattern is empty and no count of a class exceeds [int]. *)
Lemma seq_run rand n : forall rest, (List.length rest <= n)%nat ->
  forall before level,
  V2.check_loop before rest 0 level = Some true -> 0 <= level ->
  Forall is_printable before ->
  no_empty_class rest = true -> class_counts_fit rest = true ->
  exists b rest2 body,
    rest = b ++ rest2 /\ stops (rev b ++ before) rest2 level /\
    runs (sampler rand) (rev before ++ rest) (Z.of_nat (List.length before))
         (Z.of_nat (List.length before) + Z.of_nat (List.length b)) body /\
    appends body.
Proof.
  induction n as [|n IH]; intros rest Hn before level H Hlev Hpb Hne Hcf.
  { destruct rest; [|simpl in Hn; lia].
    cbn [V2.check_loop] in H. change (0 =? 0) with true in H. cbn [andb] in H.
    exists [], [], (fun w => w). split; [reflexivity|].
    split; [left; split; [reflexivity|]; injection H as H; now apply Z.eqb_eq|].
    split; [|exact appends_id].
    eapply runs_at; [apply runs_refl | cbn [List.length]; lia]. }
  destruct rest as [|c rest'].
  { cbn [V2.check_loop] in H. change (0 =? 0) with true in H. cbn [andb] in H.
    exists [], [], (fun w => w). split; [reflexivity|].
    split; [left; split; [reflexivity|]; injection H as H; now apply Z.eqb_eq|].
    split; [|exact appends_id].
    eapply runs_at; [apply runs_refl | cbn [List.length]; lia]. }
  cbn [List.length] in Hn.
  pose proof (check_printable _ _ (le_n _) _ _ _ H) as Hall.
  (* the loop goes on after a first part that it has run through *)
  assert (Hcont : forall mid rest4 body1,
    c :: rest' = mid ++ rest4 -> (List.length rest4 <= n)%nat ->
    V2.check_loop (rev mid ++ before) rest4 0 level = Some true ->
    runs (sampler rand) (rev before ++ c :: rest') (Z.of_nat (List.length before))
         (Z.of_nat (List.length before) + Z.of_nat (List.length mid)) body1 ->
    appends body1 ->
    exists b rest2 body,
      c :: rest' = b ++ rest2 /\ stops (rev b ++ before) rest2 level /\
      runs (sampler rand) (rev before ++ c :: rest') (Z.of_nat (List.length before))
           (Z.of_nat (List.length before) + Z.of_nat (List.length b)) body /\
      appends body).
  { intros mid rest4 body1 Hr Hlen Hk Hr1 Ha1.
    rewrite Hr in Hall, Hne, Hcf. apply Forall_app in Hall. destruct Hall as [Hmid _].
    destruct (IH rest4 Hlen (rev mid ++ before) level Hk Hlev)
      as (b' & rest2 & body2 & E & Hst & Hr2 & Ha2).
    { apply Forall_app. split; [now apply Forall_rev | assumption]. }
    { now apply no_empty_class_app in Hne. }
    { now apply class_counts_fit_app in Hcf. }
    exists (mid ++ b'), rest2, (fun w => body2 (body1 w)).
    split; [rewrite Hr, E, <- app_assoc; reflexivity|].
    split; [rewrite rev_app_distr, <- app_assoc; exact Hst|].
    split; [|now apply appends_compose].
    rewrite rev_app_distr, rev_involutive, <- app_assoc, <- Hr in Hr2.
    eapply runs_trans; [exact Hr1|].
    eapply runs_at.
    - eapply runs_at in Hr2; [|reflexivity].
      replace (Z.of_nat (List.length before) + Z.of_nat (List.length mid))
        with (Z.of_nat (List.length (rev mid ++ before)))
        by (rewrite length_app, length_rev; lia).
      exact Hr2.
    - rewrite !length_app, length_rev. lia. }
  assert (Hne' : no_empty_class rest' = true) by (apply (no_empty_class_tl _ Hne)).
  assert (Hcf' : class_counts_fit rest' = true).
  { cbn [class_counts_fit] in Hcf. apply andb_true_iff in Hcf. tauto. }
  pose proof H as H0. cbn [V2.check_loop] in H.
  destruct ((c <? Ch.bang) || (c >? Ch.tilde)) eqn:Hc; [discriminate|].
  apply printable_test in Hc.
  destruct (Z.eqb_spec c Ch.lbrack) as [->|Hlb].
  { (* a class *)
    destruct (class_run rand before rest' level H0 Hpb Hne Hcf)
      as (mid & rest4 & body & Hr & Hk & Hruns & Happ).
    apply (Hcont (Ch.lbrack :: mid) rest4 body).
    - now rewrite Hr.
    - rewrite Hr, length_app in Hn. lia.
    - now rewrite rev_cons_app.
    - eapply runs_at; [exact Hruns | cbn [List.length]; lia].
    - exact Happ. }
  destruct (Z.eqb_spec c Ch.rbrack) as [->|Hrb]; [discriminate|].
  destruct (Z.eqb_spec c Ch.lparen) as [->|Hlp].
  { (* a group *)
    change (negb (0 =? 0)) with false in H. cbv beta match in H.
    destruct (IH rest' ltac:(lia) (Ch.lparen :: before) (level + 1) H ltac:(lia))
      as (b1 & rest2 & body1 & E1 & Hst1 & Hr1 & Ha1); try assumption.
    { constructor; [unfold is_printable, Ch.bang, Ch.tilde, Ch.lparen; lia | assumption]. }
    destruct Hst1 as [[_ Hl0]|(r & -> & _ & Hk)]; [lia|].
    replace (level + 1 - 1) with level in Hk by lia.
    rewrite rev_cons_app in Hr1. cbn [List.length] in Hr1.
    replace (Z.of_nat (S (List.length before))) with (Z.of_nat (List.length before) + 1)
      in Hr1 by lia.
    rewrite E1 in Hr1 |- *.
    destruct (group_run rand before b1 r level body1 Hk Hr1 Ha1)
      as (mid & rest4 & body & Hm & Hk4 & Hruns & Happ).
    rewrite E1 in Hcont.
    assert (Hl : (List.length rest4 <= n)%nat).
    { rewrite E1 in Hn. rewrite Hm, length_app in Hn. lia. }
    apply (Hcont (Ch.lparen :: mid) rest4 body).
    - now rewrite Hm.
    - exact Hl.
    - now rewrite rev_cons_app.
    - eapply runs_at; [exact Hruns | cbn [List.length]; lia].
    - exact Happ. }
  destruct (Z.eqb_spec c Ch.rparen) as [->|Hrp].
  { (* the end of the group *)
    change (negb (0 =? 0)) with false in H. cbn [orb] in H.
    destruct (Z.leb_spec level 0); [discriminate|].
    exists [], (Ch.rparen :: rest'), (fun w => w). split; [reflexivity|].
    split; [right; exists rest'; split; [reflexivity|]; split; [lia | exact H]|].
    split; [|exact appends_id].
    eapply runs_at; [apply runs_refl | cbn [List.length]; lia]. }
  destruct (Z.eqb_spec c Ch.dash) as [->|Hda].
  { change (0 =? 0) with true in H. cbv beta match zeta in H.
    destruct (behind 0 before); [|discriminate].
    match type of H with
    | (if ?b then _ else _) = _ => destruct b; [discriminate|]
    end.
    apply (Hcont [Ch.dash] rest' (putchar Ch.dash)); try (reflexivity || lia || assumption).
    - eapply runs_at; [apply runs_putchar; [apply rd_zip_here | discriminate..]
                      | cbn [List.length]; lia].
    - apply appends_putchar. }
  destruct (Z.eqb_spec c Ch.backslash) as [->|Hbs].
  { destruct rest' as [|d rest'']; [discriminate|].
    destruct ((d <? Ch.bang) || (d >? Ch.tilde)) eqn:Hd; [discriminate|].
    cbn [List.length] in Hn.
    apply (Hcont [Ch.backslash; d] rest'' (putchar d));
      try (reflexivity || lia || assumption).
    - eapply runs_at; [apply runs_escape; [apply rd_zip_here|] | cbn [List.length]; lia].
      apply (rd_zip_ahead before (Ch.backslash :: d :: rest'') 1). cbn [List.length]. lia.
    - apply appends_putchar. }
  apply (Hcont [c] rest' (putchar c)); try (reflexivity || lia || assumption).
  - eapply runs_at; [apply runs_putchar; try assumption; [apply rd_zip_here|]
                    | cbn [List.length]; lia].
    unfold is_printable, Ch.bang in Hc. lia.
  - apply appends_putchar.
Qed.

(** check comes to every byte of a pattern that it accepts, the bytes that
    a backslash escapes apart. *)
Lemma check_arrives n : forall pre, (List.length pre <= n)%nat ->
  forall b0 rest in0 l0,
  escaped_here b0 = false -> escaped_here (rev pre ++ b0) = false -> 0 <= l0 ->
  V2.check_loop b0 (pre ++ rest) in0 l0 = Some true ->
  exists in' l', 0 <= l' /\ V2.check_loop (rev pre ++ b0) rest in' l' = Some true.
Proof.
  induction n as [|n IH]; intros pre Hn b0 rest in0 l0 Hb He Hl H.
  { destruct pre; [|simpl in Hn; lia]. exists in0, l0. auto. }
  destruct pre as [|c pre]; [exists in0, l0; auto|].
  cbn [List.length] in Hn. cbn [app] in H. cbn [V2.check_loop] in H.
  assert (Hnext : c <> Ch.backslash -> forall in1 l1, 0 <= l1 ->
    V2.check_loop (c :: b0) (pre ++ rest) in1 l1 = Some true ->
    exists in' l', 0 <= l' /\
      V2.check_loop (rev (c :: pre) ++ b0) rest in' l' = Some true).
  { intros Hc in1 l1 Hl1 Hk. rewrite rev_cons_app in He |- *.
    apply (IH pre ltac:(lia) (c :: b0) rest in1 l1); try assumption.
    cbn [escaped_here]. now destruct (Z.eqb_spec c Ch.backslash). }
  destruct ((c <? Ch.bang) || (c >? Ch.tilde)); [discriminate|].
  destruct (Z.eqb_spec c Ch.lbrack) as [->|Hlb].
  { destruct (negb (in0 =? 0)); [discriminate|].
    now apply (Hnext ltac:(discriminate) 1 l0). }
  destruct (Z.eqb_spec c Ch.rbrack) as [->|Hrb].
  { destruct (in0 =? 0); [discriminate|].
    destruct (V2.opens_here b0) as [[|]|]; try discriminate.
    now apply (Hnext ltac:(discriminate) 0 l0). }
  destruct (Z.eqb_spec c Ch.lparen) as [->|Hlp].
  { destruct (negb (in0 =? 0)); [discriminate|].
    apply (Hnext ltac:(discriminate) in0 (l0 + 1)); [lia | exact H]. }
  destruct (Z.eqb_spec c Ch.rparen) as [->|Hrp].
  { destruct (negb (in0 =? 0)); [discriminate|]. cbn [orb] in H.
    destruct (Z.leb_spec l0 0); [discriminate|].
    apply (Hnext ltac:(discriminate) in0 (l0 - 1)); [lia | exact H]. }
  destruct (Z.eqb_spec c Ch.dash) as [->|Hda].
  { match type of H with
    | match ?f with _ => _ end = _ => destruct f as [[|]|]; try discriminate
    end.
    destruct (behind 0 b0); [|discriminate].
    match type of H with
    | (if ?b then _ else _) = _ => destruct b; [discriminate|]
    end.
    now apply (Hnext ltac:(discriminate) in0 l0). }
  destruct (Z.eqb_spec c Ch.backslash) as [->|Hbs]; [|now apply (Hnext Hbs in0 l0)].
  destruct pre as [|d pre].
  { cbn [rev app escaped_here] in He. rewrite Hb in He. discriminate He. }
  cbn [app] in H.
  destruct ((d <? Ch.bang) || (d >? Ch.tilde)); [discriminate|].
  cbn [List.length] in Hn.
  rewrite !rev_cons_app in He |- *.
  apply (IH pre ltac:(lia) (d :: Ch.backslash :: b0) rest in0 l0); try assumption.
  cbn [escaped_here]. rewrite Hb, Z.eqb_refl. cbn [negb andb].
  now rewrite andb_false_r.
Qed.

(** A group of a pattern that check accepts: the opening parenthesis is
    not escaped, no class of the pattern is empty and no count of a class
    exceeds [int].  The group is closed, the loop of generate runs through
    its body, and the call of generate for the group executes the body as
    many times as a count within [int] says. *)
Lemma validated_group rand pre rest o :
  o = Z.of_nat (List.length pre) + 1 ->
  V2.check (pre ++ Ch.lparen :: rest) = Some true ->
  escaped_here (rev pre) = false ->
  no_empty_class (pre ++ Ch.lparen :: rest) = true ->
  class_counts_fit (pre ++ Ch.lparen :: rest) = true ->
  exists b post body j,
    rest = b ++ Ch.rparen :: post /\ j = o + Z.of_nat (List.length b) /\
    runs (sampler rand) (pre ++ Ch.lparen :: rest) o j body /\
    appends body /\
    forall ds,
      has_suffix (pre ++ Ch.lparen :: rest) j ds -> decimal ds <= INT_MAX ->
      exists F, forall w fuel, (F <= fuel)%nat ->
        Gen.generate (sampler rand) fuel (pre ++ Ch.lparen :: rest) o w
        = Some (j + 2 + Z.of_nat (List.length ds) - o - 1,
                Nat.iter (Z.to_nat (decimal ds)) body w).
Proof.
  intros Ho Hck Hesc Hne Hcf. set (s := pre ++ Ch.lparen :: rest) in *.
  pose proof (check_printable _ _ (le_n _) _ _ _ Hck) as Hall.
  unfold V2.check in Hck.
  destruct (check_arrives (List.length pre) pre (le_n _) [] (Ch.lparen :: rest) 0 0)
    as (in' & l' & Hl' & Hk); try (reflexivity || lia || assumption).
  { now rewrite app_nil_r. }
  rewrite app_nil_r in Hk. cbn [V2.check_loop] in Hk.
  change ((Ch.lparen <? Ch.bang) || (Ch.lparen >? Ch.tilde)) with false in Hk.
  change (Ch.lparen =? Ch.lbrack) with false in Hk.
  change (Ch.lparen =? Ch.rbrack) with false in Hk.
  change (Ch.lparen =? Ch.lparen) with true in Hk. cbv beta match in Hk.
  destruct (Z.eqb_spec in' 0) as [->|]; [|discriminate]. cbn [negb] in Hk.
  subst s. apply Forall_app in Hall. destruct Hall as [Hpre Hrest].
  destruct (seq_run rand (List.length rest) rest (le_n _) (Ch.lparen :: rev pre) (l' + 1) Hk)
    as (b & rest2 & body & E & Hst & Hruns & Happ).
  { lia. }
  { constructor; [unfold is_printable, Ch.bang, Ch.tilde, Ch.lparen; lia|].
    now apply Forall_rev. }
  { apply no_empty_class_app in Hne. now apply no_empty_class_tl in Hne. }
  { apply class_counts_fit_app in Hcf. cbn [class_counts_fit] in Hcf.
    apply andb_true_iff in Hcf. tauto. }
  destruct Hst as [[_ H0]|(post & -> & _ & Hk')]; [lia|].
  rewrite rev_cons_app, rev_involutive in Hruns. cbn [List.length] in Hruns.
  rewrite length_rev in Hruns.
  replace (Z.of_nat (S (List.length pre))) with o in Hruns by lia.
  exists b, post, body, (o + Z.of_nat (List.length b)).
  split; [exact E|]. split; [reflexivity|]. split; [exact Hruns|].
  split; [exact Happ|].
  intros ds Hsfx Hmax. destruct Hruns as (cost & need & Hb).
  exists (Z.to_nat (decimal ds) * (cost + 1) + need)%nat. intros w fuel Hfuel.
  eapply generate_mono; [|exact Hfuel].
  apply (group_repeat rand (pre ++ Ch.lparen :: rest) o (o + Z.of_nat (List.length b))
           (decimal ds) (o + Z.of_nat (List.length b) + 2 + Z.of_nat (List.length ds)))
    with (cost := cost) (need := need).
  - assert (Hz : pre ++ Ch.lparen :: b ++ Ch.rparen :: post
                 = rev (rev b ++ Ch.lparen :: rev pre) ++ Ch.rparen :: post).
    { rewrite rev_app_distr, rev_involutive. cbn [rev].
      rewrite rev_involutive, <- !app_assoc. reflexivity. }
    rewrite E, Hz.
    replace (o + Z.of_nat (List.length b))
      with (Z.of_nat (List.length (rev b ++ Ch.lparen :: rev pre)))
      by (rewrite length_app, length_rev; cbn [List.length]; rewrite length_rev; lia).
    apply rd_zip_here.
  - now apply suffix_of_run.
  - destruct Hsfx as (_ & Hl & Hd & _). now apply decimal_pos.
  - intros f t tm ex w' Hf. now apply Hb.
  - lia.
Qed.

(** generate of src/unnamed/part_000 returns on every pattern that check
    accepts, when no class of the pattern is empty and no count of a class
    exceeds INT_MAX: with enough fuel, whatever the values of rand, the call
    for the whole pattern reports the length of the pattern, and it has only
    appended to the output, with the same number of calls of rand wherever
    the output and the calls stood before. *)
Theorem generate_returns rand s :
  V2.check s = Some true ->
  no_empty_class s = true -> class_counts_fit s = true ->
  exists body F, appends body /\
    forall w fuel, (F <= fuel)%nat ->
      Gen.generate (sampler rand) fuel s 0 w
      = Some (Z.of_nat (List.length s), body w).
Proof.
  intros Hck Hne Hcf. unfold V2.check in Hck.
  destruct (seq_run rand (List.length s) s (le_n _) [] 0 Hck ltac:(lia))
    as (b & rest2 & body & E & Hst & Hruns & Happ); try assumption.
  { constructor. }
  destruct Hst as [[-> _]|(r & _ & Hl & _)]; [|lia].
  rewrite app_nil_r in E. subst b. cbn [rev app List.length] in Hruns.
  change (Z.of_nat 0) with 0 in Hruns.
  apply runs_at with (j' := Z.of_nat (List.length s)) in Hruns; [|lia].
  destruct Hruns as (cost & need & Hb).
  exists body, (cost + S need)%nat. split; [exact Happ|].
  intros w fuel Hfuel. eapply generate_mono; [|exact Hfuel].
  unfold Gen.generate. rewrite Hb by lia. rewrite gen_loop_step.
  assert (R : rd s (Z.of_nat (List.length s)) = Some 0).
  { unfold rd.
    destruct (Z.ltb_spec (Z.of_nat (List.length s)) 0); [lia|].
    rewrite Z.ltb_irrefl, Z.eqb_refl. reflexivity. }
  rewrite R. cbv beta match. change (0 =? 0) with true. cbv beta match.
  do 2 f_equal. lia.
Qed.

Lemma generate_returns_witness :
  V2.check (chars_of "x([a-c]\)*2y)*3[01]*4") = Some true /\
  no_empty_class (chars_of "x([a-c]\)*2y)*3[01]*4") = true /\
  class_counts_fit (chars_of "x([a-c]\)*2y)*3[01]*4") = true /\
  exists body F, appends body /\
    forall w fuel, (F <= fuel)%nat ->
      Gen.generate (sampler (fun n => N.of_nat n)) fuel
                   (chars_of "x([a-c]\)*2y)*3[01]*4") 0 w
      = Some (Z.of_nat (List.length (chars_of "x([a-c]\)*2y)*3[01]*4")), body w).
Proof.
  split; [reflexivity|]. split; [reflexivity|]. split; [reflexivity|].
  apply (generate_returns (fun n => N.of_nat n) (chars_of "x([a-c]\)*2y)*3[01]*4"));
    reflexivity.
Defined.

(** ** The count of a group, from check *)

Lemma empty_class_never_returns rand fuel w :
  Gen.generate (sampler rand) fuel (chars_of "(\\[])*2") 0 w = None.
Proof.
  generalize (sampler rand). intros sample.
  destruct fuel as [|[|[|fuel]]]; reflexivity.
Qed.

Lemma negative_count_never_returns rand fuel w :
  Gen.generate (sampler rand) fuel (chars_of "([a]*2147483648)*2") 0 w = None.
Proof.
  generalize (sampler rand). intros sample.
  destruct fuel as [|[|fuel]]; reflexivity.
Qed.

(** C2, as the code has it.  Take a pattern that check accepts, that holds
    no empty class (an opening bracket with a closing one right after it)
    and no count of a class above INT_MAX, and in it a group, that is an
    opening parenthesis that no backslash escapes.  The group is closed,
    and the loop of generate runs through its body [b], from the offset
    [o] after the opening parenthesis to the closing one at [j], turning
    the world [w] into [body w]: the body only appends to the output, a
    text that is taken anew from the draws of the execution.  When the
    closing parenthesis is followed by a star and a run of decimal digits,
    first digit 1..9, that denotes a number N no greater than INT_MAX, the
    call of generate for the group, with enough fuel, executes the body
    exactly N times, each execution starting from the world the one before
    left (so every class draws afresh), and reports the offset just past
    the digits.  The same count holds in any pattern, accepted or not, for
    a group of which one execution of the body is known to complete.  One
    invocation on ([A-Za-z][0-9])*3 writes six characters, each from a draw
    of its own: letters at positions 0, 2, 4 and decimal digits at
    positions 1, 3, 5. *)
Theorem C2_group_count_within_int :
  (forall rand pre rest o,
      o = Z.of_nat (List.length pre) + 1 ->
      V2.check (pre ++ Ch.lparen :: rest) = Some true ->
      escaped_here (rev pre) = false ->
      no_empty_class (pre ++ Ch.lparen :: rest) = true ->
      class_counts_fit (pre ++ Ch.lparen :: rest) = true ->
      exists b post body j,
        rest = b ++ Ch.rparen :: post /\ j = o + Z.of_nat (List.length b) /\
        runs (sampler rand) (pre ++ Ch.lparen :: rest) o j body /\
        appends body /\
        forall ds,
          has_suffix (pre ++ Ch.lparen :: rest) j ds -> decimal ds <= INT_MAX ->
          exists F, forall w fuel, (F <= fuel)%nat ->
            Gen.generate (sampler rand) fuel (pre ++ Ch.lparen :: rest) o w
            = Some (j + 2 + Z.of_nat (List.length ds) - o - 1,
                    Nat.iter (Z.to_nat (decimal ds)) body w)) /\
  (forall rand s o j ds (body : world -> world) cost need,
      rd s j = Some Ch.rparen ->
      has_suffix s j ds -> decimal ds <= INT_MAX ->
      (forall f t tm ex w, (need <= f)%nat ->
          Gen.gen_loop (sampler rand) (cost + f) s o o t tm ex w
          = Gen.gen_loop (sampler rand) f s o j t tm ex (body w)) ->
      forall w f, (need <= f)%nat ->
        Gen.generate (sampler rand) (Z.to_nat (decimal ds) * (cost + 1) + f) s o w
        = Some (j + 2 + Z.of_nat (List.length ds) - o - 1,
                Nat.iter (Z.to_nat (decimal ds)) body w)) /\
  (forall rand k,
      Gen.generate (sampler rand) (11 + k) (chars_of "([A-Za-z][0-9])*3") 0 w0
      = Some (17, mkWorld [pick (rand 0%nat) letters; pick (rand 1%nat) digits;
                           pick (rand 2%nat) letters; pick (rand 3%nat) digits;
                           pick (rand 4%nat) letters; pick (rand 5%nat) digits] 6)) /\
  (forall r, is_letter (pick r letters) = true) /\
  (forall r, is_digit (pick r digits) = true).
Proof.
  split; [exact validated_group|].
  split; [|split; [|split; [exact pick_letter | exact pick_digit]]].
  - intros rand s o j ds body cost need Hclose Hsfx Hmax Hbody w f Hf.
    apply (group_repeat rand s o j (decimal ds)
             (j + 2 + Z.of_nat (List.length ds))) with (need := need);
      try assumption.
    + now apply suffix_of_run.
    + destruct Hsfx as (_ & Hl & Hd & _). now apply decimal_pos.
  - intros rand k. apply generate_mono with (fuel := 11%nat); [run_gen|lia].
Qed.

Lemma C2_group_count_within_int_witness :
  (V2.check (chars_of "a\(([0-9]x)*12") = Some true /\
   escaped_here (rev (chars_of "a\(")) = false /\
   no_empty_class (chars_of "a\(([0-9]x)*12") = true /\
   class_counts_fit (chars_of "a\(([0-9]x)*12") = true /\
   exists b post body j,
     chars_of "[0-9]x)*12" = b ++ Ch.rparen :: post /\
     j = 4 + Z.of_nat (List.length b) /\
     runs (sampler (fun n => N.of_nat n)) (chars_of "a\(([0-9]x)*12") 4 j body /\
     appends body /\
     forall ds,
       has_suffix (chars_of "a\(([0-9]x)*12") j ds -> decimal ds <= INT_MAX ->
       exists F, forall w fuel, (F <= fuel)%nat ->
         Gen.generate (sampler (fun n => N.of_nat n)) fuel
                      (chars_of "a\(([0-9]x)*12") 4 w
         = Some (j + 2 + Z.of_nat (List.length ds) - 4 - 1,
                 Nat.iter (Z.to_nat (decimal ds)) body w)) /\
  rd (chars_of "([0-9])*12") 6 = Some Ch.rparen /\
  has_suffix (chars_of "([0-9])*12") 6 (chars_of "12") /\
  decimal (chars_of "12") = 12 /\
  Gen.generate (sampler (fun n => N.of_nat n)) (12 * (1 + 1) + 0)
               (chars_of "([0-9])*12") 1 w0
  = Some (6 + 2 + 2 - 1 - 1,
          Nat.iter 12
            (fun w => mkWorld (out w ++ [sampler (fun n => N.of_nat n) (draws w) digits])
                              (S (draws w))) w0).
Proof.
  split.
  { split; [reflexivity|]. split; [reflexivity|]. split; [reflexivity|].
    split; [reflexivity|].
    apply (proj1 C2_group_count_within_int (fun n => N.of_nat n)
             (chars_of "a\(") (chars_of "[0-9]x)*12") 4); reflexivity. }
  assert (Hs : has_suffix (chars_of "([0-9])*12") 6 (chars_of "12")).
  { split; [lia|]. split; [change (Ch.zero < 49 <= Ch.nine); unfold Ch.zero, Ch.nine; lia|].
    split; [repeat constructor|]. exists []. split; reflexivity. }
  split; [reflexivity|]. split; [exact Hs|]. split; [reflexivity|].
  apply (proj1 (proj2 C2_group_count_within_int) (fun n => N.of_nat n)
           (chars_of "([0-9])*12") 1 6 (chars_of "12")
           (fun w => mkWorld (out w ++ [sampler (fun n => N.of_nat n) (draws w) digits])
                             (S (draws w)))
           1%nat 0%nat).
  - reflexivity.
  - exact Hs.
  - vm_compute. discriminate.
  - intros f t tm ex w' _. reflexivity.
  - lia.
Defined.

(** C2 as stated fails on a count that does not fit an [int]: check accepts
    the pattern (a)*4294967297, the assignment of 2^32 + 1 to the [int] time
    leaves 1, and the body is executed once.  It also fails on a group whose
    body does not complete: check accepts the pattern (\\[])*2, whose
    class is empty after an escaped backslash, and the call of generate
    never returns a result, whatever the fuel: the draw from the empty set
    divides by zero.  Nor does it return on ([a]*2147483648)*2, which check
    accepts: the count of the class becomes the least [int], which the
    loop of the draws cannot decrement. *)
Lemma C2_count_beyond_int :
  V2.check (chars_of "(a)*4294967297") = Some true /\
  rd (chars_of "(a)*4294967297") 2 = Some Ch.rparen /\
  has_suffix (chars_of "(a)*4294967297") 2 (chars_of "4294967297") /\
  decimal (chars_of "4294967297") = 4294967297 /\
  Gen.generate (sampler (fun _ => 0%N)) 3 (chars_of "(a)*4294967297") 0 w0
    = Some (14, mkWorld (chars_of "a") 0) /\
  Z.of_nat (List.length (chars_of "a")) <> decimal (chars_of "4294967297") /\
  V2.check (chars_of "(\\[])*2") = Some true /\
  rd (chars_of "(\\[])*2") 5 = Some Ch.rparen /\
  has_suffix (chars_of "(\\[])*2") 5 (chars_of "2") /\
  no_empty_class (chars_of "(\\[])*2") = false /\
  (forall rand fuel w,
      Gen.generate (sampler rand) fuel (chars_of "(\\[])*2") 0 w = None) /\
  V2.check (chars_of "([a]*2147483648)*2") = Some true /\
  class_counts_fit (chars_of "([a]*2147483648)*2") = false /\
  forall rand fuel w,
    Gen.generate (sampler rand) fuel (chars_of "([a]*2147483648)*2") 0 w = None.
Proof.
  split; [reflexivity|]. split; [reflexivity|]. split.
  { split; [lia|]. split; [change (Ch.zero < 52 <= Ch.nine); unfold Ch.zero, Ch.nine; lia|].
    split; [repeat constructor|]. exists []. split; reflexivity. }
  split; [reflexivity|]. split; [reflexivity|].
  split; [vm_compute; discriminate|].
  split; [reflexivity|]. split; [reflexivity|]. split.
  { split; [lia|]. split; [change (Ch.zero < 50 <= Ch.nine); unfold Ch.zero, Ch.nine; lia|].
    split; [repeat constructor|]. exists []. split; reflexivity. }
  split; [reflexivity|]. split; [exact empty_class_never_returns|].
  split; [reflexivity|]. split; [reflexivity|].
  exact negative_count_never_returns.
Qed.
